(** * WLK weather-archive codec and derived metrics: a shallow embedding

    This development embeds [WLKtoJSONConverter.py] in Rocq and checks the
    properties the specification states about it: the timestamp codec, the
    compass enumeration, the table-driven CRC, the four table-driven record
    decoders and the derived metrics (heat index, wind chill, rolling
    10-minute wind average).

    Conventions.
    - Python integers are [Z]; byte strings are [list byte].
    - [decimal.Decimal] values are pairs of a coefficient and an exponent;
      arithmetic follows the default context of the [decimal] module
      (28 significant digits, round-half-even).  Signed zeros, NaNs,
      infinities and the exponent limits (|exp| <= 999999) are not modelled.
    - A Python exception is a value of [exn]; code that may raise returns
      [result A].
    - [RecordDict] (a [dict] with attribute access) is a [gmap string value]. *)

From Stdlib Require Import ZArith QArith Qpower Qround Qcanon List String Ascii
  Bool Lia Lqa.
From Stdlib.Strings Require Import Byte.
From stdpp Require Import gmap strings list fin_maps.

Local Open Scope Z_scope.

(* ===================================================================== *)
(** * Part I: definitions                                                  *)
(* ===================================================================== *)

(** ** Unpacked fields, exceptions and the error monad *)

(** What [struct.unpack_from] yields for one field: an integer, or a byte
    string for the [s] and [c] formats. *)
Inductive raw : Type :=
| RInt (n : Z)
| RBytes (bs : list byte).

#[global] Instance byte_eq_dec : EqDecision byte := Byte.byte_eq_dec.

#[global] Instance raw_eq_dec : EqDecision raw.
Proof. solve_decision. Defined.

Inductive exn : Type :=
| StructError        (* struct.error: buffer smaller than the format *)
| AssertionError (actual expected : raw)
| ValueError
| TypeError
| AttributeError
| KeyError
| IndexError
| OverflowError
| InvalidOperation.  (* decimal.InvalidOperation *)

Inductive result (A : Type) : Type :=
| Ok (a : A)
| Raise (e : exn).
Arguments Ok {A} a.
Arguments Raise {A} e.

Definition rbind {A B} (r : result A) (k : A -> result B) : result B :=
  match r with
  | Ok a => k a
  | Raise e => Raise e
  end.

#[global] Instance result_ret : MRet result := fun _ a => Ok a.
#[global] Instance result_bind : MBind result := fun _ _ k r => rbind r k.

Definition is_ok {A} (r : result A) : bool :=
  match r with Ok _ => true | Raise _ => false end.

(** ** decimal.Decimal *)

Module Dec.

(** A finite decimal: [dcoef * 10 ^ dexp]. *)
Record t : Type := mk { dcoef : Z; dexp : Z }.

Definition PREC : Z := 28.   (* decimal.getcontext().prec *)

Definition of_int (n : Z) : t := mk n 0.    (* Decimal(n) *)

Definition is_zero (d : t) : bool := dcoef d =? 0.

Fixpoint ndigits_aux (fuel : nat) (n : Z) : Z :=
  match fuel with
  | O => 1
  | S f => if n <? 10 then 1 else 1 + ndigits_aux f (n / 10)
  end.

(** Number of decimal digits of [|n|] (1 for 0), i.e. [len(self._int)]. *)
Definition ndigits (n : Z) : Z :=
  ndigits_aux (S (Z.to_nat (Z.log2 (Z.abs n)))) (Z.abs n).

(** Rounding modes of the [decimal] module used by the source. *)
Inductive rounding := ROUND_HALF_EVEN | ROUND_CEILING | ROUND_FLOOR.

(** [c / 10^k] rounded to an integer ([k > 0]). *)
Definition round_div (r : rounding) (c k : Z) : Z :=
  let p := 10 ^ k in
  match r with
  | ROUND_FLOOR => c / p
  | ROUND_CEILING => - ((- c) / p)
  | ROUND_HALF_EVEN =>
      let q := c / p in
      let rm := c mod p in
      match Z.compare (2 * rm) p with
      | Lt => q
      | Gt => q + 1
      | Eq => if Z.even q then q else q + 1
      end
  end.

(** [Decimal._fix]: round to the context precision, half-even. *)
Definition fix_ (d : t) : t :=
  let n := ndigits (dcoef d) in
  if n <=? PREC then d
  else
    let k := n - PREC in
    let c := round_div ROUND_HALF_EVEN (dcoef d) k in
    if ndigits c <=? PREC then mk c (dexp d + k)
    else mk (c / 10) (dexp d + k + 1).

(** Exact operations (no context rounding), used in statements. *)
Definition align (a b : t) : Z * Z * Z :=
  let m := Z.min (dexp a) (dexp b) in
  (dcoef a * 10 ^ (dexp a - m), dcoef b * 10 ^ (dexp b - m), m).

Definition add_exact (a b : t) : t :=
  let '(x, y, m) := align a b in mk (x + y) m.
Definition opp_exact (a : t) : t := mk (- dcoef a) (dexp a).
Definition sub_exact (a b : t) : t := add_exact a (opp_exact b).
Definition mul_exact (a b : t) : t := mk (dcoef a * dcoef b) (dexp a + dexp b).

(** The arithmetic operators of [Decimal]: exact result, then [_fix]. *)
Definition add (a b : t) : t := fix_ (add_exact a b).
Definition neg (a : t) : t := fix_ (opp_exact a).
Definition sub (a b : t) : t := fix_ (sub_exact a b).
Definition mul (a b : t) : t := fix_ (mul_exact a b).

(** Numeric comparison ([Decimal.__lt__] and friends, never rounded). *)
Definition compare (a b : t) : comparison :=
  let '(x, y, _) := align a b in Z.compare x y.

Definition eqb (a b : t) : bool :=
  match compare a b with Eq => true | _ => false end.
Definition ltb (a b : t) : bool :=
  match compare a b with Lt => true | _ => false end.
Definition leb (a b : t) : bool :=
  match compare a b with Gt => false | _ => true end.
Definition gtb (a b : t) : bool := ltb b a.
Definition geb (a b : t) : bool := leb b a.

Definition lt (a b : t) : Prop := compare a b = Lt.
Definition le (a b : t) : Prop := compare a b <> Gt.
Definition eq_num (a b : t) : Prop := compare a b = Eq.

(** [Decimal.__truediv__]; a zero divisor raises (DivisionByZero, or
    InvalidOperation for 0/0, both trapped by the default context). *)
Fixpoint strip_zeros (fuel : nat) (coeff e ideal : Z) : Z * Z :=
  match fuel with
  | O => (coeff, e)
  | S f =>
      if (e <? ideal) && (coeff mod 10 =? 0)
      then strip_zeros f (coeff / 10) (e + 1) ideal
      else (coeff, e)
  end.

Definition div (a b : t) : result t :=
  if is_zero b then Raise InvalidOperation   (* DivisionByZero / undefined *)
  else if is_zero a then Ok (fix_ (mk 0 (dexp a - dexp b)))
  else
    let sgn := Z.sgn (dcoef a) * Z.sgn (dcoef b) in
    let x := Z.abs (dcoef a) in
    let y := Z.abs (dcoef b) in
    let shift := ndigits y - ndigits x + PREC + 1 in
    let e := dexp a - dexp b - shift in
    let '(coeff, remainder) :=
      if 0 <=? shift then Z.div_eucl (x * 10 ^ shift) y
      else Z.div_eucl x (y * 10 ^ (- shift)) in
    let '(coeff', e') :=
      if remainder =? 0
      then strip_zeros (Z.to_nat (ndigits coeff)) coeff e (dexp a - dexp b)
      else (if coeff mod 5 =? 0 then coeff + 1 else coeff, e) in
    Ok (fix_ (mk (sgn * coeff') e')).

(** [Decimal.sqrt]: correctly rounded (half-even) square root. *)
Definition sqrt (a : t) : result t :=
  if dcoef a <? 0 then Raise InvalidOperation
  else if is_zero a then Ok (fix_ (mk 0 (dexp a / 2)))
  else
    let prec := PREC + 1 in
    let nd := ndigits (dcoef a) in
    let e := dexp a / 2 in                       (* op.exp >> 1 *)
    let '(c, l) :=
      if Z.odd (dexp a)
      then (dcoef a * 10, nd / 2 + 1)
      else (dcoef a, (nd + 1) / 2) in
    let shift := prec - l in
    let '(c1, exact0) :=
      if 0 <=? shift then (c * 100 ^ shift, true)
      else let '(q, r) := Z.div_eucl c (100 ^ (- shift)) in (q, r =? 0) in
    let e1 := e - shift in
    let n := Z.sqrt c1 in
    let exact := exact0 && (n * n =? c1) in
    let '(n', e') :=
      if exact
      then ((if 0 <=? shift then n / 10 ^ shift else n * 10 ^ (- shift)),
            e1 + shift)
      else ((if n mod 5 =? 0 then n + 1 else n), e1) in
    Ok (fix_ (mk n' e')).

(** [Decimal.quantize(Decimal('1E<q>'), rounding=r)]. *)
Definition rescale (r : rounding) (a : t) (q : Z) : t :=
  if q <=? dexp a then mk (dcoef a * 10 ^ (dexp a - q)) q
  else mk (round_div r (dcoef a) (q - dexp a)) q.

Definition quantize (r : rounding) (a : t) (q : Z) : result t :=
  if is_zero a then Ok (mk 0 q)
  else if PREC <? dexp a + ndigits (dcoef a) - q
  then Raise InvalidOperation
  else
    let ans := rescale r a q in
    if PREC <? ndigits (dcoef ans) then Raise InvalidOperation
    else Ok ans.

(** [int(d)]: truncation toward zero. *)
Definition to_int (a : t) : Z :=
  if 0 <=? dexp a then dcoef a * 10 ^ dexp a
  else Z.quot (dcoef a) (10 ^ (- dexp a)).

End Dec.

Abbreviation Decimal := Dec.t.

(** [Decimal('<c>E<e>')] literals of the source. *)
Definition D (c e : Z) : Decimal := Dec.mk c e.

(** ** datetime *)

(** [datetime.datetime] (naive): the proleptic Gregorian calendar of the
    [datetime] module, years 1..9999. *)
Record datetime : Type := mkDatetime {
  year : Z; month : Z; day : Z; hour : Z; minute : Z;
  second : Z; microsecond : Z
}.

#[global] Instance datetime_eq_dec : EqDecision datetime.
Proof. solve_decision. Defined.

Module Calendar.

Definition MINYEAR : Z := 1.
Definition MAXYEAR : Z := 9999.

Definition is_leap (y : Z) : bool :=
  (y mod 4 =? 0) && (negb (y mod 100 =? 0) || (y mod 400 =? 0)).

Definition days_in_month (y m : Z) : Z :=
  if m =? 2 then (if is_leap y then 29 else 28)
  else if (m =? 4) || (m =? 6) || (m =? 9) || (m =? 11) then 30
  else 31.

Definition valid_date (y m d : Z) : bool :=
  (MINYEAR <=? y) && (y <=? MAXYEAR) && (1 <=? m) && (m <=? 12) &&
  (1 <=? d) && (d <=? days_in_month y m).

Definition valid_time (h mi s us : Z) : bool :=
  (0 <=? h) && (h <=? 23) && (0 <=? mi) && (mi <=? 59) &&
  (0 <=? s) && (s <=? 59) && (0 <=? us) && (us <=? 999999).

Definition valid (d : datetime) : bool :=
  valid_date (year d) (month d) (day d) &&
  valid_time (hour d) (minute d) (second d) (microsecond d).

(** An argument of the [datetime] constructor is converted to a C [int]:
    OverflowError outside 32 bits. *)
Definition c_int (n : Z) : bool := (- 2 ^ 31 <=? n) && (n <? 2 ^ 31).

(** [datetime.datetime(y, m, d, h, mi)]: OverflowError when an argument is
    not a C [int], ValueError when it is out of range. *)
Definition make (y m d h mi : Z) : result datetime :=
  if c_int y && c_int m && c_int d && c_int h && c_int mi
  then
    if valid_date y m d && valid_time h mi 0 0
    then Ok (mkDatetime y m d h mi 0 0)
    else Raise ValueError
  else Raise OverflowError.

Definition days_before_year (y : Z) : Z :=
  let p := y - 1 in p * 365 + p / 4 - p / 100 + p / 400.

Fixpoint days_before_month_aux (y : Z) (n : nat) : Z :=
  match n with
  | O => 0
  | S k => days_before_month_aux y k + days_in_month y (Z.of_nat (S k))
  end.

(** Days of year [y] before the first of month [m]. *)
Definition days_before_month (y m : Z) : Z :=
  days_before_month_aux y (Z.to_nat (m - 1)).

(** [date.toordinal]: 0001-01-01 is day 1. *)
Definition ymd2ord (y m d : Z) : Z :=
  days_before_year y + days_before_month y m + d.

Definition MAXORDINAL : Z := 3652059.   (* date(9999, 12, 31).toordinal() *)

(** [date.fromordinal], by the 400/100/4/1-year cycle decomposition. *)
Definition ord2ymd (n0 : Z) : Z * Z * Z :=
  let n := n0 - 1 in
  let n400 := n / 146097 in let n := n mod 146097 in
  let n100 := n / 36524 in let n := n mod 36524 in
  let n4 := n / 1461 in let n := n mod 1461 in
  let n1 := n / 365 in let n := n mod 365 in
  let y := n400 * 400 + 1 + n100 * 100 + n4 * 4 + n1 in
  if (n1 =? 4) || (n100 =? 4) then (y - 1, 12, 31)
  else
    let m := (n + 50) / 32 in
    let preceding := days_before_month y m in
    if n <? preceding
    then (y, m - 1, n - (preceding - days_in_month y (m - 1)) + 1)
    else (y, m, n - preceding + 1).

(** [d + datetime.timedelta(minutes=k)] (also used with negative [k]);
    OverflowError when the result leaves years 1..9999. *)
Definition add_minutes (d : datetime) (k : Z) : result datetime :=
  let total :=
    (ymd2ord (year d) (month d) (day d) * 24 + hour d) * 60 + minute d + k in
  let o := total / 1440 in
  let r := total mod 1440 in
  if (1 <=? o) && (o <=? MAXORDINAL)
  then let '(y, m, dd) := ord2ymd o in
       Ok (mkDatetime y m dd (r / 60) (r mod 60) (second d) (microsecond d))
  else Raise OverflowError.

End Calendar.

(** ** Timestamp codec *)

(** The argument of [convert_datetime_to_timestamp]: a [datetime.datetime], or
    anything else (an already packed integer), which is returned as it is. *)
Inductive timestamp_arg : Type :=
| ArgDatetime (d : datetime)
| ArgInt (n : Z).

Definition convert_datetime_to_timestamp (d : timestamp_arg) : Z :=
  match d with
  | ArgDatetime d =>
      Z.shiftl (day d + month d * 32 + (year d - 2000) * 512) 16
      + (minute d + hour d * 100)
  | ArgInt n => n
  end.

(** [int(a / b + c)] for integers [a], [c] and a positive integer [b]: the
    true quotient is truncated toward zero.  (For every timestamp below 2^53
    the float quotients by 512 and 32 are exact, and the quotient by 100 of a
    16-bit time part truncates to the integer quotient.) *)
Definition int_truediv_plus (a b c : Z) : Z := Z.quot (a + c * b) b.

Definition convert_timestamp_to_datetime (timestamp : Z) : result datetime :=
  let date_part := Z.shiftr timestamp 16 in
  let time_part := timestamp - Z.shiftl date_part 16 in
  let year := int_truediv_plus date_part 512 2000 in
  let month := int_truediv_plus (date_part - (year - 2000) * 512) 32 0 in
  let day := date_part - (year - 2000) * 512 - month * 32 in
  let hour := int_truediv_plus time_part 100 0 in
  let minute := time_part - hour * 100 in
  Calendar.make year month day hour minute.

(** ** Enumerations *)

Module BarometricTrend.

Inductive t : Type :=
| falling_rapidly | falling_slowly | steady | rising_slowly | rising_rapidly.

#[global] Instance eq_dec : EqDecision t.
Proof. solve_decision. Defined.

Definition value (b : t) : Z :=
  match b with
  | falling_rapidly => -60
  | falling_slowly => -20
  | steady => 0
  | rising_slowly => 20
  | rising_rapidly => 60
  end.

Definition members : list t :=
  [falling_rapidly; falling_slowly; steady; rising_slowly; rising_rapidly].

(** [BarometricTrend(v)]: ValueError unless [v] is a member's value. *)
Definition of_value (v : Z) : result t :=
  match List.find (fun b => value b =? v) members with
  | Some b => Ok b
  | None => Raise ValueError
  end.

End BarometricTrend.

Module WindDirection.

(** The 17 members of the enumeration: [NS] (value -1) and the 16 compass
    points. *)
Inductive t : Type :=
| NS | N | NNE | NE | ENE | E | ESE | SE | SSE
| S | SSW | SW | WSW | W | WNW | NW | NNW.

#[global] Instance eq_dec : EqDecision t.
Proof. solve_decision. Defined.

Definition members : list t :=
  [NS; N; NNE; NE; ENE; E; ESE; SE; SSE; S; SSW; SW; WSW; W; WNW; NW; NNW].

Definition value (w : t) : Z :=
  match w with
  | NS => -1
  | N => 0 | NNE => 1 | NE => 2 | ENE => 3
  | E => 4 | ESE => 5 | SE => 6 | SSE => 7
  | S => 8 | SSW => 9 | SW => 10 | WSW => 11
  | W => 12 | WNW => 13 | NW => 14 | NNW => 15
  end.

(** [WindDirection(v)]: the member whose value is [v], else ValueError. *)
Definition of_value (v : Z) : result t :=
  match List.find (fun w => value w =? v) members with
  | Some w => Ok w
  | None => Raise ValueError
  end.

(** The [degrees] attribute set by [__init__]: a float, always a multiple
    of 0.5 and therefore exact; modelled as a rational. *)
Definition degrees_of_value (v : Z) : Qc :=
  let d := (Q2Qc (inject_Z v) * Q2Qc (45 # 2))%Qc in
  if Qc_eq_dec d (Q2Qc 0) then Q2Qc (inject_Z 360) else d.

Definition degrees (w : t) : Qc := degrees_of_value (value w).

(** [_WindDirection__FROM_DEGREE_MAP]. *)
Definition FROM_DEGREE_MAP_items : list (Z * t) :=
  [
    (350, N); (351, N); (352, N); (353, N); (354, N); (355, N); (356, N); (357, N); (358, N); (359, N); (360, N); (1, N); (2, N); (3, N); (4, N); (5, N); (6, N); (7, N); (8, N); (9, N); (10, N); (11, N);
    (12, NNE); (13, NNE); (14, NNE); (15, NNE); (16, NNE); (17, NNE); (18, NNE); (19, NNE); (20, NNE); (21, NNE); (22, NNE); (23, NNE); (24, NNE); (25, NNE); (26, NNE); (27, NNE); (28, NNE); (29, NNE); (30, NNE); (31, NNE); (32, NNE); (33, NNE); (34, NNE);
    (35, NE); (36, NE); (37, NE); (38, NE); (39, NE); (40, NE); (41, NE); (42, NE); (43, NE); (44, NE); (45, NE); (46, NE); (47, NE); (48, NE); (49, NE); (50, NE); (51, NE); (52, NE); (53, NE); (54, NE); (55, NE); (56, NE);
    (57, ENE); (58, ENE); (59, ENE); (60, ENE); (61, ENE); (62, ENE); (63, ENE); (64, ENE); (65, ENE); (66, ENE); (67, ENE); (68, ENE); (69, ENE); (70, ENE); (71, ENE); (72, ENE); (73, ENE); (74, ENE); (75, ENE); (76, ENE); (77, ENE); (78, ENE); (79, ENE);
    (80, E); (81, E); (82, E); (83, E); (84, E); (85, E); (86, E); (87, E); (88, E); (89, E); (90, E); (91, E); (92, E); (93, E); (94, E); (95, E); (96, E); (97, E); (98, E); (99, E); (100, E); (101, E);
    (102, ESE); (103, ESE); (104, ESE); (105, ESE); (106, ESE); (107, ESE); (108, ESE); (109, ESE); (110, ESE); (111, ESE); (112, ESE); (113, ESE); (114, ESE); (115, ESE); (116, ESE); (117, ESE); (118, ESE); (119, ESE); (120, ESE); (121, ESE); (122, ESE); (123, ESE); (124, ESE);
    (125, SE); (126, SE); (127, SE); (128, SE); (129, SE); (130, SE); (131, SE); (132, SE); (133, SE); (134, SE); (135, SE); (136, SE); (137, SE); (138, SE); (139, SE); (140, SE); (141, SE); (142, SE); (143, SE); (144, SE); (145, SE); (146, SE);
    (147, SSE); (148, SSE); (149, SSE); (150, SSE); (151, SSE); (152, SSE); (153, SSE); (154, SSE); (155, SSE); (156, SSE); (157, SSE); (158, SSE); (159, SSE); (160, SSE); (161, SSE); (162, SSE); (163, SSE); (164, SSE); (165, SSE); (166, SSE); (167, SSE); (168, SSE); (169, SSE);
    (170, S); (171, S); (172, S); (173, S); (174, S); (175, S); (176, S); (177, S); (178, S); (179, S); (180, S); (181, S); (182, S); (183, S); (184, S); (185, S); (186, S); (187, S); (188, S); (189, S); (190, S); (191, S);
    (192, SSW); (193, SSW); (194, SSW); (195, SSW); (196, SSW); (197, SSW); (198, SSW); (199, SSW); (200, SSW); (201, SSW); (202, SSW); (203, SSW); (204, SSW); (205, SSW); (206, SSW); (207, SSW); (208, SSW); (209, SSW); (210, SSW); (211, SSW); (212, SSW); (213, SSW); (214, SSW);
    (215, SW); (216, SW); (217, SW); (218, SW); (219, SW); (220, SW); (221, SW); (222, SW); (223, SW); (224, SW); (225, SW); (226, SW); (227, SW); (228, SW); (229, SW); (230, SW); (231, SW); (232, SW); (233, SW); (234, SW); (235, SW); (236, SW);
    (237, WSW); (238, WSW); (239, WSW); (240, WSW); (241, WSW); (242, WSW); (243, WSW); (244, WSW); (245, WSW); (246, WSW); (247, WSW); (248, WSW); (249, WSW); (250, WSW); (251, WSW); (252, WSW); (253, WSW); (254, WSW); (255, WSW); (256, WSW); (257, WSW); (258, WSW); (259, WSW);
    (260, W); (261, W); (262, W); (263, W); (264, W); (265, W); (266, W); (267, W); (268, W); (269, W); (270, W); (271, W); (272, W); (273, W); (274, W); (275, W); (276, W); (277, W); (278, W); (279, W); (280, W); (281, W);
    (282, WNW); (283, WNW); (284, WNW); (285, WNW); (286, WNW); (287, WNW); (288, WNW); (289, WNW); (290, WNW); (291, WNW); (292, WNW); (293, WNW); (294, WNW); (295, WNW); (296, WNW); (297, WNW); (298, WNW); (299, WNW); (300, WNW); (301, WNW); (302, WNW); (303, WNW); (304, WNW);
    (305, NW); (306, NW); (307, NW); (308, NW); (309, NW); (310, NW); (311, NW); (312, NW); (313, NW); (314, NW); (315, NW); (316, NW); (317, NW); (318, NW); (319, NW); (320, NW); (321, NW); (322, NW); (323, NW); (324, NW); (325, NW); (326, NW);
    (327, NNW); (328, NNW); (329, NNW); (330, NNW); (331, NNW); (332, NNW); (333, NNW); (334, NNW); (335, NNW); (336, NNW); (337, NNW); (338, NNW); (339, NNW); (340, NNW); (341, NNW); (342, NNW); (343, NNW); (344, NNW); (345, NNW); (346, NNW); (347, NNW); (348, NNW); (349, NNW)
  ].

Definition FROM_DEGREE_MAP : gmap Z t := list_to_map FROM_DEGREE_MAP_items.

(** [WindDirection.from_degrees].  The argument may be any number; a dict
    key matches when it is numerically equal to one of the integer keys,
    and a missing key raises KeyError. *)
Definition from_degrees (degrees : Qc) : result (option t) :=
  if Qclt_le_dec degrees (Q2Qc (inject_Z 1)) then Ok None
  else if Qclt_le_dec (Q2Qc (inject_Z 360)) degrees then Ok None
  else
    if (Qden (this degrees) =? 1)%positive
    then match FROM_DEGREE_MAP !! Qnum (this degrees) with
         | Some w => Ok (Some w)
         | None => Raise KeyError
         end
    else Raise KeyError.

Definition from_degrees_int (degrees : Z) : result (option t) :=
  from_degrees (Q2Qc (inject_Z degrees)).

End WindDirection.

(** ** Checksum *)

Definition WEATHERLINK_CRC_TABLE : list Z :=
  [
   0x0; 0x1021; 0x2042; 0x3063; 0x4084; 0x50a5; 0x60c6; 0x70e7;
   0x8108; 0x9129; 0xa14a; 0xb16b; 0xc18c; 0xd1ad; 0xe1ce; 0xf1ef;
   0x1231; 0x210; 0x3273; 0x2252; 0x52b5; 0x4294; 0x72f7; 0x62d6;
   0x9339; 0x8318; 0xb37b; 0xa35a; 0xd3bd; 0xc39c; 0xf3ff; 0xe3de;
   0x2462; 0x3443; 0x420; 0x1401; 0x64e6; 0x74c7; 0x44a4; 0x5485;
   0xa56a; 0xb54b; 0x8528; 0x9509; 0xe5ee; 0xf5cf; 0xc5ac; 0xd58d;
   0x3653; 0x2672; 0x1611; 0x630; 0x76d7; 0x66f6; 0x5695; 0x46b4;
   0xb75b; 0xa77a; 0x9719; 0x8738; 0xf7df; 0xe7fe; 0xd79d; 0xc7bc;
   0x48c4; 0x58e5; 0x6886; 0x78a7; 0x840; 0x1861; 0x2802; 0x3823;
   0xc9cc; 0xd9ed; 0xe98e; 0xf9af; 0x8948; 0x9969; 0xa90a; 0xb92b;
   0x5af5; 0x4ad4; 0x7ab7; 0x6a96; 0x1a71; 0xa50; 0x3a33; 0x2a12;
   0xdbfd; 0xcbdc; 0xfbbf; 0xeb9e; 0x9b79; 0x8b58; 0xbb3b; 0xab1a;
   0x6ca6; 0x7c87; 0x4ce4; 0x5cc5; 0x2c22; 0x3c03; 0xc60; 0x1c41;
   0xedae; 0xfd8f; 0xcdec; 0xddcd; 0xad2a; 0xbd0b; 0x8d68; 0x9d49;
   0x7e97; 0x6eb6; 0x5ed5; 0x4ef4; 0x3e13; 0x2e32; 0x1e51; 0xe70;
   0xff9f; 0xefbe; 0xdfdd; 0xcffc; 0xbf1b; 0xaf3a; 0x9f59; 0x8f78;
   0x9188; 0x81a9; 0xb1ca; 0xa1eb; 0xd10c; 0xc12d; 0xf14e; 0xe16f;
   0x1080; 0xa1; 0x30c2; 0x20e3; 0x5004; 0x4025; 0x7046; 0x6067;
   0x83b9; 0x9398; 0xa3fb; 0xb3da; 0xc33d; 0xd31c; 0xe37f; 0xf35e;
   0x2b1; 0x1290; 0x22f3; 0x32d2; 0x4235; 0x5214; 0x6277; 0x7256;
   0xb5ea; 0xa5cb; 0x95a8; 0x8589; 0xf56e; 0xe54f; 0xd52c; 0xc50d;
   0x34e2; 0x24c3; 0x14a0; 0x481; 0x7466; 0x6447; 0x5424; 0x4405;
   0xa7db; 0xb7fa; 0x8799; 0x97b8; 0xe75f; 0xf77e; 0xc71d; 0xd73c;
   0x26d3; 0x36f2; 0x691; 0x16b0; 0x6657; 0x7676; 0x4615; 0x5634;
   0xd94c; 0xc96d; 0xf90e; 0xe92f; 0x99c8; 0x89e9; 0xb98a; 0xa9ab;
   0x5844; 0x4865; 0x7806; 0x6827; 0x18c0; 0x8e1; 0x3882; 0x28a3;
   0xcb7d; 0xdb5c; 0xeb3f; 0xfb1e; 0x8bf9; 0x9bd8; 0xabbb; 0xbb9a;
   0x4a75; 0x5a54; 0x6a37; 0x7a16; 0xaf1; 0x1ad0; 0x2ab3; 0x3a92;
   0xfd2e; 0xed0f; 0xdd6c; 0xcd4d; 0xbdaa; 0xad8b; 0x9de8; 0x8dc9;
   0x7c26; 0x6c07; 0x5c64; 0x4c45; 0x3ca2; 0x2c83; 0x1ce0; 0xcc1;
   0xef1f; 0xff3e; 0xcf5d; 0xdf7c; 0xaf9b; 0xbfba; 0x8fd9; 0x9ff8;
   0x6e17; 0x7e36; 0x4e55; 0x5e74; 0x2e93; 0x3eb2; 0xed1; 0x1ef0
  ].

Definition byte_val (b : byte) : Z := Z.of_N (Byte.to_N b).

Definition crc_step (crc : Z) (b : byte) : Z :=
  Z.lxor
    (nth (Z.to_nat (Z.lxor (Z.land (Z.shiftr crc 8) 0xFF) (byte_val b)))
         WEATHERLINK_CRC_TABLE 0)
    (Z.land (Z.shiftl crc 8) 0xFF00).

Definition calculate_weatherlink_crc (data_bytes : list byte) : Z :=
  fold_left crc_step data_bytes 0.

(** ** struct.unpack_from *)

Module Struct.

(** Format characters: [x b B h H l s c]. *)
Inductive code : Type :=
| pad | int8 | uint8 | int16 | uint16 | int32 | chars | char.

(** A format string as its list of (repeat count, character) items.  The
    byte-order prefixes of the source ([=] native order with standard sizes
    and no alignment, [<] little-endian) are both little-endian here. *)
Abbreviation format := (list (nat * code)).

Definition code_size (c : code) : nat :=
  match c with
  | int16 | uint16 => 2
  | int32 => 4
  | _ => 1
  end.

Definition is_signed (c : code) : bool :=
  match c with
  | int8 | int16 | int32 => true
  | _ => false
  end.

Definition calcsize (f : format) : nat :=
  foldr (fun '(n, c) acc => (n * code_size c + acc)%nat) 0%nat f.

Definition unsigned_le (bs : list byte) : Z :=
  foldr (fun b acc => byte_val b + 256 * acc) 0 bs.

Definition signed_le (bs : list byte) : Z :=
  let u := unsigned_le bs in
  let m := 2 ^ (8 * Z.of_nat (length bs)) in
  if u <? m / 2 then u else u - m.

(** One field of a non-padding, non-[s] format character. *)
Definition unpack_one (c : code) (bs : list byte) : raw :=
  match c with
  | char => RBytes bs
  | _ => RInt (if is_signed c then signed_le bs else unsigned_le bs)
  end.

Fixpoint unpack_repeat (n : nat) (c : code) (buf : list byte)
  : list raw * list byte :=
  match n with
  | O => ([], buf)
  | S k =>
      let '(vs, rest) := unpack_repeat k c (drop (code_size c) buf) in
      (unpack_one c (take (code_size c) buf) :: vs, rest)
  end.

Fixpoint unpack_items (f : format) (buf : list byte) : list raw :=
  match f with
  | [] => []
  | (n, pad) :: f' => unpack_items f' (drop n buf)
  | (n, chars) :: f' => RBytes (take n buf) :: unpack_items f' (drop n buf)
  | (n, c) :: f' =>
      let '(vs, rest) := unpack_repeat n c buf in
      vs ++ unpack_items f' rest
  end.

(** [struct.unpack_from(f, buf)] at offset 0: the buffer must hold at least
    [calcsize f] bytes; bytes beyond that are not looked at. *)
Definition unpack_from (f : format) (buf : list byte) : result (list raw) :=
  if (length buf <? calcsize f)%nat then Raise StructError
  else Ok (unpack_items f buf).

End Struct.

(** ** File handles *)

(** A binary file or socket file opened for reading: the bytes not yet read. *)
Abbreviation handle := (list byte).

(** [h.read(n)]: up to [n] bytes, fewer only at end of file. *)
Definition read (n : nat) (h : handle) : list byte * handle :=
  (take n h, drop n h).

(** ** Field values and transforms *)

Module RainCollectorTypeSerial.
Inductive t : Type := inches_0_01 | millimeters_0_2 | millimeters_0_1.
#[global] Instance eq_dec : EqDecision t.
Proof. solve_decision. Defined.
Definition value (r : t) : Z :=
  match r with
  | inches_0_01 => 0x00
  | millimeters_0_2 => 0x10
  | millimeters_0_1 => 0x20
  end.
End RainCollectorTypeSerial.

Module RainCollectorTypeDatabase.
Inductive t : Type :=
| inches_0_1 | inches_0_01 | millimeters_0_2 | millimeters_1_0
| millimeters_0_1.
#[global] Instance eq_dec : EqDecision t.
Proof. solve_decision. Defined.
Definition value (r : t) : Z :=
  match r with
  | inches_0_1 => 0x0000
  | inches_0_01 => 0x1000
  | millimeters_0_2 => 0x2000
  | millimeters_1_0 => 0x3000
  | millimeters_0_1 => 0x6000
  end.
Definition members : list t :=
  [inches_0_1; inches_0_01; millimeters_0_2; millimeters_1_0;
   millimeters_0_1].
Definition of_value (v : Z) : result t :=
  match List.find (fun r => value r =? v) members with
  | Some r => Ok r
  | None => Raise ValueError
  end.
End RainCollectorTypeDatabase.

(** The Python values a decoded record can hold. *)
Inductive value : Type :=
| VNone
| VInt (n : Z)
| VBool (b : bool)
| VDecimal (d : Decimal)
| VFloat (q : Qc)
| VWindDirection (w : WindDirection.t)
| VBarometricTrend (b : BarometricTrend.t)
| VRainSerial (r : RainCollectorTypeSerial.t)
| VRainDatabase (r : RainCollectorTypeDatabase.t)
| VDate (y m d : Z)
| VDatetime (d : datetime).

(** Truth value in an [if]. *)
Definition truthy (v : value) : bool :=
  match v with
  | VNone => false
  | VInt n => negb (n =? 0)
  | VBool b => b
  | VDecimal d => negb (Dec.is_zero d)
  | VFloat q => if Qc_eq_dec q (Q2Qc 0) then false else true
  | _ => true
  end.

Definition DASH_LARGE : Z := 32767.
Definition DASH_LARGE_NEGATIVE : Z := -32768.
Definition DASH_ZERO : Z := 0.
Definition DASH_SMALL : Z := 255.

Definition _TENTHS : Decimal := D 1 (-1).
Definition _HUNDREDTHS : Decimal := D 1 (-2).
Definition _THOUSANDTHS : Decimal := D 1 (-3).
Definition _INCHES_PER_CENTIMETER : Decimal := D 393701 (-6).

(** The callables of the attribute maps: [int], [decimal.Decimal], the three
    scalings and the [WindDirection] class. *)
Inductive transform : Type :=
| STRAIGHT_NUMBER | STRAIGHT_DECIMAL | TENTHS | HUNDREDTHS | THOUSANDTHS
| WIND_DIRECTION.

(** [f(v)] for a transform [f].  On a byte string every transform is given as
    ValueError: byte-string fields ('3s', 'c') only occur at verification
    indices, to which no transform is ever applied. *)
Definition apply_transform (f : transform) (v : raw) : result value :=
  match v with
  | RBytes _ => Raise ValueError
  | RInt x =>
      match f with
      | STRAIGHT_NUMBER => Ok (VInt x)
      | STRAIGHT_DECIMAL => Ok (VDecimal (Dec.of_int x))
      | TENTHS => Ok (VDecimal (Dec.mul (Dec.of_int x) _TENTHS))
      | HUNDREDTHS => Ok (VDecimal (Dec.mul (Dec.of_int x) _HUNDREDTHS))
      | THOUSANDTHS => Ok (VDecimal (Dec.mul (Dec.of_int x) _THOUSANDTHS))
      | WIND_DIRECTION => w ← WindDirection.of_value x; Ok (VWindDirection w)
      end
  end.

(** [clicks_to_inches] of each rain collector type. *)
Definition serial_clicks_to_inches
    (r : RainCollectorTypeSerial.t) (c : Z) : Decimal :=
  let c := Dec.of_int c in
  match r with
  | RainCollectorTypeSerial.inches_0_01 => Dec.mul c _HUNDREDTHS
  | RainCollectorTypeSerial.millimeters_0_2 =>
      Dec.mul (Dec.mul (Dec.mul c _HUNDREDTHS) _INCHES_PER_CENTIMETER)
        (Dec.of_int 2)
  | RainCollectorTypeSerial.millimeters_0_1 =>
      Dec.mul (Dec.mul c _HUNDREDTHS) _INCHES_PER_CENTIMETER
  end.

Definition database_clicks_to_inches
    (r : RainCollectorTypeDatabase.t) (c : Z) : Decimal :=
  let c := Dec.of_int c in
  match r with
  | RainCollectorTypeDatabase.inches_0_1 => Dec.mul _TENTHS c
  | RainCollectorTypeDatabase.inches_0_01 => Dec.mul _HUNDREDTHS c
  | RainCollectorTypeDatabase.millimeters_0_2 =>
      Dec.mul (Dec.mul (Dec.mul _HUNDREDTHS _INCHES_PER_CENTIMETER) c)
        (Dec.of_int 2)
  | RainCollectorTypeDatabase.millimeters_1_0 =>
      Dec.mul (Dec.mul _TENTHS _INCHES_PER_CENTIMETER) c
  | RainCollectorTypeDatabase.millimeters_0_1 =>
      Dec.mul (Dec.mul _HUNDREDTHS _INCHES_PER_CENTIMETER) c
  end.

(** ** The generic part of the record decoders *)

(** An attribute-map entry [(name, transform, sentinel)]. *)
Abbreviation attribute := (string * transform * option Z)%type.

(** [v == sentinel], for an unpacked field and an attribute's third item. *)
Definition is_sentinel (v : raw) (s : option Z) : bool :=
  match v, s with
  | RInt x, Some y => x =? y
  | _, _ => false
  end.

(** The value the field loop stores for one unpacked field. *)
Definition field_value (f : transform) (s : option Z) (v : raw) : result value :=
  if is_sentinel v s then Ok VNone else apply_transform f v.

(** The verification loop: the first entry (in dict order) whose unpacked
    value differs raises AssertionError. *)
Fixpoint verify (vmap : list (nat * raw)) (arguments : list raw) : result unit :=
  match vmap with
  | [] => Ok tt
  | (k, v) :: vmap' =>
      match arguments !! k with
      | None => Raise IndexError
      | Some a =>
          if decide (a = v) then verify vmap' arguments
          else Raise (AssertionError a v)
      end
  end.

(** [for i, v in enumerate(arguments): if <keep i>: ...]: the loop shared by
    the four decoders, started at index [i] with the dict [kwargs]. *)
Fixpoint decode_fields (amap : list attribute) (keep : nat -> bool)
    (i : nat) (arguments : list raw) (kwargs : gmap string value)
  : result (gmap string value) :=
  match arguments with
  | [] => Ok kwargs
  | v :: rest =>
      if keep i then
        match amap !! i with
        | None => Raise IndexError
        | Some (k, f, s) =>
            x ← field_value f s v;
            decode_fields amap keep (S i) rest (<[k := x]> kwargs)
        end
      else decode_fields amap keep (S i) rest kwargs
  end.

(** [record[k]]. *)
Definition getitem (record : gmap string value) (k : string) : result value :=
  match record !! k with
  | Some v => Ok v
  | None => Raise KeyError
  end.

Definition arg_int (arguments : list raw) (i : nat) : result Z :=
  match arguments !! i with
  | Some (RInt x) => Ok x
  | Some (RBytes _) => Raise TypeError
  | None => Raise IndexError
  end.

(** ** DailySummary *)

Module DailySummary.

Definition DAILY_SUMMARY_FORMAT : Struct.format :=
  [
    (1%nat, Struct.int8); (1%nat, Struct.pad); (1%nat, Struct.int16); (2%nat, Struct.int16); (2%nat, Struct.int16); (1%nat, Struct.int16);
    (1%nat, Struct.int16); (2%nat, Struct.int16); (2%nat, Struct.int16); (1%nat, Struct.int16); (1%nat, Struct.int16); (2%nat, Struct.int16);
    (2%nat, Struct.int16); (1%nat, Struct.int16); (2%nat, Struct.int16); (1%nat, Struct.int16); (1%nat, Struct.int16); (1%nat, Struct.int16);
    (1%nat, Struct.int16); (1%nat, Struct.int16); (1%nat, Struct.int8); (1%nat, Struct.int8); (1%nat, Struct.int16); (1%nat, Struct.int16);
    (2%nat, Struct.pad); (1%nat, Struct.pad); (27%nat, Struct.pad); (1%nat, Struct.int8); (1%nat, Struct.pad); (2%nat, Struct.pad);
    (1%nat, Struct.int16); (8%nat, Struct.pad); (2%nat, Struct.int16); (1%nat, Struct.int16); (4%nat, Struct.pad); (2%nat, Struct.int16);
    (1%nat, Struct.int16); (2%nat, Struct.int16); (1%nat, Struct.int16); (24%nat, Struct.pad); (15%nat, Struct.pad); (1%nat, Struct.int16);
    (11%nat, Struct.pad)
  ].

Definition DAILY_SUMMARY_LENGTH : nat := 88 * 2.

Definition DAILY_SUMMARY_VERIFICATION_MAP : list (nat * raw) :=
  [(0%nat, RInt 2); (30%nat, RInt 3)].

Definition DAILY_SUMMARY_ATTRIBUTE_MAP : list attribute :=
  [
    ("ds1_version", STRAIGHT_NUMBER, None);
    ("minutes", STRAIGHT_NUMBER, None);
    ("temperature_outside_high", TENTHS, Some DASH_LARGE_NEGATIVE);
    ("temperature_outside_low", TENTHS, Some DASH_LARGE);
    ("temperature_inside_high", TENTHS, Some DASH_LARGE_NEGATIVE);
    ("temperature_inside_low", TENTHS, Some DASH_LARGE);
    ("temperature_outside_average", TENTHS, Some DASH_LARGE);
    ("temperature_inside_average", TENTHS, Some DASH_LARGE);
    ("wind_chill_high", TENTHS, Some DASH_LARGE_NEGATIVE);
    ("wind_chill_low", TENTHS, Some DASH_LARGE);
    ("dew_point_high", TENTHS, Some DASH_LARGE_NEGATIVE);
    ("dew_point_low", TENTHS, Some DASH_LARGE);
    ("wind_chill_average", TENTHS, Some DASH_LARGE);
    ("dew_point_average", TENTHS, Some DASH_LARGE);
    ("humidity_outside_high", TENTHS, Some DASH_SMALL);
    ("humidity_outside_low", TENTHS, Some DASH_SMALL);
    ("humidity_inside_high", TENTHS, Some DASH_SMALL);
    ("humidity_inside_low", TENTHS, Some DASH_SMALL);
    ("humidity_outside_average", TENTHS, Some DASH_SMALL);
    ("barometric_pressure_high", THOUSANDTHS, Some DASH_ZERO);
    ("barometric_pressure_low", THOUSANDTHS, Some DASH_ZERO);
    ("barometric_pressure_average", THOUSANDTHS, Some DASH_ZERO);
    ("wind_speed_high", TENTHS, Some DASH_ZERO);
    ("wind_speed_average", TENTHS, Some DASH_ZERO);
    ("wind_daily_run", TENTHS, Some DASH_ZERO);
    ("wind_speed_high_10_minute_average", TENTHS, Some DASH_LARGE_NEGATIVE);
    ("wind_speed_high_direction", WIND_DIRECTION, Some DASH_SMALL);
    ("wind_speed_high_10_minute_average_direction", WIND_DIRECTION, Some DASH_SMALL);
    ("rain_total", THOUSANDTHS, None);
    ("rain_rate_high", HUNDREDTHS, None);
    ("ds2_version", STRAIGHT_NUMBER, None);
    ("total_wind_packets", STRAIGHT_NUMBER, Some DASH_LARGE_NEGATIVE);
    ("heat_index_high", TENTHS, Some DASH_LARGE_NEGATIVE);
    ("heat_index_low", TENTHS, Some DASH_LARGE);
    ("heat_index_average", TENTHS, Some DASH_LARGE);
    ("thw_index_high", TENTHS, Some DASH_LARGE_NEGATIVE);
    ("thw_index_low", TENTHS, Some DASH_LARGE);
    ("integrated_heating_degree_days", TENTHS, Some DASH_ZERO);
    ("temperature_wet_bulb_high", TENTHS, Some DASH_LARGE_NEGATIVE);
    ("temperature_wet_bulb_low", TENTHS, Some DASH_LARGE);
    ("temperature_wet_bulb_average", TENTHS, Some DASH_LARGE);
    ("integrated_cooling_degree_days", TENTHS, Some DASH_ZERO)
  ].

Definition keep (i : nat) : bool :=
  negb (bool_decide (i ∈ DAILY_SUMMARY_VERIFICATION_MAP.*1)).

Definition load_from_wlk (file_handle : handle) (year month day : Z)
  : result (gmap string value * handle) :=
  let '(buf, file_handle) := read DAILY_SUMMARY_LENGTH file_handle in
  arguments ← Struct.unpack_from DAILY_SUMMARY_FORMAT buf;
  _ ← verify DAILY_SUMMARY_VERIFICATION_MAP arguments;
  kwargs ← decode_fields DAILY_SUMMARY_ATTRIBUTE_MAP keep 0 arguments ∅;
  if Calendar.valid_date year month day
  then Ok (<["date" := VDate year month day]> kwargs, file_handle)
  else Raise ValueError.

End DailySummary.

(** ** ArchiveIntervalRecord *)

Module ArchiveIntervalRecord.

Definition RECORD_FORMAT_WLK : Struct.format :=
  [
    (1%nat, Struct.int8); (1%nat, Struct.int8); (2%nat, Struct.pad); (1%nat, Struct.int16); (1%nat, Struct.int16); (1%nat, Struct.int16);
    (1%nat, Struct.int16); (1%nat, Struct.int16); (1%nat, Struct.int16); (1%nat, Struct.int16); (1%nat, Struct.int16); (1%nat, Struct.uint16);
    (1%nat, Struct.int16); (1%nat, Struct.int16); (1%nat, Struct.int16); (1%nat, Struct.int8); (1%nat, Struct.int8); (1%nat, Struct.int16);
    (1%nat, Struct.int16); (1%nat, Struct.int16); (1%nat, Struct.uint8); (1%nat, Struct.uint8); (50%nat, Struct.pad)
  ].

Definition RECORD_FORMAT_DOWNLOAD : Struct.format :=
  [
    (1%nat, Struct.int16); (1%nat, Struct.int16); (1%nat, Struct.int16); (1%nat, Struct.int16); (1%nat, Struct.int16); (1%nat, Struct.uint16);
    (1%nat, Struct.uint16); (1%nat, Struct.uint16); (1%nat, Struct.int16); (1%nat, Struct.uint16); (1%nat, Struct.int16); (1%nat, Struct.uint8);
    (1%nat, Struct.uint8); (1%nat, Struct.uint8); (1%nat, Struct.uint8); (1%nat, Struct.uint8); (1%nat, Struct.uint8); (1%nat, Struct.uint8);
    (1%nat, Struct.uint8); (1%nat, Struct.int16); (1%nat, Struct.uint8); (9%nat, Struct.pad); (1%nat, Struct.uint8); (9%nat, Struct.pad)
  ].

Definition RECORD_LENGTH_WLK : nat := 88.
Definition RECORD_LENGTH_DOWNLOAD : nat := 52.

Definition RECORD_VERIFICATION_MAP_WLK : list (nat * raw) :=
  [(0%nat, RInt 1)].
Definition RECORD_VERIFICATION_MAP_DOWNLOAD : list (nat * raw) :=
  [(21%nat, RInt 0)].

Definition RECORD_SPECIAL_HANDLING_WLK : gset nat :=
  {[ 10%nat; 11%nat ]}.
Definition RECORD_SPECIAL_HANDLING_DOWNLOAD : gset nat :=
  {[ 0%nat; 1%nat; 5%nat; 6%nat ]}.

Definition RECORD_ATTRIBUTE_MAP_WLK : list attribute :=
  [
    ("record_version", STRAIGHT_NUMBER, None);
    ("minutes_covered", STRAIGHT_NUMBER, None);
    ("minutes_past_midnight", STRAIGHT_NUMBER, None);
    ("temperature_outside", TENTHS, Some DASH_LARGE);
    ("temperature_outside_high", TENTHS, Some DASH_LARGE_NEGATIVE);
    ("temperature_outside_low", TENTHS, Some DASH_LARGE);
    ("temperature_inside", TENTHS, Some DASH_LARGE);
    ("barometric_pressure", THOUSANDTHS, Some DASH_ZERO);
    ("humidity_outside", TENTHS, Some DASH_SMALL);
    ("humidity_inside", TENTHS, Some DASH_SMALL);
    ("__special", STRAIGHT_NUMBER, None);
    ("__special", STRAIGHT_NUMBER, None);
    ("wind_speed", TENTHS, Some DASH_SMALL);
    ("wind_speed_high", TENTHS, Some DASH_ZERO);
    ("wind_direction_prevailing", WIND_DIRECTION, Some DASH_SMALL);
    ("wind_direction_speed_high", WIND_DIRECTION, Some DASH_SMALL);
    ("number_of_wind_samples", STRAIGHT_NUMBER, Some DASH_ZERO);
    ("solar_radiation", STRAIGHT_NUMBER, Some DASH_LARGE_NEGATIVE);
    ("solar_radiation_high", STRAIGHT_NUMBER, Some DASH_LARGE_NEGATIVE);
    ("uv_index", TENTHS, Some DASH_SMALL);
    ("uv_index_high", TENTHS, Some DASH_SMALL)
  ].

Definition RECORD_ATTRIBUTE_MAP_DOWNLOAD : list attribute :=
  [
    ("__special", STRAIGHT_NUMBER, None);
    ("__special", STRAIGHT_NUMBER, None);
    ("temperature_outside", TENTHS, Some DASH_LARGE);
    ("temperature_outside_high", TENTHS, Some DASH_LARGE_NEGATIVE);
    ("temperature_outside_low", TENTHS, Some DASH_LARGE);
    ("__special", STRAIGHT_NUMBER, None);
    ("__special", STRAIGHT_NUMBER, None);
    ("barometric_pressure", THOUSANDTHS, Some DASH_ZERO);
    ("solar_radiation", STRAIGHT_NUMBER, Some DASH_LARGE);
    ("number_of_wind_samples", STRAIGHT_NUMBER, Some DASH_ZERO);
    ("temperature_inside", TENTHS, Some DASH_LARGE);
    ("humidity_inside", STRAIGHT_NUMBER, Some DASH_SMALL);
    ("humidity_outside", STRAIGHT_NUMBER, Some DASH_SMALL);
    ("wind_speed", STRAIGHT_DECIMAL, Some DASH_SMALL);
    ("wind_speed_high", STRAIGHT_DECIMAL, Some DASH_ZERO);
    ("wind_direction_speed_high", WIND_DIRECTION, Some DASH_SMALL);
    ("wind_direction_prevailing", WIND_DIRECTION, Some DASH_SMALL);
    ("uv_index", TENTHS, Some DASH_SMALL);
    ("evapotranspiration", THOUSANDTHS, Some DASH_ZERO);
    ("solar_radiation_high", STRAIGHT_NUMBER, Some DASH_LARGE);
    ("uv_index_high", TENTHS, Some DASH_SMALL);
    ("record_version", STRAIGHT_NUMBER, None)
  ].

Definition RECORD_WIND_DIRECTION_SPECIAL : list (string * string) :=
  [("wind_direction_prevailing", "wind_direction_prevailing_degrees");
   ("wind_direction_speed_high", "wind_direction_speed_high_degrees")].

Definition keep_wlk (i : nat) : bool :=
  negb (bool_decide (i ∈ RECORD_VERIFICATION_MAP_WLK.*1))
  && negb (bool_decide (i ∈ RECORD_SPECIAL_HANDLING_WLK)).

Definition keep_download (i : nat) : bool :=
  negb (bool_decide (i ∈ RECORD_VERIFICATION_MAP_DOWNLOAD.*1))
  && negb (bool_decide (i ∈ RECORD_SPECIAL_HANDLING_DOWNLOAD)).

(** [for k1, k2 in RECORD_WIND_DIRECTION_SPECIAL: ...]. *)
Fixpoint wind_direction_special (pairs : list (string * string))
    (record : gmap string value) : result (gmap string value) :=
  match pairs with
  | [] => Ok record
  | (k1, k2) :: pairs' =>
      v ← getitem record k1;
      d ← (if truthy v
           then match v with
                | VWindDirection w => Ok (VFloat (WindDirection.degrees w))
                | _ => Raise AttributeError
                end
           else Ok VNone);
      wind_direction_special pairs' (<[k2 := d]> record)
  end.

Definition load_from_wlk (file_handle : handle) (year month day : Z)
  : result (gmap string value * handle) :=
  let '(buf, file_handle) := read RECORD_LENGTH_WLK file_handle in
  arguments ← Struct.unpack_from RECORD_FORMAT_WLK buf;
  _ ← verify RECORD_VERIFICATION_MAP_WLK arguments;
  record ← decode_fields RECORD_ATTRIBUTE_MAP_WLK keep_wlk 0 arguments ∅;
  rain_code ← arg_int arguments 10;
  let rain_collector_type := Z.land rain_code 0xF000 in
  let rain_clicks := Z.land rain_code 0x0FFF in
  rain_rate_clicks ← arg_int arguments 11;
  rct ← RainCollectorTypeDatabase.of_value rain_collector_type;
  let record := <["rain_collector_type" := VRainDatabase rct]> record in
  let record := <["rain_amount_clicks" := VInt rain_clicks]> record in
  let record := <["rain_rate_clicks" := VInt rain_rate_clicks]> record in
  let record :=
    <["rain_amount" := VDecimal (database_clicks_to_inches rct rain_clicks)]>
      record in
  let record :=
    <["rain_rate" :=
        VDecimal (database_clicks_to_inches rct rain_rate_clicks)]> record in
  record ← wind_direction_special RECORD_WIND_DIRECTION_SPECIAL record;
  midnight ← Calendar.make year month day 0 0;
  mpm ← getitem record "minutes_past_midnight";
  date ← match mpm with
         | VInt m => Calendar.add_minutes midnight m
         | _ => Raise TypeError
         end;
  let record := <["date" := VDatetime date]> record in
  let record :=
    <["timestamp" :=
        VInt (convert_datetime_to_timestamp (ArgDatetime date))]> record in
  Ok (record, file_handle).

(** [None] is the soft skip of a record whose date stamp is below 1. *)
Definition load_from_download (response_handle : handle)
    (minutes_covered : value)
  : result (option (gmap string value) * handle) :=
  let '(buf, response_handle) := read RECORD_LENGTH_DOWNLOAD response_handle in
  arguments ← Struct.unpack_from RECORD_FORMAT_DOWNLOAD buf;
  a0 ← arg_int arguments 0;
  if a0 <? 1 then Ok (None, response_handle)
  else
    _ ← verify RECORD_VERIFICATION_MAP_DOWNLOAD arguments;
    record ← decode_fields RECORD_ATTRIBUTE_MAP_DOWNLOAD keep_download 0
               arguments ∅;
    let record := <["minutes_covered" := minutes_covered]> record in
    rain_clicks ← arg_int arguments 5;
    rain_rate_clicks ← arg_int arguments 6;
    let rct := RainCollectorTypeSerial.inches_0_01 in
    let record := <["rain_collector_type" := VRainSerial rct]> record in
    let record := <["rain_amount_clicks" := VInt rain_clicks]> record in
    let record := <["rain_rate_clicks" := VInt rain_rate_clicks]> record in
    let record :=
      <["rain_amount" := VDecimal (serial_clicks_to_inches rct rain_clicks)]>
        record in
    let record :=
      <["rain_rate" :=
          VDecimal (serial_clicks_to_inches rct rain_rate_clicks)]> record in
    record ← wind_direction_special RECORD_WIND_DIRECTION_SPECIAL record;
    a1 ← arg_int arguments 1;
    let timestamp := Z.shiftl a0 16 + a1 in
    let record := <["timestamp" := VInt timestamp]> record in
    date ← convert_timestamp_to_datetime timestamp;
    let record := <["date" := VDatetime date]> record in
    Ok (Some record, response_handle).

End ArchiveIntervalRecord.

(** ** LoopRecord *)

Module LoopRecord.

Definition RECORD_LENGTH : nat := 99.

Definition LOOP2_RECORD_FORMAT : Struct.format :=
  [
    (3%nat, Struct.chars); (1%nat, Struct.int8); (1%nat, Struct.uint8); (1%nat, Struct.uint16); (1%nat, Struct.uint16); (1%nat, Struct.int16);
    (1%nat, Struct.uint8); (1%nat, Struct.int16); (1%nat, Struct.uint8); (1%nat, Struct.uint8); (1%nat, Struct.uint16); (1%nat, Struct.uint16);
    (1%nat, Struct.uint16); (1%nat, Struct.uint16); (1%nat, Struct.uint16); (1%nat, Struct.uint16); (1%nat, Struct.uint16); (1%nat, Struct.int16);
    (1%nat, Struct.uint8); (1%nat, Struct.uint8); (1%nat, Struct.uint8); (1%nat, Struct.int16); (1%nat, Struct.int16); (1%nat, Struct.int16);
    (1%nat, Struct.uint16); (1%nat, Struct.uint8); (1%nat, Struct.uint16); (1%nat, Struct.uint16); (2%nat, Struct.pad); (1%nat, Struct.uint16);
    (1%nat, Struct.uint16); (1%nat, Struct.uint16); (1%nat, Struct.uint16); (1%nat, Struct.uint16); (11%nat, Struct.pad); (1%nat, Struct.uint8);
    (1%nat, Struct.pad); (6%nat, Struct.pad); (1%nat, Struct.uint8); (3%nat, Struct.pad); (1%nat, Struct.uint16); (1%nat, Struct.uint16);
    (1%nat, Struct.uint16); (1%nat, Struct.uint16); (1%nat, Struct.uint16); (1%nat, Struct.uint16); (1%nat, Struct.char); (1%nat, Struct.char);
    (1%nat, Struct.uint16)
  ].

Definition LOOP2_RECORD_VERIFICATION_MAP_WLK : list (nat * raw) :=
  [(0%nat, RBytes [x4c; x4f; x4f]);   (* b'LOO' *)
   (2%nat, RInt 1);
   (3%nat, RInt 0x7FFF);
   (9%nat, RInt 0xFF);
   (15%nat, RInt 0x7FFF);
   (16%nat, RInt 0x7FFF);
   (18%nat, RInt 0xFF);
   (20%nat, RInt 0xFF);
   (33%nat, RInt 0xFF);
   (35%nat, RInt 0x7FFF);
   (36%nat, RInt 0x7FFF);
   (37%nat, RInt 0x7FFF);
   (38%nat, RInt 0x7FFF);
   (39%nat, RInt 0x7FFF);
   (40%nat, RInt 0x7FFF);
   (41%nat, RBytes [x0a]);            (* b'\n' *)
   (42%nat, RBytes [x0d])].           (* b'\r' *)

Definition LOOP2_RECORD_SPECIAL_HANDLING : gset nat :=
  list_to_set (LOOP2_RECORD_VERIFICATION_MAP_WLK.*1).

Definition LOOP2_RECORD_ATTRIBUTE_MAP : list attribute :=
  [
    ("_special", STRAIGHT_NUMBER, None);
    ("barometric_trend", STRAIGHT_NUMBER, Some 80);
    ("_special", STRAIGHT_NUMBER, None);
    ("_special", STRAIGHT_NUMBER, None);
    ("barometric_pressure", THOUSANDTHS, Some DASH_ZERO);
    ("temperature_inside", TENTHS, Some DASH_LARGE);
    ("humidity_inside", STRAIGHT_NUMBER, Some DASH_SMALL);
    ("temperature_outside", TENTHS, Some DASH_LARGE);
    ("wind_speed", STRAIGHT_DECIMAL, Some DASH_SMALL);
    ("_special", STRAIGHT_NUMBER, None);
    ("wind_direction_degrees", STRAIGHT_NUMBER, Some DASH_ZERO);
    ("wind_speed_10_minute_average", TENTHS, Some DASH_ZERO);
    ("wind_speed_2_minute_average", TENTHS, Some DASH_ZERO);
    ("wind_speed_10_minute_gust", TENTHS, Some DASH_ZERO);
    ("wind_speed_10_minute_gust_direction_degrees", STRAIGHT_NUMBER, Some DASH_ZERO);
    ("_special", STRAIGHT_NUMBER, None);
    ("_special", STRAIGHT_NUMBER, None);
    ("dew_point", STRAIGHT_DECIMAL, Some DASH_SMALL);
    ("_special", STRAIGHT_NUMBER, None);
    ("humidity_outside", STRAIGHT_NUMBER, Some DASH_SMALL);
    ("_special", STRAIGHT_NUMBER, None);
    ("heat_index", STRAIGHT_NUMBER, Some DASH_SMALL);
    ("wind_chill", STRAIGHT_NUMBER, Some DASH_SMALL);
    ("thsw_index", STRAIGHT_NUMBER, Some DASH_SMALL);
    ("rain_rate_clicks", STRAIGHT_NUMBER, None);
    ("uv_index", TENTHS, Some DASH_SMALL);
    ("solar_radiation", STRAIGHT_NUMBER, Some DASH_LARGE);
    ("rain_clicks_this_storm", STRAIGHT_NUMBER, None);
    ("rain_clicks_today", STRAIGHT_NUMBER, None);
    ("rain_clicks_15_minutes", STRAIGHT_NUMBER, None);
    ("rain_clicks_1_hour", STRAIGHT_NUMBER, None);
    ("evapotranspiration", THOUSANDTHS, Some DASH_ZERO);
    ("rain_clicks_24_hours", STRAIGHT_NUMBER, None);
    ("_special", STRAIGHT_NUMBER, None);
    ("minute_in_hour", STRAIGHT_NUMBER, Some 60)
  ].

Definition LOOP_WIND_DIRECTION_SPECIAL : list (string * string) :=
  [("wind_direction_degrees", "wind_direction");
   ("wind_speed_10_minute_gust_direction_degrees",
    "wind_speed_10_minute_gust_direction")].

Definition LOOP_RAIN_AMOUNT_SPECIAL : list (string * string) :=
  [("rain_rate_clicks", "rain_rate");
   ("rain_clicks_this_storm", "rain_amount_this_storm");
   ("rain_clicks_today", "rain_amount_today");
   ("rain_clicks_15_minutes", "rain_amount_15_minutes");
   ("rain_clicks_1_hour", "rain_amount_1_hour");
   ("rain_clicks_24_hours", "rain_amount_24_hours")].

Definition keep (i : nat) : bool :=
  (i <? length LOOP2_RECORD_ATTRIBUTE_MAP)%nat
  && negb (bool_decide (i ∈ LOOP2_RECORD_VERIFICATION_MAP_WLK.*1))
  && negb (bool_decide (i ∈ LOOP2_RECORD_SPECIAL_HANDLING)).

(** [try: BarometricTrend(v) except ValueError: None]. *)
Definition barometric_trend_of (v : value) : value :=
  match v with
  | VInt x =>
      match BarometricTrend.of_value x with
      | Ok b => VBarometricTrend b
      | Raise _ => VNone
      end
  | _ => VNone
  end.

Fixpoint loop_wind_direction_special (pairs : list (string * string))
    (arguments : gmap string value) : result (gmap string value) :=
  match pairs with
  | [] => Ok arguments
  | (k1, k2) :: pairs' =>
      v ← getitem arguments k1;
      d ← (if truthy v
           then match v with
                | VInt x =>
                    w ← WindDirection.from_degrees_int x;
                    Ok (from_option VWindDirection VNone w)
                | _ => Raise TypeError
                end
           else Ok VNone);
      loop_wind_direction_special pairs' (<[k2 := d]> arguments)
  end.

Fixpoint loop_rain_amount_special (pairs : list (string * string))
    (arguments : gmap string value) : result (gmap string value) :=
  match pairs with
  | [] => Ok arguments
  | (k1, k2) :: pairs' =>
      v ← getitem arguments k1;
      d ← (if truthy v
           then match v with
                | VInt x =>
                    Ok (VDecimal (serial_clicks_to_inches
                                    RainCollectorTypeSerial.inches_0_01 x))
                | _ => Raise TypeError
                end
           else Ok VNone);
      loop_rain_amount_special pairs' (<[k2 := d]> arguments)
  end.

Definition _post_process_arguments (arguments : gmap string value)
  : result (gmap string value) :=
  bt ← getitem arguments "barometric_trend";
  let arguments :=
    <["barometric_trend" := barometric_trend_of bt]> arguments in
  arguments ← loop_wind_direction_special LOOP_WIND_DIRECTION_SPECIAL
                arguments;
  loop_rain_amount_special LOOP_RAIN_AMOUNT_SPECIAL arguments.

Definition _get_loop_2_arguments (socket_file : handle)
  : result (gmap string value * handle) :=
  let '(data, socket_file) := read RECORD_LENGTH socket_file in
  unpacked ← Struct.unpack_from LOOP2_RECORD_FORMAT data;
  _ ← verify LOOP2_RECORD_VERIFICATION_MAP_WLK unpacked;
  let arguments : gmap string value :=
    <["record_type" := VInt 2]>
      (<["crc_match" := VBool (calculate_weatherlink_crc data =? 0)]> ∅) in
  arguments ← decode_fields LOOP2_RECORD_ATTRIBUTE_MAP keep 0 unpacked
                arguments;
  arguments ← _post_process_arguments arguments;
  Ok (arguments, socket_file).

Definition load_loop_2_from_connection := _get_loop_2_arguments.

End LoopRecord.

(** ** Derived metrics *)

(** A numeric argument of the metric functions: [None], an [int] or a
    [Decimal].  Where the source requires a number (the temperatures), an
    [int] [n] is passed as [Decimal(n)], which is what every arithmetic
    operator and comparison of [Decimal] turns it into. *)
Inductive number : Type :=
| NumNone
| NumInt (n : Z)
| NumDecimal (d : Decimal).

Definition ZERO : Decimal := D 0 0.
Definition ONE : Decimal := D 1 0.
Definition TWO : Decimal := D 2 0.
Definition FOUR : Decimal := D 4 0.
Definition FIVE : Decimal := D 5 0.
Definition TEN : Decimal := D 10 0.
Definition ONE_TENTH : Decimal := D 1 (-1).
Definition HI_0_094 : Decimal := D 94 (-3).
Definition HI_0_5 : Decimal := D 5 (-1).
Definition HI_1_2 : Decimal := D 12 (-1).
Definition HI_61_0 : Decimal := D 610 (-1).
Definition HI_68_0 : Decimal := D 680 (-1).
Definition HI_C1 : Decimal := D (-42379) (-3).
Definition HI_C2 : Decimal := D 204901523 (-8).
Definition HI_C3 : Decimal := D 1014333127 (-8).
Definition HI_C4 : Decimal := D (-22475541) (-8).
Definition HI_C5 : Decimal := D (-683783) (-8).
Definition HI_C6 : Decimal := D (-5481717) (-8).
Definition HI_C7 : Decimal := D 122874 (-8).
Definition HI_C8 : Decimal := D 85282 (-8).
Definition HI_C9 : Decimal := D (-199) (-8).
Definition HI_13 : Decimal := D 13 0.
Definition HI_17 : Decimal := D 17 0.
Definition HI_95 : Decimal := D 95 0.
Definition HI_85 : Decimal := D 85 0.
Definition HI_87 : Decimal := D 87 0.
Definition WC_C1 : Decimal := D 3574 (-2).
Definition WC_C2 : Decimal := D 6215 (-4).
Definition WC_C3 : Decimal := D 3575 (-2).
Definition WC_C4 : Decimal := D 4275 (-4).
Definition WC_V_EXP : Decimal := D 16 (-2).
Definition HEAT_INDEX_THRESHOLD : Decimal := D 700 (-1).
Definition WIND_CHILL_THRESHOLD : Decimal := D 400 (-1).
Definition DEGREE_DAYS_THRESHOLD : Decimal := D 650 (-1).
Definition HI_SECOND_FORMULA_THRESHOLD : Decimal := D 800 (-1).
Definition HI_FIRST_ADJUSTMENT_THRESHOLD : Decimal * Decimal * Decimal :=
  (D 800 (-1), D 1120 (-1), D 130 (-1)).
Definition HI_SECOND_ADJUSTMENT_THRESHOLD : Decimal * Decimal * Decimal :=
  (D 800 (-1), D 870 (-1), D 850 (-1)).

(** [value if isinstance(value, Decimal) else Decimal(value or '0')]. *)
Definition _as_decimal (value : number) : Decimal :=
  match value with
  | NumDecimal d => d
  | NumInt n => Dec.of_int n
  | NumNone => D 0 0
  end.

Declare Scope dec_scope.
Delimit Scope dec_scope with dec.
Infix "+" := Dec.add : dec_scope.
Infix "-" := Dec.sub : dec_scope.
Infix "*" := Dec.mul : dec_scope.
Infix "<?" := Dec.ltb : dec_scope.
Infix "<=?" := Dec.leb : dec_scope.
Infix ">?" := Dec.gtb : dec_scope.

(** [max(d, -d)]: the second argument only when it is strictly greater. *)
Definition _abs (d : Decimal) : Decimal :=
  let nd := Dec.neg d in if (nd >? d)%dec then nd else d.

Section HeatIndex.
Local Open Scope dec_scope.

(** The NOAA simplified formula, averaged with the temperature. *)
Definition heat_index_average (T RH : Decimal) : result Decimal :=
  let heat_index :=
    HI_0_5 * (T + HI_61_0 + ((T - HI_68_0) * HI_1_2) + (RH * HI_0_094)) in
  Dec.div (heat_index + T) TWO.

(** The NOAA regression. *)
Definition heat_index_regression (T RH : Decimal) : Decimal :=
  HI_C1 + (HI_C2 * T) + (HI_C3 * RH) + (HI_C4 * T * RH) + (HI_C5 * T * T) +
  (HI_C6 * RH * RH) + (HI_C7 * T * T * RH) + (HI_C8 * T * RH * RH) +
  (HI_C9 * T * T * RH * RH).

(** The regression with its two gated corrections. *)
Definition heat_index_adjusted (T RH : Decimal) : result Decimal :=
  let heat_index := heat_index_regression T RH in
  if (HI_FIRST_ADJUSTMENT_THRESHOLD.1.1 <=? T)
     && (T <=? HI_FIRST_ADJUSTMENT_THRESHOLD.1.2)
     && (RH <? HI_FIRST_ADJUSTMENT_THRESHOLD.2)
  then
    a ← Dec.div (HI_13 - RH) FOUR;
    b ← Dec.div (HI_17 - _abs (T - HI_95)) HI_17;
    c ← Dec.sqrt b;
    Ok (heat_index - a * c)
  else if (HI_SECOND_ADJUSTMENT_THRESHOLD.1.1 <=? T)
          && (T <=? HI_SECOND_ADJUSTMENT_THRESHOLD.1.2)
          && (RH >? HI_SECOND_ADJUSTMENT_THRESHOLD.2)
  then
    a ← Dec.div (RH - HI_85) TEN;
    b ← Dec.div (HI_87 - T) FIVE;
    Ok (heat_index + a * b)
  else Ok heat_index.

Definition calculate_heat_index (temperature : Decimal)
    (relative_humidity : number) : result (option Decimal) :=
  if temperature <? HEAT_INDEX_THRESHOLD then Ok None
  else
    let T := temperature in
    let RH := _as_decimal relative_humidity in
    heat_index ← heat_index_average T RH;
    if heat_index <? HI_SECOND_FORMULA_THRESHOLD
    then
      r ← Dec.quantize Dec.ROUND_CEILING heat_index (Dec.dexp ONE_TENTH);
      Ok (Some r)
    else
      heat_index ← heat_index_adjusted T RH;
      r ← Dec.quantize Dec.ROUND_CEILING heat_index (Dec.dexp ONE_TENTH);
      Ok (Some r).

End HeatIndex.

Section WindChill.
Local Open Scope dec_scope.

(** [x ** y] of [Decimal] ([Decimal.__pow__]) for a non-integral exponent:
    a library routine computed from [exp] and [ln]; it is a parameter of
    the model.  It raises InvalidOperation for a negative base. *)
Variable power : Decimal -> Decimal -> result Decimal.

(** The NOAA wind-chill regression for [V = WS ** 0.16]. *)
Definition wind_chill_regression (T V : Decimal) : Decimal :=
  WC_C1 + (WC_C2 * T) - (WC_C3 * V) + (WC_C4 * T * V).

Definition calculate_wind_chill (temperature : Decimal) (wind_speed : number)
  : result (option Decimal) :=
  if temperature >? WIND_CHILL_THRESHOLD then Ok None
  else
    let T := temperature in
    let WS := _as_decimal wind_speed in
    if Dec.eqb WS ZERO then Ok (Some T)
    else
      V ← power WS WC_V_EXP;
      wind_chill ← Dec.quantize Dec.ROUND_FLOOR (wind_chill_regression T V)
                     (Dec.dexp ONE_TENTH);
      Ok (Some (if wind_chill >? T then T else wind_chill)).

End WindChill.

(** [minutes_covered]: an [int] or a [Decimal] (sample rates below a minute). *)
Inductive minutes : Type :=
| MinutesInt (n : Z)
| MinutesDecimal (d : Decimal).

(** [int(minutes_covered)]. *)
Definition int_of_minutes (m : minutes) : Z :=
  match m with
  | MinutesInt n => n
  | MinutesDecimal d => Dec.to_int d
  end.

(** One wind sample:
    [(wind_speed, wind_direction, timestamp_station, minutes_covered)]; the
    result tuple of [calculate_10_minute_wind_average]. *)
Abbreviation sample direction timestamp :=
  (number * direction * timestamp * minutes)%type (only parsing).
Abbreviation wind_average direction timestamp :=
  (option Decimal * option direction * option timestamp * option timestamp)%type
  (only parsing).

Section WindAverage.

(** Wind directions are any hashable values; the function only groups and
    returns them.  Time stamps are [datetime.datetime] values:
    [timestamp_station - timedelta(minutes=i)] is [Calendar.add_minutes]
    with [- i], which raises OverflowError before year 1. *)
Context {direction : Type} `{EqDecision direction}.

(** [collections.deque(maxlen=10).extend(xs)]. *)
Definition deque_extend {A} (q xs : list A) : list A :=
  let l := q ++ xs in drop (length l - 10) l.

(** [sum(speed_queue)]: addition from the integer 0, left to right. *)
Definition sum_decimals (q : list Decimal) : Decimal :=
  fold_left Dec.add q (Dec.of_int 0).

(** [collections.Counter(l).most_common()[0][0]]: the most frequent
    element, the first encountered among equally frequent ones. *)
Definition count (x : direction) (l : list direction) : nat :=
  length (filter (fun y => y = x) l).

Definition most_common (l : list direction) : option direction :=
  match l with
  | [] => None
  | x :: _ =>
      Some (fold_left
              (fun best y => if (count best l <? count y l)%nat then y else best)
              l x)
  end.

Record wind_state : Type := mkWindState {
  speed_queue : list Decimal;
  direction_queue : list direction;
  timestamp_queue : list datetime;
  current_max : Decimal;
  current_direction_list : list direction;
  current_timestamp_list : list datetime
}.

Definition initial_wind_state : wind_state :=
  mkWindState [] [] [] ZERO [] [].

(** [range(minutes_covered - 1, -1, -1)]. *)
Definition range_down (n : Z) : list Z :=
  map (fun i => n - 1 - Z.of_nat i) (seq 0 (Z.to_nat n)).

(** [[timestamp_station - datetime.timedelta(minutes=i) for i in ...]]:
    the subtractions in list order, the first that raises ends the
    comprehension. *)
Fixpoint minutes_before (timestamp_station : datetime) (l : list Z)
  : result (list datetime) :=
  match l with
  | [] => Ok []
  | i :: l' =>
      t ← Calendar.add_minutes timestamp_station (- i);
      ts ← minutes_before timestamp_station l';
      Ok (t :: ts)
  end.

(** The body of the [for] loop; [None] is the early
    [return None, None, None, None]. *)
Definition wind_step (st : wind_state) (r : sample direction datetime)
  : result (option wind_state) :=
  let '(wind_speed, wind_speed_direction, timestamp_station, mc) := r in
  let minutes_covered := int_of_minutes mc in
  if 10 <? minutes_covered then Ok None
  else
    let wind_speed := _as_decimal wind_speed in
    let n := Z.to_nat minutes_covered in
    let sq := deque_extend (speed_queue st) (replicate n wind_speed) in
    let dq :=
      deque_extend (direction_queue st) (replicate n wind_speed_direction) in
    tq ← (if minutes_covered =? 1
          then Ok (deque_extend (timestamp_queue st) [timestamp_station])
          else
            stamps ← minutes_before timestamp_station
                       (range_down minutes_covered);
            Ok (deque_extend (timestamp_queue st) stamps));
    if (length sq =? 10)%nat
    then
      average ← Dec.div (sum_decimals sq) (Dec.of_int 10);
      if (average >? current_max st)%dec
      then Ok (Some (mkWindState sq dq tq average dq tq))
      else Ok (Some (mkWindState sq dq tq (current_max st)
                       (current_direction_list st)
                       (current_timestamp_list st)))
    else Ok (Some (mkWindState sq dq tq (current_max st)
                     (current_direction_list st)
                     (current_timestamp_list st))).

Fixpoint wind_loop (records : list (sample direction datetime))
    (st : wind_state)
  : result (option wind_state) :=
  match records with
  | [] => Ok (Some st)
  | r :: records' =>
      o ← wind_step st r;
      match o with
      | None => Ok None
      | Some st' => wind_loop records' st'
      end
  end.


Definition all_absent : wind_average direction datetime :=
  (None, None, None, None).

Definition calculate_10_minute_wind_average
    (records : list (sample direction datetime))
  : result (wind_average direction datetime) :=
  o ← wind_loop records initial_wind_state;
  match o with
  | None => Ok all_absent
  | Some st =>
      if (current_max st >? ZERO)%dec
      then Ok (Some (current_max st),
               most_common (current_direction_list st),
               head (current_timestamp_list st),
               last (current_timestamp_list st))
      else Ok all_absent
  end.

(** A loop state that has seen only samples without wind. *)
Definition calm (st : wind_state) : Prop :=
  Dec.is_zero (current_max st) = true
  /\ Forall (fun d => Dec.is_zero d = true) (speed_queue st)
  /\ current_direction_list st = []
  /\ current_timestamp_list st = [].

End WindAverage.

(** ** Specification-level definitions *)

(** *** Timestamp codec *)

(** The date-times the packed format can carry: calendar-valid, not before
    2000, and without seconds (the format has no field for them). *)
Definition representable (d : datetime) : Prop :=
  Calendar.valid d = true /\ 2000 <= year d /\ second d = 0 /\ microsecond d = 0.

(** *** Compass enumeration *)

Definition Qc_of_Z (z : Z) : Qc := Q2Qc (inject_Z z).

(** A rational is a whole number when its reduced denominator is 1. *)
Definition is_whole (d : Qc) : Prop := Qden (this d) = 1%positive.

(** *** Checksum *)

Definition crc16 (s : Z) : Prop := 0 <= s < 65536.

Definition crc_table_entry (i : Z) : Z := nth (Z.to_nat i) WEATHERLINK_CRC_TABLE 0.

Definition crc_low_bytes : list Z :=
  List.map (fun x => Z.land x 255) WEATHERLINK_CRC_TABLE.

(** The table index used by one CRC step. *)
Definition crc_index (crc : Z) (b : byte) : Z :=
  Z.lxor (Z.land (Z.shiftr crc 8) 255) (byte_val b).

(** *** Record decoders *)

Inductive record_kind : Type :=
| DailySummaryRecord | StoredIntervalRecord | DownloadIntervalRecord
| TelemetryFrame.

Definition expected_length (k : record_kind) : nat :=
  match k with
  | DailySummaryRecord => DailySummary.DAILY_SUMMARY_LENGTH
  | StoredIntervalRecord => ArchiveIntervalRecord.RECORD_LENGTH_WLK
  | DownloadIntervalRecord => ArchiveIntervalRecord.RECORD_LENGTH_DOWNLOAD
  | TelemetryFrame => LoopRecord.RECORD_LENGTH
  end.

Definition record_format (k : record_kind) : Struct.format :=
  match k with
  | DailySummaryRecord => DailySummary.DAILY_SUMMARY_FORMAT
  | StoredIntervalRecord => ArchiveIntervalRecord.RECORD_FORMAT_WLK
  | DownloadIntervalRecord => ArchiveIntervalRecord.RECORD_FORMAT_DOWNLOAD
  | TelemetryFrame => LoopRecord.LOOP2_RECORD_FORMAT
  end.

Definition attribute_map (k : record_kind) : list attribute :=
  match k with
  | DailySummaryRecord => DailySummary.DAILY_SUMMARY_ATTRIBUTE_MAP
  | StoredIntervalRecord => ArchiveIntervalRecord.RECORD_ATTRIBUTE_MAP_WLK
  | DownloadIntervalRecord => ArchiveIntervalRecord.RECORD_ATTRIBUTE_MAP_DOWNLOAD
  | TelemetryFrame => LoopRecord.LOOP2_RECORD_ATTRIBUTE_MAP
  end.

(** The field loop's own condition: index [i] is neither a verification
    field nor in the special-handling set of the record kind. *)
Definition plain_field (k : record_kind) (i : nat) : bool :=
  match k with
  | DailySummaryRecord => DailySummary.keep i
  | StoredIntervalRecord => ArchiveIntervalRecord.keep_wlk i
  | DownloadIntervalRecord => ArchiveIntervalRecord.keep_download i
  | TelemetryFrame => LoopRecord.keep i
  end.

(** What the caller passes besides the handle: the calendar day (stored
    records) and the archive interval (download records). *)
Record call_context : Type := mkContext {
  ctx_year : Z; ctx_month : Z; ctx_day : Z;
  ctx_minutes_covered : value
}.

(** The decoder entry point of each record kind. *)
Definition decode (k : record_kind) (ctx : call_context) (h : handle)
  : result (option (gmap string value) * handle) :=
  match k with
  | DailySummaryRecord =>
      p ← DailySummary.load_from_wlk h (ctx_year ctx) (ctx_month ctx)
            (ctx_day ctx);
      Ok (Some p.1, p.2)
  | StoredIntervalRecord =>
      p ← ArchiveIntervalRecord.load_from_wlk h (ctx_year ctx) (ctx_month ctx)
            (ctx_day ctx);
      Ok (Some p.1, p.2)
  | DownloadIntervalRecord =>
      ArchiveIntervalRecord.load_from_download h (ctx_minutes_covered ctx)
  | TelemetryFrame =>
      p ← LoopRecord._get_loop_2_arguments h;
      Ok (Some p.1, p.2)
  end.

(** The name of entry [i] of an attribute map. *)
Definition entry_name (amap : list attribute) (i : nat) : string :=
  match amap !! i with Some (k, _, _) => k | None => EmptyString end.

(** The names of the entries selected by [keep] are pairwise distinct. *)
Definition distinct_names (amap : list attribute) (keep : nat -> bool) : bool :=
  forallb (fun j =>
    forallb (fun j' =>
      implb ((j <? j')%nat && keep j && keep j')
            (negb (String.eqb (entry_name amap j) (entry_name amap j'))))
      (seq 0 (length amap)))
    (seq 0 (length amap)).

(** Keys assigned by the kind-specific post-processing. *)
Definition post_keys (k : record_kind) : list string :=
  match k with
  | DailySummaryRecord => ["date"]
  | StoredIntervalRecord =>
      ["rain_collector_type"; "rain_amount_clicks"; "rain_rate_clicks";
       "rain_amount"; "rain_rate"]
      ++ ArchiveIntervalRecord.RECORD_WIND_DIRECTION_SPECIAL.*2
      ++ ["date"; "timestamp"]
  | DownloadIntervalRecord =>
      ["minutes_covered"; "rain_collector_type"; "rain_amount_clicks";
       "rain_rate_clicks"; "rain_amount"; "rain_rate"]
      ++ ArchiveIntervalRecord.RECORD_WIND_DIRECTION_SPECIAL.*2
      ++ ["timestamp"; "date"]
  | TelemetryFrame =>
      ["barometric_trend"]
      ++ LoopRecord.LOOP_WIND_DIRECTION_SPECIAL.*2
      ++ LoopRecord.LOOP_RAIN_AMOUNT_SPECIAL.*2
  end.

(** The one selected field that post-processing assigns again: the
    barometric trend of a telemetry frame. *)
Definition remapped (kind : record_kind) (k : string) : bool :=
  match kind with
  | TelemetryFrame => String.eqb k "barometric_trend"
  | _ => false
  end.

(** The sentinel rule for the field [k] of a decoded record [r], whose
    unpacked value is [v]. *)
Definition sentinel_rule (r : gmap string value) (k : string) (f : transform)
    (s : Z) (v : raw) : Prop :=
  (v = RInt s -> r !! k = Some VNone)
  /\ (v <> RInt s -> exists x, apply_transform f v = Ok x /\ r !! k = Some x).

(** The rule claimed for every selected sentinel-bearing field of every
    record a decoder returns. *)
Definition sentinel_claim_as_stated : Prop :=
  forall kind ctx h r h' args i k f s v,
    decode kind ctx h = Ok (Some r, h') ->
    Struct.unpack_from (record_format kind) (read (expected_length kind) h).1
      = Ok args ->
    attribute_map kind !! i = Some (k, f, Some s) ->
    plain_field kind i = true ->
    args !! i = Some v ->
    sentinel_rule r k f s v.

(** A well-formed telemetry frame: barometric trend 20 (rising slowly),
    barometer 30.000 inHg, 70.0 F inside, 85.0 F outside, wind 5 mph from 90
    degrees, correct marker bytes and a correct trailing checksum. *)
Definition example_frame : list byte :=
  [
   x4c; x4f; x4f; x14; x01; xff; x7f; x30; x75; xbc; x02; x28;
   x52; x03; x05; xff; x5a; x00; x00; x00; x00; x00; x00; x00;
   x00; x00; xff; x7f; xff; x7f; x00; x00; xff; x37; xff; x00;
   x00; x00; x00; x00; x00; x00; x00; x00; x00; x00; x00; x00;
   x00; x00; x00; x00; x00; x00; x00; x00; x00; x00; x00; x00;
   x00; x00; x00; x00; x00; x00; x00; x00; x00; x00; x00; xff;
   x00; x00; x00; x00; x00; x00; x00; x11; x00; x00; x00; xff;
   x7f; xff; x7f; xff; x7f; xff; x7f; xff; x7f; xff; x7f; x0a;
   x0d; xc5; x7a
  ].

Definition example_context : call_context := mkContext 2020 4 1 (VInt 5).

Definition example_frame_fields : list raw :=
  Struct.unpack_items LoopRecord.LOOP2_RECORD_FORMAT example_frame.

Definition example_frame_record : gmap string value :=
  match decode TelemetryFrame example_context example_frame with
  | Ok (Some r, _) => r
  | _ => ∅
  end.

(* ===================================================================== *)
(** * Part I (continued): the archive file, further metrics               *)
(* ===================================================================== *)

(** ** The header of a WLK file *)

Module DayIndex.

Definition DAY_INDEX_FORMAT : Struct.format :=
  [(1%nat, Struct.int16); (1%nat, Struct.int32)].      (* '=hl' *)
Definition DAY_INDEX_LENGTH : nat := 6.

Record t : Type := mk { record_count : Z; start_index : Z }.

(** The constructor is applied to the two unpacked fields of
    [struct.unpack_from(FORMAT, file_handle.read(LENGTH))]. *)
Definition load_from_wlk (file_handle : handle) : result (t * handle) :=
  let '(buf, file_handle) := read DAY_INDEX_LENGTH file_handle in
  arguments ← Struct.unpack_from DAY_INDEX_FORMAT buf;
  match arguments with
  | [RInt record_count; RInt start_index] =>
      Ok (mk record_count start_index, file_handle)
  | _ => Raise TypeError
  end.

End DayIndex.

Module Header.

Definition VERSION_CODE_AND_COUNT_FORMAT : Struct.format :=
  [(16%nat, Struct.chars); (1%nat, Struct.int32)].     (* '=16sl' *)
Definition VERSION_CODE_AND_COUNT_LENGTH : nat := 20.

Record t : Type := mk {
  version_code : raw;
  record_count : raw;
  day_indexes : list DayIndex.t
}.

(** [for i in range(0, n): day_indexes.append(DayIndex.load_from_wlk(h))]. *)
Fixpoint load_day_indexes (n : nat) (file_handle : handle)
  : result (list DayIndex.t * handle) :=
  match n with
  | O => Ok ([], file_handle)
  | S k =>
      p ← DayIndex.load_from_wlk file_handle;
      q ← load_day_indexes k p.2;
      Ok (p.1 :: q.1, q.2)
  end.

Definition load_from_wlk (file_handle : handle) : result (t * handle) :=
  let '(buf, file_handle) :=
    read VERSION_CODE_AND_COUNT_LENGTH file_handle in
  version_and_count ← Struct.unpack_from VERSION_CODE_AND_COUNT_FORMAT buf;
  p ← load_day_indexes 32 file_handle;
  match version_and_count !! 0%nat, version_and_count !! 1%nat with
  | Some v0, Some v1 => Ok (mk v0 v1 p.1, p.2)
  | _, _ => Raise IndexError
  end.

End Header.

(** ** Importer.import_data *)

Module Importer.

(** The attributes [import_data] fills in: [daily_summaries] (a dict keyed
    by the day), [records] (a list) and [daily_records] (a
    [defaultdict(list)] keyed by the day). *)
Record data : Type := mkData {
  daily_summaries : gmap Z (gmap string value);
  records : list (gmap string value);
  daily_records : gmap Z (list (gmap string value))
}.

Definition no_data : data := mkData ∅ [] ∅.

(** The body of [for r in range(0, day_index.record_count - 1)]. *)
Definition load_slot (year month day : Z) (r : nat) (st : data * handle)
  : result (data * handle) :=
  if (r =? 0)%nat then
    p ← DailySummary.load_from_wlk st.2 year month day;
    Ok (mkData (<[day := p.1]> (daily_summaries st.1))
               (records st.1) (daily_records st.1),
        p.2)
  else
    p ← ArchiveIntervalRecord.load_from_wlk st.2 year month day;
    Ok (mkData (daily_summaries st.1)
               (records st.1 ++ [p.1])
               (<[day := default [] (daily_records st.1 !! day) ++ [p.1]]>
                  (daily_records st.1)),
        p.2).

Fixpoint load_slots (year month day : Z) (rs : list nat) (st : data * handle)
  : result (data * handle) :=
  match rs with
  | [] => Ok st
  | r :: rs' =>
      st' ← load_slot year month day r st;
      load_slots year month day rs' st'
  end.

(** The body of [for day, day_index in enumerate(header.day_indexes)]. *)
Definition load_day (year month : Z) (day : nat) (day_index : DayIndex.t)
    (st : data * handle) : result (data * handle) :=
  if (0 <? day)%nat
  then load_slots year month (Z.of_nat day)
         (seq 0 (Z.to_nat (DayIndex.record_count day_index - 1))) st
  else Ok st.

Fixpoint load_days (year month : Z) (day : nat)
    (day_indexes : list DayIndex.t) (st : data * handle)
  : result (data * handle) :=
  match day_indexes with
  | [] => Ok st
  | day_index :: rest =>
      st' ← load_day year month day day_index st;
      load_days year month (S day) rest st'
  end.

(** [import_data] of an importer whose file name gave [year] and [month],
    on the contents of the file.  The result also holds the bytes left
    unread when the file is closed. *)
Definition import_data (year month : Z) (file : handle)
  : result (Header.t * data * handle) :=
  p ← Header.load_from_wlk file;
  st ← load_days year month 0 (Header.day_indexes p.1) (no_data, p.2);
  Ok (p.1, st.1, st.2).

End Importer.

(** ** Further derived metrics *)

(** A module-level constant given by an expression that does not raise. *)
Definition constant (r : result Decimal) : Decimal :=
  match r with
  | Ok d => d
  | Raise _ => D 0 0
  end.

Definition ONE_HUNDREDTH : Decimal := Dec.mul ONE_TENTH ONE_TENTH.
Definition ONE_THOUSANDTH : Decimal := Dec.mul ONE_TENTH ONE_HUNDREDTH.
Definition FIVE_NINTHS : Decimal := constant (Dec.div (D 50 (-1)) (D 90 (-1))).
Definition NINE_FIFTHS : Decimal := constant (Dec.div (D 90 (-1)) (D 50 (-1))).
Definition CELSIUS_CONSTANT : Decimal := D 32 0.
Definition KELVIN_CONSTANT : Decimal := D 45967 (-2).
Definition KILOPASCAL_MERCURY_CONSTANT : Decimal := D 295299830714 (-12).
Definition MILLIBAR_MERCURY_CONSTANT : Decimal :=
  Dec.mul KILOPASCAL_MERCURY_CONSTANT ONE_TENTH.
Definition METERS_PER_SECOND_CONSTANT : Decimal := D 44704 (-5).
Definition THW_INDEX_CONSTANT : Decimal := D 1072 (-3).

(** [d.quantize(e)] with the context rounding (half-even): [d] rounded to
    the exponent of [e]. *)
Definition quantize_to (d e : Decimal) : result Decimal :=
  Dec.quantize Dec.ROUND_HALF_EVEN d (Dec.dexp e).

Definition convert_fahrenheit_to_kelvin (temperature : Decimal)
  : result Decimal :=
  quantize_to (Dec.mul (Dec.add temperature KELVIN_CONSTANT) FIVE_NINTHS)
    ONE_THOUSANDTH.

Definition convert_kelvin_to_fahrenheit (temperature : Decimal)
  : result Decimal :=
  quantize_to (Dec.sub (Dec.mul temperature NINE_FIFTHS) KELVIN_CONSTANT)
    ONE_THOUSANDTH.

Definition convert_fahrenheit_to_celsius (temperature : Decimal)
  : result Decimal :=
  quantize_to (Dec.mul (Dec.sub temperature CELSIUS_CONSTANT) FIVE_NINTHS)
    ONE_THOUSANDTH.

Definition convert_celsius_to_fahrenheit (temperature : Decimal)
  : result Decimal :=
  quantize_to (Dec.add (Dec.mul temperature NINE_FIFTHS) CELSIUS_CONSTANT)
    ONE_THOUSANDTH.

Definition convert_inches_of_mercury_to_kilopascals
    (barometric_pressure : Decimal) : result Decimal :=
  q ← Dec.div barometric_pressure KILOPASCAL_MERCURY_CONSTANT;
  quantize_to q ONE_HUNDREDTH.

Definition convert_inches_of_mercury_to_millibars
    (barometric_pressure : Decimal) : result Decimal :=
  q ← Dec.div barometric_pressure MILLIBAR_MERCURY_CONSTANT;
  quantize_to q ONE_HUNDREDTH.

Definition convert_miles_per_hour_to_meters_per_second
    (wind_speed : Decimal) : result Decimal :=
  quantize_to (Dec.mul wind_speed METERS_PER_SECOND_CONSTANT)
    METERS_PER_SECOND_CONSTANT.

(** [not hi] for the result of [calculate_heat_index]: [None] and a zero
    [Decimal] are both false. *)
Definition calculate_thw_index (temperature : Decimal)
    (relative_humidity wind_speed : number) : result (option Decimal) :=
  hi ← calculate_heat_index temperature relative_humidity;
  let WS := _as_decimal wind_speed in
  match hi with
  | None => Ok None
  | Some hi =>
      if Dec.is_zero hi then Ok None
      else
        q ← Dec.quantize Dec.ROUND_CEILING (Dec.mul THW_INDEX_CONSTANT WS)
              (Dec.dexp ONE_TENTH);
        Ok (Some (Dec.sub hi q))
  end.

Definition calculate_cooling_degree_days (average_temperature : Decimal)
  : option Decimal :=
  if Dec.leb average_temperature DEGREE_DAYS_THRESHOLD then None
  else Some (Dec.sub average_temperature DEGREE_DAYS_THRESHOLD).

Definition calculate_heating_degree_days (average_temperature : Decimal)
  : option Decimal :=
  if Dec.geb average_temperature DEGREE_DAYS_THRESHOLD then None
  else Some (Dec.sub DEGREE_DAYS_THRESHOLD average_temperature).

(** [clicks_to_centimeters] of each rain collector type. *)
Definition serial_clicks_to_centimeters
    (r : RainCollectorTypeSerial.t) (c : Z) : result Decimal :=
  let c := Dec.of_int c in
  match r with
  | RainCollectorTypeSerial.inches_0_01 =>
      q ← Dec.div c _INCHES_PER_CENTIMETER; Ok (Dec.mul q _HUNDREDTHS)
  | RainCollectorTypeSerial.millimeters_0_2 =>
      Ok (Dec.mul (Dec.mul c _HUNDREDTHS) (Dec.of_int 2))
  | RainCollectorTypeSerial.millimeters_0_1 => Ok (Dec.mul c _HUNDREDTHS)
  end.

Definition database_clicks_to_centimeters
    (r : RainCollectorTypeDatabase.t) (c : Z) : result Decimal :=
  let c := Dec.of_int c in
  match r with
  | RainCollectorTypeDatabase.inches_0_1 =>
      q ← Dec.div c _INCHES_PER_CENTIMETER; Ok (Dec.mul q _TENTHS)
  | RainCollectorTypeDatabase.inches_0_01 =>
      q ← Dec.div c _INCHES_PER_CENTIMETER; Ok (Dec.mul q _HUNDREDTHS)
  | RainCollectorTypeDatabase.millimeters_0_2 =>
      Ok (Dec.mul (Dec.mul c _HUNDREDTHS) (Dec.of_int 2))
  | RainCollectorTypeDatabase.millimeters_1_0 => Ok (Dec.mul c _TENTHS)
  | RainCollectorTypeDatabase.millimeters_0_1 => Ok (Dec.mul c _HUNDREDTHS)
  end.

(** ** Specification-level definitions for the decimal arithmetic *)

(** The rational a [Decimal] denotes. *)
Definition toQ (d : Decimal) : Q :=
  (inject_Z (Dec.dcoef d) * 10 ^ (Dec.dexp d))%Q.

(** A coefficient of at most 28 digits: no context rounding applies. *)
Definition fits (d : Decimal) : Prop := Z.abs (Dec.dcoef d) < 10 ^ 28.

(** [mag K a]: [|a| <= 10^K]. *)
Definition mag (K : Z) (a : Decimal) : Prop :=
  (- 10 ^ K <= toQ a <= 10 ^ K)%Q.

(** The scaled integer division at the heart of [Decimal.__truediv__]. *)
Definition div_scaled (x y shift : Z) : Z * Z :=
  if 0 <=? shift then Z.div_eucl (x * 10 ^ shift) y
  else Z.div_eucl x (y * 10 ^ (- shift)).

(** The heat index before its final rounding. *)
Definition heat_index_unrounded (T RH : Decimal) : result Decimal :=
  heat_index ← heat_index_average T RH;
  if Dec.ltb heat_index HI_SECOND_FORMULA_THRESHOLD then Ok heat_index
  else heat_index_adjusted T RH.

(** [Decimal(10) ** Decimal('0.16')] as the [decimal] module computes it,
    and a power routine known at these arguments only. *)
Definition ten_to_the_0_16 : Decimal := D 1445439770745927511931481546 (-27).

Definition power_at_ten (x y : Decimal) : result Decimal :=
  if Dec.eqb x TEN && Dec.eqb y WC_V_EXP then Ok ten_to_the_0_16
  else Raise InvalidOperation.

(** ** Specification-level definitions for the archive file *)

(** Day index [i] and the header, read off the first 212 bytes of a file. *)
Definition day_index_at (file : list byte) (i : nat) : DayIndex.t :=
  DayIndex.mk (Struct.signed_le (take 2 (drop (20 + 6 * i) file)))
              (Struct.signed_le (take 4 (drop (22 + 6 * i) file))).

Definition header_of_bytes (file : list byte) : Header.t :=
  Header.mk (RBytes (take 16 file))
            (RInt (Struct.signed_le (take 4 (drop 16 file))))
            (map (day_index_at file) (seq 0 32)).

(** What the import loop does for one day index: the number of loop
    iterations, of bytes read and of interval records appended. *)
Definition day_slots (di : DayIndex.t) : nat :=
  Z.to_nat (DayIndex.record_count di - 1).

Definition slots_length (n : nat) : nat :=
  match n with
  | O => 0
  | S k => 176 + 88 * k
  end.

Definition day_length (di : DayIndex.t) : nat := slots_length (day_slots di).

Definition day_records (di : DayIndex.t) : nat := pred (day_slots di).

(** The bytes read after the header, for the day indexes of a header:
    entry 0 is not used. *)
Definition body_length (day_indexes : list DayIndex.t) : nat :=
  sum_list (map day_length (drop 1 day_indexes)).

(** A one-day archive: a header whose day 1 counts three record slots, a
    daily summary (two slots) and one interval record, all fields zero. *)
Definition example_wlk_file : list byte :=
  replicate 26 x00 ++ [x03] ++ replicate 185 x00
  ++ [x02] ++ replicate 87 x00 ++ [x03] ++ replicate 87 x00
  ++ [x01] ++ replicate 87 x00.

(** The interval record of that archive, and what decoding it gives. *)
Definition example_interval_bytes : list byte := [x01] ++ replicate 87 x00.

Definition example_interval_record : gmap string value :=
  match ArchiveIntervalRecord.load_from_wlk example_interval_bytes 2020 4 1
  with
  | Ok p => p.1
  | Raise _ => ∅
  end.

(** A download record of 2020-04-01 12:30 (date stamp 10369, time stamp
    1230) with 7 rain clicks and a rain rate of 3 clicks, all other fields
    zero, followed by two more bytes. *)
Definition example_download_bytes : list byte :=
  [x81; x28; xce; x04] ++ replicate 6 x00 ++ [x07; x00; x03; x00]
  ++ replicate 38 x00 ++ [x2a; x2b].

Definition example_wlk_import : Header.t * Importer.data * handle :=
  match Importer.import_data 2020 4 example_wlk_file with
  | Ok x => x
  | Raise _ => (header_of_bytes [], Importer.no_data, [])
  end.

(** *** Rolling wind average *)

(** The minutes a sample covers, as a number. *)
Definition minutes_value (m : minutes) : Q :=
  match m with
  | MinutesInt n => inject_Z n
  | MinutesDecimal d => toQ d
  end.

(** A sample with wind speed 0. *)
Definition calm_sample {direction : Type} (r : sample direction datetime)
  : Prop :=
  match r.1.1.1 with
  | NumInt z => z = 0
  | NumDecimal d => (toQ d == 0)%Q
  | NumNone => False
  end.

(** A one-minute sample of speed 5 from direction [n]. *)
Definition steady {direction : Type} (n : direction)
    (r : sample direction datetime) : Prop :=
  _as_decimal r.1.1.1 = D 5 0 /\ r.1.1.2 = n /\ (minutes_value r.2 == 1)%Q.



(** The time stamp of a sample lies at least nine minutes after the
    earliest date-time: each of the up to nine minutes back from it is a
    date-time. *)
Definition can_go_back {direction : Type} (r : sample direction datetime)
  : Prop :=
  forall i, 0 <= i <= 9 -> exists t, Calendar.add_minutes r.1.2 (- i) = Ok t.

(** The same, as a test that evaluates. *)
Definition can_go_back_check {direction : Type}
    (r : sample direction datetime) : bool :=
  forallb (fun i => if Calendar.add_minutes r.1.2 (- i) is Ok _
                    then true else false)
    [0; 1; 2; 3; 4; 5; 6; 7; 8; 9].


(** The whole minutes a list of samples covers in total; a sample of
    negative minutes counts as none. *)
Definition minutes_queued {direction : Type}
    (records : list (sample direction datetime)) : nat :=
  sum_list ((fun r => Z.to_nat (Qfloor (minutes_value r.2))) <$> records).

(** *** Wind samples on a concrete day *)

(** Directions as strings; one-minute samples at 10:[mi] on 2020-04-01. *)
Definition example_sample (speed : Z) (mi : Z) : sample string datetime :=
  (NumInt speed, "N", mkDatetime 2020 4 1 10 mi 0 0, MinutesInt 1).

Definition ten_steady_samples_example : list (sample string datetime) :=
  map (example_sample 5) [1; 2; 3; 4; 5; 6; 7; 8; 9; 10].

Definition eleven_calm_samples_example : list (sample string datetime) :=
  map (example_sample 0) [1; 2; 3; 4; 5; 6; 7; 8; 9; 10; 11].



(** A five-minute sample three minutes after the earliest date-time. *)
Definition early_sample_example (speed : Z)
  : list (sample string datetime) :=
  [(NumInt speed, "N", mkDatetime 1 1 1 0 3 0 0, MinutesInt 5)].

(** *** Unit conversions: closeness of a result to the exact value *)

(** [within tol x r]: the decimal [r] is at most [tol] away from [x]. *)
Definition within (tol x : Q) (r : Decimal) : Prop :=
  (x - tol <= toQ r <= x + tol)%Q.

(** What the 28-digit context arithmetic can add to the final rounding
    for inputs of magnitude up to a million. *)
Definition context_slack : Q := 1 # 1000000000000000000.

(* ===================================================================== *)
(** * Part II: theorems                                                    *)
(* ===================================================================== *)

(** ** Tactics for the error monad *)

Lemma bind_Ok {A B} (e : result A) (f : A -> result B) (r : B) :
  (e ≫= f) = Ok r -> exists a, e = Ok a /\ f a = Ok r.
Proof. destruct e as [a|x]; cbn; [eauto | discriminate]. Qed.

(** [step H as x E]: from [H : (e ≫= f) = Ok r] get [E : e = Ok x] and
    [H : f x = Ok r]. *)
Tactic Notation "step" hyp(H) "as" ident(x) ident(E) :=
  apply bind_Ok in H as (x & E & H).

(* --------------------------------------------------------------------- *)
(** ** Timestamp codec                                                     *)
(* --------------------------------------------------------------------- *)

Lemma days_in_month_le_31 y m : Calendar.days_in_month y m <= 31.
Proof.
  unfold Calendar.days_in_month.
  repeat match goal with |- context [if ?b then _ else _] => destruct b end; lia.
Qed.

Lemma valid_bounds d :
  Calendar.valid d = true ->
  1 <= year d <= 9999 /\ 1 <= month d <= 12 /\ 1 <= day d <= 31 /\
  0 <= hour d <= 23 /\ 0 <= minute d <= 59.
Proof.
  unfold Calendar.valid, Calendar.valid_date, Calendar.valid_time,
    Calendar.MINYEAR, Calendar.MAXYEAR.
  rewrite !andb_true_iff, !Z.leb_le.
  pose proof (days_in_month_le_31 (year d) (month d)). lia.
Qed.

(** A calendar date and a time of day are C [int]s: the constructor
    returns. *)
Lemma make_valid y m d h mi :
  Calendar.valid_date y m d && Calendar.valid_time h mi 0 0 = true ->
  Calendar.make y m d h mi = Ok (mkDatetime y m d h mi 0 0).
Proof.
  intros V. unfold Calendar.make. rewrite V.
  assert (C : Calendar.c_int y && Calendar.c_int m && Calendar.c_int d
              && Calendar.c_int h && Calendar.c_int mi = true).
  { pose proof (valid_bounds (mkDatetime y m d h mi 0 0)) as B.
    unfold Calendar.valid in B. cbn [year month day hour minute second
      microsecond] in B. specialize (B V).
    unfold Calendar.c_int. change (2 ^ 31) with 2147483648.
    repeat (apply andb_true_intro; split);
      try (apply Z.leb_le; lia); apply Z.ltb_lt; lia. }
  now rewrite C.
Qed.

Lemma make_inversion y m d h mi dt :
  Calendar.make y m d h mi = Ok dt ->
  dt = mkDatetime y m d h mi 0 0
  /\ Calendar.valid_date y m d && Calendar.valid_time h mi 0 0 = true.
Proof.
  unfold Calendar.make.
  destruct (_ && Calendar.c_int mi); [|discriminate].
  destruct (Calendar.valid_date y m d && Calendar.valid_time h mi 0 0);
    [|discriminate].
  intros [= <-]. auto.
Qed.

Lemma int_truediv_plus_nonneg a b c :
  0 < b -> 0 <= a + c * b -> int_truediv_plus a b c = a / b + c.
Proof.
  intros Hb Ha. unfold int_truediv_plus.
  rewrite Z.quot_div_nonneg by lia.
  now rewrite Z.div_add by lia.
Qed.

(** C3. For every date-time the packed format can carry, the encoding is
    [((day + month*32 + (year-2000)*512) << 16) + (minute + hour*100)] and
    decoding the encoding gives the date-time back. *)
Theorem timestamp_roundtrip (d : datetime) :
  representable d ->
  convert_datetime_to_timestamp (ArgDatetime d)
    = (day d + month d * 32 + (year d - 2000) * 512) * 2 ^ 16
      + (minute d + hour d * 100)
  /\ convert_timestamp_to_datetime
       (convert_datetime_to_timestamp (ArgDatetime d)) = Ok d.
Proof.
  intros (Hv & Hy & Hs & Hus).
  pose proof (valid_bounds d Hv) as (By & Bm & Bd & Bh & Bmi).
  assert (Henc : convert_datetime_to_timestamp (ArgDatetime d)
    = (day d + month d * 32 + (year d - 2000) * 512) * 2 ^ 16
      + (minute d + hour d * 100)).
  { cbn [convert_datetime_to_timestamp]. now rewrite Z.shiftl_mul_pow2 by lia. }
  split; [exact Henc|].
  unfold convert_timestamp_to_datetime. rewrite Henc.
  set (dp := day d + month d * 32 + (year d - 2000) * 512).
  set (tp := minute d + hour d * 100).
  assert (Hdp : Z.shiftr (dp * 2 ^ 16 + tp) 16 = dp).
  { rewrite Z.shiftr_div_pow2 by lia.
    rewrite Z.add_comm, Z.div_add by lia.
    rewrite Z.div_small; unfold tp; lia. }
  rewrite Hdp. rewrite Z.shiftl_mul_pow2 by lia.
  replace (dp * 2 ^ 16 + tp - dp * 2 ^ 16) with tp by lia.
  assert (Hyear : int_truediv_plus dp 512 2000 = year d).
  { rewrite int_truediv_plus_nonneg by (unfold dp; lia).
    unfold dp. rewrite Z.div_add by lia.
    rewrite Z.div_small by lia. lia. }
  rewrite Hyear.
  assert (Hmonth : int_truediv_plus (dp - (year d - 2000) * 512) 32 0 = month d).
  { rewrite int_truediv_plus_nonneg by (unfold dp; lia).
    unfold dp.
    replace (day d + month d * 32 + (year d - 2000) * 512 - (year d - 2000) * 512)
      with (day d + month d * 32) by lia.
    rewrite Z.div_add by lia.
    rewrite Z.div_small by lia. lia. }
  rewrite Hmonth.
  assert (Hhour : int_truediv_plus tp 100 0 = hour d).
  { rewrite int_truediv_plus_nonneg by (unfold tp; lia).
    unfold tp. rewrite Z.div_add by lia. rewrite Z.div_small by lia. lia. }
  rewrite Hhour.
  replace (dp - (year d - 2000) * 512 - month d * 32) with (day d)
    by (unfold dp; lia).
  replace (tp - hour d * 100) with (minute d) by (unfold tp; lia).
  rewrite make_valid by (unfold Calendar.valid in Hv; now rewrite Hs, Hus in Hv).
  clear - Hs Hus. destruct d; cbn in *. now rewrite Hs, Hus.
Qed.

Lemma timestamp_roundtrip_witness :
  representable (mkDatetime 2020 4 30 23 59 0 0) /\
  convert_timestamp_to_datetime
    (convert_datetime_to_timestamp (ArgDatetime (mkDatetime 2020 4 30 23 59 0 0)))
  = Ok (mkDatetime 2020 4 30 23 59 0 0).
Proof.
  assert (H : representable (mkDatetime 2020 4 30 23 59 0 0)).
  { unfold representable; cbn; repeat split; lia. }
  split; [exact H | exact (proj2 (timestamp_roundtrip _ H))].
Defined.

(* --------------------------------------------------------------------- *)
(** ** Compass enumeration                                                 *)
(* --------------------------------------------------------------------- *)

Lemma compass_degrees (w : WindDirection.t) :
  WindDirection.degrees w
  = if WindDirection.value w =? 0 then Qc_of_Z 360
    else (Qc_of_Z (WindDirection.value w) * Q2Qc (45 # 2))%Qc.
Proof.
  destruct w; apply Qc_is_canon; vm_compute; reflexivity.
Qed.

Lemma from_degrees_out_of_range (d : Qc) :
  (d < Qc_of_Z 1 \/ Qc_of_Z 360 < d)%Qc -> WindDirection.from_degrees d = Ok None.
Proof.
  intros H. unfold WindDirection.from_degrees.
  destruct (Qclt_le_dec d (Q2Qc (inject_Z 1))) as [|H1]; [reflexivity|].
  destruct (Qclt_le_dec (Q2Qc (inject_Z 360)) d) as [|H2]; [reflexivity|].
  destruct H as [H|H]; exfalso.
  - apply (Qclt_not_le _ _ H). exact H1.
  - apply (Qclt_not_le _ _ H). exact H2.
Qed.

(** C8. [from_degrees] is absent at 0, at 361 and everywhere outside
    [1, 360]; it is [N] at 1 and at 360; the degree value attached to a member
    is its code times 22.5, except that code 0 ([N]) carries 360, not 0. *)
Theorem from_degrees_boundaries_and_member_degrees :
  WindDirection.from_degrees_int 0 = Ok None
  /\ WindDirection.from_degrees_int 361 = Ok None
  /\ (forall d : Qc, (d < Qc_of_Z 1 \/ Qc_of_Z 360 < d)%Qc ->
        WindDirection.from_degrees d = Ok None)
  /\ WindDirection.from_degrees_int 1 = Ok (Some WindDirection.N)
  /\ WindDirection.from_degrees_int 360 = Ok (Some WindDirection.N)
  /\ (forall w : WindDirection.t,
        WindDirection.degrees w
        = if WindDirection.value w =? 0 then Qc_of_Z 360
          else (Qc_of_Z (WindDirection.value w) * Q2Qc (45 # 2))%Qc)
  /\ WindDirection.value WindDirection.N = 0
  /\ WindDirection.degrees WindDirection.N = Qc_of_Z 360
  /\ WindDirection.degrees WindDirection.N <> Qc_of_Z 0.
Proof.
  repeat split; try (vm_compute; reflexivity).
  - apply from_degrees_out_of_range.
  - apply compass_degrees.
  - intros H. apply (f_equal this) in H. vm_compute in H. discriminate.
Qed.

Lemma degree_map_total (z : Z) :
  1 <= z <= 360 -> is_Some (WindDirection.FROM_DEGREE_MAP !! z).
Proof.
  intros H.
  assert (G : forallb (fun n => bool_decide
                (is_Some (WindDirection.FROM_DEGREE_MAP !! (Z.of_nat n + 1))))
              (seq 0 360) = true) by (vm_compute; reflexivity).
  rewrite forallb_forall in G.
  specialize (G (Z.to_nat (z - 1))).
  replace (Z.of_nat (Z.to_nat (z - 1)) + 1) with z in G by lia.
  eapply bool_decide_eq_true_1, G, in_seq. lia.
Qed.

Lemma Qc_of_Z_le (a : Z) (d : Qc) :
  is_whole d -> (Qc_of_Z a <= d)%Qc <-> a <= Qnum (this d).
Proof.
  unfold is_whole; intros W. destruct d as [[n p] c]; cbn in *. subst p.
  unfold Qcle, Qc_of_Z. cbn [this Q2Qc]. rewrite Qred_correct.
  unfold Qle; cbn. lia.
Qed.

Lemma Qc_le_of_Z (a : Z) (d : Qc) :
  is_whole d -> (d <= Qc_of_Z a)%Qc <-> Qnum (this d) <= a.
Proof.
  unfold is_whole; intros W. destruct d as [[n p] c]; cbn in *. subst p.
  unfold Qcle, Qc_of_Z. cbn [this Q2Qc]. rewrite Qred_correct.
  unfold Qle; cbn. lia.
Qed.

(** C9. [from_degrees] returns normally exactly on the arguments outside
    [1, 360] and on the whole numbers; on every fractional argument inside
    the interval, such as 90.5, the dict lookup raises KeyError. *)
Theorem from_degrees_partial_on_fractions :
  (Qc_of_Z 1 < Q2Qc (181 # 2) /\ Q2Qc (181 # 2) < Qc_of_Z 360)%Qc
  /\ WindDirection.from_degrees (Q2Qc (181 # 2)) = Raise KeyError
  /\ (forall d : Qc,
        is_ok (WindDirection.from_degrees d) = true
        <-> ((d < Qc_of_Z 1)%Qc \/ (Qc_of_Z 360 < d)%Qc \/ is_whole d))
  /\ (forall d : Qc,
        (Qc_of_Z 1 <= d)%Qc -> (d <= Qc_of_Z 360)%Qc -> ~ is_whole d ->
        WindDirection.from_degrees d = Raise KeyError).
Proof.
  assert (K : forall d : Qc,
            (Qc_of_Z 1 <= d)%Qc -> (d <= Qc_of_Z 360)%Qc -> ~ is_whole d ->
            WindDirection.from_degrees d = Raise KeyError).
  { intros d H1 H2 W. unfold WindDirection.from_degrees.
    destruct (Qclt_le_dec d (Q2Qc (inject_Z 1))) as [L|_];
      [exfalso; exact (Qclt_not_le _ _ L H1)|].
    destruct (Qclt_le_dec (Q2Qc (inject_Z 360)) d) as [L|_];
      [exfalso; exact (Qclt_not_le _ _ L H2)|].
    destruct (Pos.eqb_spec (Qden (this d)) 1%positive) as [E|_];
      [contradiction|reflexivity]. }
  split; [split; reflexivity|].
  split; [vm_compute; reflexivity|].
  split; [|exact K].
  intros d. split.
  - intros Hok.
    destruct (Qclt_le_dec d (Qc_of_Z 1)) as [L|H1]; [now left|].
    destruct (Qclt_le_dec (Qc_of_Z 360) d) as [L|H2]; [now right; left|].
    right; right.
    destruct (Pos.eq_dec (Qden (this d)) 1%positive) as [E|NE]; [exact E|].
    rewrite (K d H1 H2 NE) in Hok. discriminate.
  - intros [H|[H|W]].
    + rewrite from_degrees_out_of_range by (now left). reflexivity.
    + rewrite from_degrees_out_of_range by (now right). reflexivity.
    + unfold WindDirection.from_degrees.
      destruct (Qclt_le_dec d (Q2Qc (inject_Z 1))) as [|H1]; [reflexivity|].
      destruct (Qclt_le_dec (Q2Qc (inject_Z 360)) d) as [|H2]; [reflexivity|].
      apply (Qc_of_Z_le 1 d W) in H1. apply (Qc_le_of_Z 360 d W) in H2.
      unfold is_whole in W. rewrite W, Pos.eqb_refl.
      destruct (degree_map_total (Qnum (this d))) as [w Hw]; [lia|].
      now rewrite Hw.
Qed.

(* --------------------------------------------------------------------- *)
(** ** Checksum                                                            *)
(* --------------------------------------------------------------------- *)

Lemma byte_val_range b : 0 <= byte_val b < 256.
Proof. unfold byte_val. pose proof (Byte.to_N_bounded b). lia. Qed.

Lemma byte_val_inj b b' : byte_val b = byte_val b' -> b = b'.
Proof.
  unfold byte_val. intros H.
  assert (E : Byte.to_N b = Byte.to_N b') by lia.
  pose proof (Byte.of_to_N b) as Hb. rewrite E, Byte.of_to_N in Hb.
  congruence.
Qed.

(** Two facts about the table, each checked entry by entry: every entry is
    a 16-bit value, and the low bytes of the 256 entries are all different. *)
Lemma table_range i : 0 <= i < 256 -> crc16 (crc_table_entry i).
Proof.
  intros H.
  assert (G : forallb (fun x => (0 <=? x) && (x <? 65536))
                WEATHERLINK_CRC_TABLE = true) by (vm_compute; reflexivity).
  rewrite forallb_forall in G.
  specialize (G (crc_table_entry i)).
  rewrite andb_true_iff, Z.leb_le, Z.ltb_lt in G. apply G.
  apply nth_In. change (length WEATHERLINK_CRC_TABLE) with 256%nat. lia.
Qed.

Lemma crc_low_bytes_NoDup : NoDup crc_low_bytes.
Proof. apply (bool_decide_unpack (NoDup crc_low_bytes)). vm_compute. exact I. Qed.

Lemma table_low_inj i j :
  0 <= i < 256 -> 0 <= j < 256 ->
  Z.land (crc_table_entry i) 255 = Z.land (crc_table_entry j) 255 -> i = j.
Proof.
  intros Hi Hj E.
  assert (L : forall k, 0 <= k < 256 ->
             crc_low_bytes !! Z.to_nat k = Some (Z.land (crc_table_entry k) 255)).
  { intros k Hk. unfold crc_low_bytes, crc_table_entry.
    rewrite list_lookup_fmap, nth_lookup.
    destruct (lookup_lt_is_Some_2 WEATHERLINK_CRC_TABLE (Z.to_nat k)) as [x Hx].
    - change (length WEATHERLINK_CRC_TABLE) with 256%nat. lia.
    - now rewrite Hx. }
  pose proof (L i Hi) as Li. pose proof (L j Hj) as Lj. rewrite E in Li.
  pose proof (NoDup_lookup crc_low_bytes _ _ _ crc_low_bytes_NoDup Li Lj). lia.
Qed.

Lemma lxor_range n a b :
  0 <= n -> 0 <= a < 2 ^ n -> 0 <= b < 2 ^ n -> 0 <= Z.lxor a b < 2 ^ n.
Proof.
  intros Hn Ha Hb.
  assert (Hnn : 0 <= Z.lxor a b) by (apply Z.lxor_nonneg; lia).
  split; [exact Hnn|].
  assert (E : Z.shiftr (Z.lxor a b) n = 0).
  { rewrite Z.shiftr_lxor, !Z.shiftr_div_pow2 by lia.
    rewrite !Z.div_small by lia. reflexivity. }
  rewrite Z.shiftr_div_pow2 in E by lia.
  apply Z.div_small_iff in E; lia.
Qed.

Lemma lxor_cancel_r a b c : Z.lxor a c = Z.lxor b c -> a = b.
Proof.
  intros H.
  rewrite <- (Z.lxor_0_r a), <- (Z.lxor_0_r b), <- (Z.lxor_nilpotent c).
  rewrite <- !Z.lxor_assoc. now rewrite H.
Qed.

Lemma lxor_cancel_l a b c : Z.lxor c a = Z.lxor c b -> a = b.
Proof. rewrite !(Z.lxor_comm c). apply lxor_cancel_r. Qed.

Lemma land_lxor_distr a b c :
  Z.land (Z.lxor a b) c = Z.lxor (Z.land a c) (Z.land b c).
Proof.
  apply Z.bits_inj'. intros n Hn.
  rewrite Z.land_spec, !Z.lxor_spec, !Z.land_spec.
  destruct (Z.testbit a n), (Z.testbit b n), (Z.testbit c n); reflexivity.
Qed.

Lemma low_part_range crc : 0 <= Z.land crc 255 < 256.
Proof.
  change 255 with (Z.ones 8). rewrite Z.land_ones by lia.
  apply Z.mod_pos_bound. lia.
Qed.

(** The table is never indexed out of range. *)
Lemma crc_index_range crc b : 0 <= crc_index crc b < 256.
Proof.
  unfold crc_index. apply (lxor_range 8); [lia| |apply byte_val_range].
  apply low_part_range.
Qed.

Lemma crc_step_eq crc b :
  crc_step crc b
  = Z.lxor (crc_table_entry (crc_index crc b)) (Z.shiftl (Z.land crc 255) 8).
Proof.
  unfold crc_step, crc_index, crc_table_entry. f_equal.
  change 0xFF00 with (Z.shiftl 255 8).
  now rewrite <- Z.shiftl_land.
Qed.

Lemma crc_step_range crc b : crc16 (crc_step crc b).
Proof.
  rewrite crc_step_eq. apply (lxor_range 16); [lia| |].
  - apply table_range, crc_index_range.
  - rewrite Z.shiftl_mul_pow2 by lia. pose proof (low_part_range crc). lia.
Qed.

Lemma crc_step_low crc b :
  Z.land (crc_step crc b) 255 = Z.land (crc_table_entry (crc_index crc b)) 255.
Proof.
  rewrite crc_step_eq, land_lxor_distr.
  replace (Z.land (Z.shiftl (Z.land crc 255) 8) 255) with 0.
  - apply Z.lxor_0_r.
  - change 255 with (Z.ones 8) at 2. rewrite Z.land_ones by lia.
    rewrite Z.shiftl_mul_pow2 by lia. symmetry. apply Z_mod_mult.
Qed.

(** From one state, different bytes lead to different states. *)
Lemma crc_step_inj_byte crc b b' :
  crc_step crc b = crc_step crc b' -> b = b'.
Proof.
  intros H. apply (f_equal (fun x => Z.land x 255)) in H.
  rewrite !crc_step_low in H.
  apply table_low_inj in H; try apply crc_index_range.
  unfold crc_index in H. apply lxor_cancel_l in H. now apply byte_val_inj.
Qed.

(** One byte maps different 16-bit states to different states. *)
Lemma crc_step_inj_state s s' b :
  crc16 s -> crc16 s' -> crc_step s b = crc_step s' b -> s = s'.
Proof.
  intros Hs Hs' H.
  assert (Hidx : crc_index s b = crc_index s' b).
  { apply table_low_inj; try apply crc_index_range.
    rewrite <- !crc_step_low. now rewrite H. }
  rewrite !crc_step_eq, Hidx in H. apply lxor_cancel_l in H.
  unfold crc_index in Hidx. apply lxor_cancel_r in Hidx.
  rewrite !Z.shiftl_mul_pow2 in H by lia.
  change 255 with (Z.ones 8) in *. rewrite !Z.land_ones in * by lia.
  rewrite !Z.shiftr_div_pow2 in Hidx by lia.
  unfold crc16 in *.
  rewrite !Z.mod_small in Hidx
    by (split; [apply Z.div_pos; lia | apply Z.div_lt_upper_bound; lia]).
  rewrite (Z.div_mod s (2 ^ 8)), (Z.div_mod s' (2 ^ 8)) by lia.
  lia.
Qed.

Lemma crc_fold_range data s : crc16 s -> crc16 (fold_left crc_step data s).
Proof.
  revert s. induction data as [|b data IH]; intros s Hs; cbn; [exact Hs|].
  apply IH, crc_step_range.
Qed.

Lemma crc_fold_inj data s s' :
  crc16 s -> crc16 s' ->
  fold_left crc_step data s = fold_left crc_step data s' -> s = s'.
Proof.
  revert s s'. induction data as [|b data IH]; intros s s' Hs Hs' H; cbn in H.
  - exact H.
  - apply (crc_step_inj_state s s' b Hs Hs').
    apply IH; [apply crc_step_range..|exact H].
Qed.

(** C7. If the CRC of a byte sequence is 0, then storing any different value
    at any one position gives a sequence whose CRC is not 0. *)
Theorem crc_single_byte_change_detected
    (data : list byte) (i : nat) (b' : byte) :
  calculate_weatherlink_crc data = 0 ->
  (i < length data)%nat ->
  data !! i <> Some b' ->
  calculate_weatherlink_crc (<[i := b']> data) <> 0.
Proof.
  intros Hcrc Hi Hne Hcrc'.
  destruct (lookup_lt_is_Some_2 data i Hi) as [b Hb].
  unfold calculate_weatherlink_crc in *.
  rewrite insert_take_drop in Hcrc' by exact Hi.
  rewrite <- (take_drop_middle data i b Hb) in Hcrc.
  rewrite fold_left_app in Hcrc, Hcrc'. cbn [fold_left] in Hcrc, Hcrc'.
  set (s := fold_left crc_step (take i data) 0) in *.
  assert (Hs : crc16 s) by (apply crc_fold_range; unfold crc16; lia).
  rewrite <- Hcrc' in Hcrc.
  apply crc_fold_inj in Hcrc; try apply crc_step_range.
  apply crc_step_inj_byte in Hcrc. congruence.
Qed.

Lemma crc_single_byte_change_detected_witness :
  calculate_weatherlink_crc example_frame = 0 /\
  calculate_weatherlink_crc (<[12%nat := x53]> example_frame) <> 0.
Proof.
  split; [reflexivity|].
  apply crc_single_byte_change_detected;
    [reflexivity | vm_compute; lia | vm_compute; discriminate].
Defined.

(* --------------------------------------------------------------------- *)
(** ** Record decoders                                                     *)
(* --------------------------------------------------------------------- *)

Lemma calcsize_expected k : Struct.calcsize (record_format k) = expected_length k.
Proof. destruct k; reflexivity. Qed.

Lemma unpack_short (f : Struct.format) (buf : list byte) :
  (length buf < Struct.calcsize f)%nat ->
  Struct.unpack_from f buf = Raise StructError.
Proof.
  intros H. unfold Struct.unpack_from.
  destruct (Nat.ltb_spec (length buf) (Struct.calcsize f)); [reflexivity|lia].
Qed.

(** [read] never returns more than it is asked for, so a buffer of the wrong
    length is a short one. *)
Lemma short_read n (h : handle) :
  length (read n h).1 <> n -> (length (read n h).1 < n)%nat.
Proof. unfold read; cbn. rewrite length_take. lia. Qed.

(** C1. For every record kind: when the buffer the decoder reads does not
    have the fixed length of the kind, the decoder raises the length error of
    [struct] and returns no record, populated or not. *)
Theorem wrong_length_fails (k : record_kind) (ctx : call_context) (h : handle) :
  length (read (expected_length k) h).1 <> expected_length k ->
  decode k ctx h = Raise StructError.
Proof.
  intros H. apply short_read in H. rewrite <- calcsize_expected in H at 2.
  pose proof (unpack_short _ _ H) as U.
  destruct k; cbn [decode record_format expected_length] in *;
    unfold DailySummary.load_from_wlk, ArchiveIntervalRecord.load_from_wlk,
      ArchiveIntervalRecord.load_from_download, LoopRecord._get_loop_2_arguments;
    unfold read in *; cbn [fst] in U; rewrite U; reflexivity.
Qed.

Lemma wrong_length_fails_witness :
  decode TelemetryFrame example_context (take 98 example_frame)
  = Raise StructError.
Proof.
  apply wrong_length_fails. vm_compute. lia.
Defined.

(** *** The field loop *)

Section DecodeFields.
Variable amap : list attribute.
Variable keep : nat -> bool.

(** A key that no selected entry of the remaining fields is named after
    keeps its value. *)
Lemma decode_fields_other args : forall i kw kw' key,
  decode_fields amap keep i args kw = Ok kw' ->
  (forall j k f s, (j < length args)%nat -> keep (i + j) = true ->
     amap !! (i + j)%nat = Some (k, f, s) -> k <> key) ->
  kw' !! key = kw !! key.
Proof.
  induction args as [|v rest IH]; intros i kw kw' key H Hne; cbn in H.
  - congruence.
  - destruct (keep i) eqn:Hk.
    + destruct (amap !! i) as [[[k f] s]|] eqn:Ha; [|discriminate].
      step H as x Hx.
      rewrite (IH _ _ _ key H).
      * apply lookup_insert_ne.
        apply (Hne 0%nat k f s); rewrite ?Nat.add_0_r; cbn; auto; lia.
      * intros j k' f' s' Hj Hkj Haj.
        apply (Hne (S j) k' f' s'); rewrite ?Nat.add_succ_r; cbn; auto; lia.
    + apply (IH _ _ _ key H).
      intros j k' f' s' Hj Hkj Haj.
      apply (Hne (S j) k' f' s'); rewrite ?Nat.add_succ_r; cbn; auto; lia.
Qed.

Lemma decode_fields_at args : forall i kw kw' j v k f s,
  decode_fields amap keep i args kw = Ok kw' ->
  args !! j = Some v -> keep (i + j) = true ->
  amap !! (i + j)%nat = Some (k, f, s) ->
  (forall j' k' f' s', (j < j' < length args)%nat -> keep (i + j') = true ->
     amap !! (i + j')%nat = Some (k', f', s') -> k' <> k) ->
  exists x, field_value f s v = Ok x /\ kw' !! k = Some x.
Proof.
  induction args as [|v0 rest IH]; intros i kw kw' j v k f s H Hv Hk Ha Hne.
  - discriminate.
  - destruct j as [|j]; cbn in Hv.
    + injection Hv as ->. rewrite Nat.add_0_r in Hk, Ha.
      cbn in H. rewrite Hk, Ha in H. step H as x Hx.
      exists x. split; [exact Hx|].
      rewrite (decode_fields_other _ _ _ _ k H).
      * apply lookup_insert_eq.
      * intros j k' f' s' Hj Hkj Haj.
        apply (Hne (S j) k' f' s'); rewrite ?Nat.add_succ_r; cbn; auto; lia.
    + rewrite Nat.add_succ_r in Hk, Ha. cbn in H.
      assert (G : exists kw0, decode_fields amap keep (S i) rest kw0 = Ok kw').
      { destruct (keep i); [|eauto].
        destruct (amap !! i) as [[[k0 f0] s0]|]; [|discriminate].
        step H as x Hx. eauto. }
      destruct G as [kw0 G].
      apply (IH (S i) kw0 kw' j v k f s G Hv Hk Ha).
      intros j' k' f' s' Hj Hkj Haj.
      apply (Hne (S j') k' f' s'); rewrite ?Nat.add_succ_r; cbn; auto; lia.
Qed.

Lemma distinct_names_spec j j' k f s k' f' s' :
  distinct_names amap keep = true -> (j < j')%nat ->
  keep j = true -> keep j' = true ->
  amap !! j = Some (k, f, s) -> amap !! j' = Some (k', f', s') -> k' <> k.
Proof.
  unfold distinct_names. rewrite forallb_forall. intros D Hlt Hk Hk' Ha Ha' ->.
  pose proof (lookup_lt_Some _ _ _ Ha) as Lj.
  pose proof (lookup_lt_Some _ _ _ Ha') as Lj'.
  assert (Ij : In j (seq 0 (length amap))) by (apply in_seq; lia).
  assert (Ij' : In j' (seq 0 (length amap))) by (apply in_seq; lia).
  specialize (D j Ij). rewrite forallb_forall in D. specialize (D j' Ij').
  unfold entry_name in D. rewrite Ha, Ha', Hk, Hk', String.eqb_refl in D.
  destruct (Nat.ltb_spec j j'); [discriminate | lia].
Qed.

(** With distinct names, the dict the loop returns holds, under the name of
    each selected entry, the value computed from that entry's field. *)
Lemma decode_fields_spec args kw kw' j v k f s :
  distinct_names amap keep = true ->
  decode_fields amap keep 0 args kw = Ok kw' ->
  args !! j = Some v -> keep j = true -> amap !! j = Some (k, f, s) ->
  exists x, field_value f s v = Ok x /\ kw' !! k = Some x.
Proof.
  intros D H Hv Hk Ha.
  apply (decode_fields_at args 0%nat kw kw' j v k f s H Hv Hk Ha).
  intros j' k' f' s' Hj Hkj Haj. cbn in *.
  exact (distinct_names_spec j j' k f s k' f' s' D ltac:(lia) Hk Hkj Ha Haj).
Qed.

End DecodeFields.

(** *** Post-processing *)

Lemma wind_direction_special_other pairs : forall r r' key,
  ArchiveIntervalRecord.wind_direction_special pairs r = Ok r' ->
  key ∉ pairs.*2 -> r' !! key = r !! key.
Proof.
  induction pairs as [|[k1 k2] pairs IH]; intros r r' key H Hk; cbn in H.
  - congruence.
  - step H as v Hv. step H as d Hd. rewrite (IH _ _ key H).
    + apply lookup_insert_ne. intros ->. apply Hk. cbn. apply list_elem_of_here.
    + intros Hin. apply Hk. cbn. now apply list_elem_of_further.
Qed.

Lemma loop_wind_direction_special_other pairs : forall r r' key,
  LoopRecord.loop_wind_direction_special pairs r = Ok r' ->
  key ∉ pairs.*2 -> r' !! key = r !! key.
Proof.
  induction pairs as [|[k1 k2] pairs IH]; intros r r' key H Hk; cbn in H.
  - congruence.
  - step H as v Hv. step H as d Hd. rewrite (IH _ _ key H).
    + apply lookup_insert_ne. intros ->. apply Hk. cbn. apply list_elem_of_here.
    + intros Hin. apply Hk. cbn. now apply list_elem_of_further.
Qed.

Lemma loop_rain_amount_special_other pairs : forall r r' key,
  LoopRecord.loop_rain_amount_special pairs r = Ok r' ->
  key ∉ pairs.*2 -> r' !! key = r !! key.
Proof.
  induction pairs as [|[k1 k2] pairs IH]; intros r r' key H Hk; cbn in H.
  - congruence.
  - step H as v Hv. step H as d Hd. rewrite (IH _ _ key H).
    + apply lookup_insert_ne. intros ->. apply Hk. cbn. apply list_elem_of_here.
    + intros Hin. apply Hk. cbn. now apply list_elem_of_further.
Qed.

Ltac elem_of_list :=
  solve [repeat first [apply list_elem_of_here | apply list_elem_of_further]].

(** [notin_from Hk]: a key outside [post_keys] is outside one of its parts. *)
Ltac notin_from Hk :=
  let Hin := fresh in
  intros Hin; apply Hk;
  unfold post_keys, ArchiveIntervalRecord.RECORD_WIND_DIRECTION_SPECIAL,
    LoopRecord.LOOP_WIND_DIRECTION_SPECIAL,
    LoopRecord.LOOP_RAIN_AMOUNT_SPECIAL in Hin |- *;
  cbn in Hin |- *;
  repeat (apply elem_of_cons in Hin as [->|Hin]; [elem_of_list|]);
  now apply elem_of_nil in Hin.

(** [insert_ne Hk]: look through one insertion of a key of [post_keys]. *)
Ltac insert_ne Hk :=
  rewrite lookup_insert_ne;
  [| let E := fresh in intros E; apply Hk; rewrite <- E; cbn; elem_of_list ].

(** What a successful decoder run consists of: the unpacked fields, the dict
    built by the field loop, and a record that agrees with that dict on every
    key the post-processing does not assign; a telemetry frame in addition
    has its barometric trend mapped through the trend enumeration. *)
Lemma decode_inversion kind ctx h r h' :
  decode kind ctx h = Ok (Some r, h') ->
  exists args kw0 kw',
    Struct.unpack_from (record_format kind) (read (expected_length kind) h).1
      = Ok args
    /\ decode_fields (attribute_map kind) (plain_field kind) 0 args kw0 = Ok kw'
    /\ (forall key, key ∉ post_keys kind -> r !! key = kw' !! key)
    /\ (kind = TelemetryFrame ->
        exists v, kw' !! "barometric_trend" = Some v
                  /\ r !! "barometric_trend"
                     = Some (LoopRecord.barometric_trend_of v)).
Proof.
  intros H. destruct kind; cbn [decode] in H.
  - (* daily summary *)
    step H as p Hp. injection H as <- <-.
    unfold DailySummary.load_from_wlk, read in Hp.
    step Hp as args Hargs. step Hp as u Hu. step Hp as kw Hkw.
    destruct (Calendar.valid_date _ _ _); [|discriminate].
    injection Hp as <-. cbn [fst snd].
    exists args, ∅, kw. repeat split; try assumption; try discriminate.
    intros key Hk. cbn in Hk. now insert_ne Hk.
  - (* stored interval record *)
    step H as p Hp. injection H as <- <-.
    unfold ArchiveIntervalRecord.load_from_wlk, read in Hp.
    step Hp as args Hargs. step Hp as u Hu. step Hp as kw Hkw.
    step Hp as rain_code E1. step Hp as rain_rate E2. step Hp as rct E3.
    step Hp as rec Hrec. step Hp as midnight E4. step Hp as mpm E5.
    step Hp as date E6. injection Hp as <-. cbn [fst snd].
    exists args, ∅, kw. repeat split; try assumption; try discriminate.
    intros key Hk.
    do 2 insert_ne Hk.
    rewrite (wind_direction_special_other _ _ _ key Hrec) by (notin_from Hk).
    now do 5 insert_ne Hk.
  - (* download interval record *)
    unfold ArchiveIntervalRecord.load_from_download, read in H.
    step H as args Hargs. step H as a0 E0.
    destruct (a0 <? 1); [discriminate|].
    step H as u Hu. step H as kw Hkw.
    step H as rain_clicks E1. step H as rain_rate E2.
    step H as rec Hrec. step H as a1 E3. step H as date E4.
    injection H as <- <-. cbn [fst snd].
    exists args, ∅, kw. repeat split; try assumption; try discriminate.
    intros key Hk.
    do 2 insert_ne Hk.
    rewrite (wind_direction_special_other _ _ _ key Hrec) by (notin_from Hk).
    now do 6 insert_ne Hk.
  - (* telemetry frame *)
    step H as p Hp. injection H as <- <-.
    unfold LoopRecord._get_loop_2_arguments, read in Hp.
    step Hp as args Hargs. step Hp as u Hu. step Hp as kw Hkw.
    step Hp as rec Hrec. injection Hp as <-. cbn [fst snd].
    unfold LoopRecord._post_process_arguments in Hrec.
    step Hrec as bt Hbt. step Hrec as rec1 Hrec1.
    eexists args, _, kw. split; [assumption|]. split; [eassumption|]. split.
    + intros key Hk.
      rewrite (loop_rain_amount_special_other _ _ _ key Hrec)
        by (notin_from Hk).
      rewrite (loop_wind_direction_special_other _ _ _ key Hrec1)
        by (notin_from Hk).
      now insert_ne Hk.
    + intros _. unfold getitem in Hbt.
      destruct (kw !! "barometric_trend") as [v|] eqn:E; [|discriminate].
      injection Hbt as <-. exists v. split; [reflexivity|].
      rewrite (loop_rain_amount_special_other _ _ _ _ Hrec)
        by (cbn; rewrite ?not_elem_of_cons, ?elem_of_nil; intuition discriminate).
      rewrite (loop_wind_direction_special_other _ _ _ _ Hrec1)
        by (cbn; rewrite ?not_elem_of_cons, ?elem_of_nil; intuition discriminate).
      apply lookup_insert_eq.
Qed.

Lemma attribute_names_distinct kind :
  distinct_names (attribute_map kind) (plain_field kind) = true.
Proof. destruct kind; vm_compute; reflexivity. Qed.

Lemma plain_names_avoid_post_keys kind i k f s :
  attribute_map kind !! i = Some (k, f, s) -> plain_field kind i = true ->
  remapped kind k = false -> k ∉ post_keys kind.
Proof.
  intros Ha Hp Hr.
  assert (G : forallb (fun j =>
                implb (plain_field kind j)
                  (remapped kind (entry_name (attribute_map kind) j)
                   || negb (bool_decide
                              (entry_name (attribute_map kind) j
                                 ∈ post_keys kind))))
              (seq 0 (length (attribute_map kind))) = true)
    by (destruct kind; vm_compute; reflexivity).
  rewrite forallb_forall in G.
  pose proof (lookup_lt_Some _ _ _ Ha) as Li.
  specialize (G i ltac:(apply in_seq; lia)).
  unfold entry_name in G. rewrite Ha, Hp, Hr in G. cbn in G.
  apply negb_true_iff, bool_decide_eq_false_1 in G. exact G.
Qed.

Lemma field_value_sentinel_rule (r : gmap string value) k f s v x :
  field_value f (Some s) v = Ok x -> r !! k = Some x -> sentinel_rule r k f s v.
Proof.
  unfold field_value, sentinel_rule. intros Hf Hr. split.
  - intros ->. cbn in Hf. rewrite Z.eqb_refl in Hf. congruence.
  - intros Hne. exists x. split; [|exact Hr].
    destruct v as [z|bs]; cbn in Hf.
    + destruct (Z.eqb_spec z s) as [->|_]; [contradiction|exact Hf].
    + exact Hf.
Qed.

Lemma example_frame_decodes :
  decode TelemetryFrame example_context example_frame
  = Ok (Some example_frame_record, []).
Proof. vm_compute. reflexivity. Qed.

Lemma example_frame_unpacks :
  Struct.unpack_from (record_format TelemetryFrame)
    (read (expected_length TelemetryFrame) example_frame).1
  = Ok example_frame_fields.
Proof. vm_compute. reflexivity. Qed.

(** The rule as claimed fails on the barometric trend of a telemetry frame:
    the field has sentinel 80 and transform [int], its unpacked value in the
    example frame is 20, and the decoded record holds the enumeration member
    [rising_slowly], not the integer 20. *)
Lemma sentinel_claim_fails_on_barometric_trend : ~ sentinel_claim_as_stated.
Proof.
  intros C.
  destruct (C TelemetryFrame example_context example_frame example_frame_record
              [] example_frame_fields 1%nat "barometric_trend" STRAIGHT_NUMBER
              80 (RInt 20) example_frame_decodes example_frame_unpacks
              eq_refl eq_refl eq_refl) as [_ C2].
  destruct (C2 ltac:(discriminate)) as (x & Hx & Hr).
  cbn in Hx. injection Hx as <-. vm_compute in Hr. discriminate Hr.
Qed.

(** C5 (amended). In every record a decoder returns, every sentinel-bearing
    field that is neither a verification field nor specially handled is
    absent when its unpacked value is the sentinel and otherwise holds the
    field's transform of the unpacked value; the one exception is the
    barometric trend of a telemetry frame, which post-processing maps through
    the trend enumeration: absent for the sentinel 80 and for every value
    that is not one of the five trend codes, the trend member otherwise. *)
Theorem sentinel_fields_decoded kind ctx h r h' args i k f s v :
  decode kind ctx h = Ok (Some r, h') ->
  Struct.unpack_from (record_format kind) (read (expected_length kind) h).1
    = Ok args ->
  attribute_map kind !! i = Some (k, f, Some s) ->
  plain_field kind i = true ->
  args !! i = Some v ->
  (remapped kind k = false -> sentinel_rule r k f s v)
  /\ (remapped kind k = true ->
      exists z, v = RInt z
        /\ r !! k = Some (if z =? s then VNone
                          else match BarometricTrend.of_value z with
                               | Ok b => VBarometricTrend b
                               | Raise _ => VNone
                               end)).
Proof.
  intros Hdec Hargs Ha Hp Hv.
  destruct (decode_inversion _ _ _ _ _ Hdec)
    as (args' & kw0 & kw' & U & L & P & B).
  rewrite Hargs in U. injection U as <-.
  destruct (decode_fields_spec _ _ _ _ _ i v k f (Some s)
              (attribute_names_distinct kind) L Hv Hp Ha) as (x & Hx & Hk).
  split.
  - intros Hr. apply (field_value_sentinel_rule r k f s v x Hx).
    rewrite P; [exact Hk|].
    exact (plain_names_avoid_post_keys kind i k f (Some s) Ha Hp Hr).
  - intros Hr. destruct kind; try discriminate.
    cbn in Hr. apply String.eqb_eq in Hr. subst k.
    destruct (B eq_refl) as (v' & Hv' & Hr'). rewrite Hv' in Hk.
    injection Hk as ->.
    assert (i = 1%nat /\ f = STRAIGHT_NUMBER /\ s = 80) as (-> & -> & ->).
    { clear - Ha Hp. cbn in Ha.
      do 35 (destruct i as [|i];
             [cbn in *; try discriminate; try (injection Ha; auto); fail|]).
      cbn in Ha. discriminate. }
    unfold field_value in Hx. destruct v as [z|bs]; cbn in Hx; [|discriminate].
    exists z. split; [reflexivity|]. rewrite Hr'.
    destruct (z =? 80); injection Hx as <-; reflexivity.
Qed.

Lemma sentinel_fields_decoded_witness :
  sentinel_rule example_frame_record "temperature_outside" TENTHS DASH_LARGE
    (RInt 850)
  /\ example_frame_record !! "barometric_trend"
     = Some (VBarometricTrend BarometricTrend.rising_slowly).
Proof.
  pose proof (sentinel_fields_decoded TelemetryFrame example_context
                example_frame example_frame_record [] example_frame_fields
                7%nat "temperature_outside" TENTHS DASH_LARGE (RInt 850)
                example_frame_decodes example_frame_unpacks
                eq_refl eq_refl eq_refl) as [H _].
  split; [exact (H eq_refl) | vm_compute; reflexivity].
Defined.

(* --------------------------------------------------------------------- *)
(** ** Decimal: zero                                                       *)
(* --------------------------------------------------------------------- *)

Lemma dec_div_ok_nonzero a b :
  Dec.is_zero b = false -> exists q, Dec.div a b = Ok q.
Proof.
  intros Hb. unfold Dec.div. rewrite Hb.
  destruct (Dec.is_zero a); [eauto|].
  repeat match goal with
         | |- context [let '(_, _) := ?e in _] => destruct e
         end.
  eauto.
Qed.

Lemma dec_div_zero a b :
  Dec.is_zero a = true -> Dec.is_zero b = false ->
  exists q, Dec.div a b = Ok q /\ Dec.is_zero q = true.
Proof.
  intros Ha Hb. unfold Dec.div. rewrite Hb, Ha. eexists. split; reflexivity.
Qed.

Lemma dec_add_zero a b :
  Dec.is_zero a = true -> Dec.is_zero b = true ->
  Dec.is_zero (Dec.add a b) = true.
Proof.
  unfold Dec.is_zero. rewrite !Z.eqb_eq. intros Ha Hb.
  unfold Dec.add, Dec.add_exact, Dec.align. rewrite Ha, Hb. cbn.
  reflexivity.
Qed.

Lemma dec_gtb_zero a b :
  Dec.is_zero a = true -> Dec.is_zero b = true -> Dec.gtb a b = false.
Proof.
  unfold Dec.is_zero. rewrite !Z.eqb_eq. intros Ha Hb.
  unfold Dec.gtb, Dec.ltb, Dec.compare, Dec.align. rewrite Ha, Hb. reflexivity.
Qed.

(* ===================================================================== *)
(** * Part II (continued): further properties of the code                 *)
(* ===================================================================== *)

Lemma bind_ret_Ok {A B} (a : A) (f : A -> result B) : (Ok a ≫= f) = f a.
Proof. reflexivity. Qed.

Lemma bind_Raise {A B} (e : exn) (f : A -> result B) :
  (Raise e ≫= f) = Raise e.
Proof. reflexivity. Qed.

(** A computation returns when the test for [Ok] evaluates to [true]. *)
Lemma returns_when_checked {A} (x : result A) :
  (if x is Ok _ then true else false) = true -> exists v, x = Ok v.
Proof. destruct x as [v|e]; [eauto|discriminate]. Qed.

Lemma returns_some_when_checked {A B} (x : result (option A * B)) :
  (if x is Ok (Some _, _) then true else false) = true ->
  exists a b, x = Ok (Some a, b).
Proof. destruct x as [[[a|] b]|e]; [eauto|discriminate|discriminate]. Qed.

(* --------------------------------------------------------------------- *)
(** ** Timestamp codec: the decoder's side                                 *)
(* --------------------------------------------------------------------- *)

Lemma make_fields y m d h mi dt :
  Calendar.make y m d h mi = Ok dt ->
  year dt = y /\ month dt = m /\ day dt = d /\ hour dt = h /\ minute dt = mi
  /\ second dt = 0 /\ microsecond dt = 0
  /\ Calendar.valid_date y m d = true /\ Calendar.valid_time h mi 0 0 = true.
Proof.
  intros H. apply make_inversion in H as [-> V].
  apply andb_true_iff in V as [Vd Vt]. cbn. auto 10.
Qed.

(** X1. Whatever time stamp [convert_timestamp_to_datetime] accepts,
    [convert_datetime_to_timestamp] packs the resulting date-time back into
    the same integer; so two different time stamps never decode to the same
    date-time. *)
Theorem timestamp_decode_then_encode (timestamp : Z) (d : datetime) :
  convert_timestamp_to_datetime timestamp = Ok d ->
  convert_datetime_to_timestamp (ArgDatetime d) = timestamp
  /\ forall timestamp',
       convert_timestamp_to_datetime timestamp' = Ok d ->
       timestamp' = timestamp.
Proof.
  assert (G : forall ts dt, convert_timestamp_to_datetime ts = Ok dt ->
                convert_datetime_to_timestamp (ArgDatetime dt) = ts).
  { intros ts dt H. unfold convert_timestamp_to_datetime in H.
    apply make_fields in H as (Hy & Hm & Hd & Hh & Hmi & _).
    unfold convert_datetime_to_timestamp.
    rewrite Hy, Hm, Hd, Hh, Hmi.
    set (date_part := Z.shiftr ts 16).
    set (y := int_truediv_plus date_part 512 2000).
    set (m := int_truediv_plus (date_part - (y - 2000) * 512) 32 0).
    set (time_part := ts - Z.shiftl date_part 16).
    set (h := int_truediv_plus time_part 100 0).
    replace (date_part - (y - 2000) * 512 - m * 32 + m * 32 + (y - 2000) * 512)
      with date_part by ring.
    unfold time_part. ring. }
  intros H. split; [now apply G|].
  intros ts' H'. rewrite <- (G _ _ H), <- (G _ _ H'). reflexivity.
Qed.

Lemma timestamp_decode_then_encode_witness :
  convert_datetime_to_timestamp
    (ArgDatetime (mkDatetime 2020 4 1 12 30 0 0)) = 679544014.
Proof.
  destruct (timestamp_decode_then_encode 679544014
              (mkDatetime 2020 4 1 12 30 0 0)) as [E _];
    [vm_compute; reflexivity | exact E].
Defined.

(** X2. For a non-negative time stamp (below 2^53, where the decoder's
    float quotients are exact) the decoder reads bit fields: the day
    from bits 16-20, the month from bits 21-24, the year minus 2000 from bit
    25 upwards, and hour and minute as quotient and remainder by 100 of the
    low 16 bits; it raises ValueError exactly when these do not form a
    calendar date and a time of day. *)
Theorem timestamp_decoder_reads_bit_fields (timestamp : Z) :
  0 <= timestamp < 2 ^ 53 ->
  convert_timestamp_to_datetime timestamp
  = Calendar.make (2000 + timestamp / 2 ^ 25)
                  ((timestamp / 2 ^ 21) mod 16)
                  ((timestamp / 2 ^ 16) mod 32)
                  ((timestamp mod 2 ^ 16) / 100)
                  ((timestamp mod 2 ^ 16) mod 100).
Proof.
  intros [H0 _]. unfold convert_timestamp_to_datetime.
  rewrite Z.shiftr_div_pow2, Z.shiftl_mul_pow2 by lia.
  set (dp := timestamp / 2 ^ 16).
  assert (Hdp : 0 <= dp) by (apply Z.div_pos; lia).
  assert (Etp : timestamp - dp * 2 ^ 16 = timestamp mod 2 ^ 16).
  { unfold dp. pose proof (Z.div_mod timestamp (2 ^ 16) ltac:(lia)). lia. }
  rewrite Etp. set (tp := timestamp mod 2 ^ 16).
  assert (Htp : 0 <= tp < 2 ^ 16) by (apply Z.mod_pos_bound; lia).
  assert (Ey : int_truediv_plus dp 512 2000 = 2000 + timestamp / 2 ^ 25).
  { rewrite int_truediv_plus_nonneg by lia. unfold dp.
    rewrite Z.div_div by lia. change (2 ^ 16 * 512) with (2 ^ 25). lia. }
  rewrite Ey.
  assert (E25 : timestamp / 2 ^ 25 = dp / 512).
  { unfold dp. rewrite Z.div_div by lia. reflexivity. }
  assert (Er : dp - (2000 + timestamp / 2 ^ 25 - 2000) * 512 = dp mod 512).
  { rewrite E25. pose proof (Z.div_mod dp 512 ltac:(lia)). lia. }
  rewrite Er.
  assert (Hr : 0 <= dp mod 512 < 512) by (apply Z.mod_pos_bound; lia).
  assert (Em : int_truediv_plus (dp mod 512) 32 0 = (timestamp / 2 ^ 21) mod 16).
  { rewrite int_truediv_plus_nonneg by lia. rewrite Z.add_0_r.
    replace (timestamp / 2 ^ 21) with (dp / 32)
      by (unfold dp; rewrite Z.div_div by lia; reflexivity).
    change 512 with (32 * 16). rewrite Z.rem_mul_r by lia.
    rewrite Z.mul_comm, Z.div_add by lia.
    rewrite (Z.div_small (dp mod 32)) by (apply Z.mod_pos_bound; lia). lia. }
  rewrite Em.
  assert (Ed : dp mod 512 - (timestamp / 2 ^ 21) mod 16 * 32 = dp mod 32).
  { rewrite <- Em, int_truediv_plus_nonneg, Z.add_0_r by lia.
    change 512 with (32 * 16). rewrite Z.rem_mul_r by lia.
    rewrite (Z.mul_comm 32), Z.div_add by lia.
    rewrite (Z.div_small (dp mod 32)) by (apply Z.mod_pos_bound; lia). lia. }
  rewrite Ed.
  assert (Eh : int_truediv_plus tp 100 0 = tp / 100)
    by (rewrite int_truediv_plus_nonneg by lia; lia).
  rewrite Eh.
  assert (Emi : tp - tp / 100 * 100 = tp mod 100).
  { pose proof (Z.div_mod tp 100 ltac:(lia)). lia. }
  rewrite Emi. reflexivity.
Qed.

Lemma timestamp_decoder_reads_bit_fields_witness :
  convert_timestamp_to_datetime 679544014
  = Ok (mkDatetime 2020 4 1 12 30 0 0).
Proof.
  rewrite (timestamp_decoder_reads_bit_fields 679544014); [|lia].
  vm_compute. reflexivity.
Defined.

(* --------------------------------------------------------------------- *)
(** ** Checksum: range and trailer                                         *)
(* --------------------------------------------------------------------- *)

(** X3. The checksum loop never indexes the table outside its 256 entries,
    and the checksum of any byte sequence is a 16-bit value. *)
Theorem crc_stays_in_range (data : list byte) :
  crc16 (calculate_weatherlink_crc data)
  /\ forall (prefix : list byte) (b : byte),
       0 <= crc_index (calculate_weatherlink_crc prefix) b
         < Z.of_nat (length WEATHERLINK_CRC_TABLE).
Proof.
  split.
  - unfold calculate_weatherlink_crc. apply crc_fold_range.
    unfold crc16. lia.
  - intros prefix b. change (Z.of_nat (length WEATHERLINK_CRC_TABLE)) with 256.
    apply crc_index_range.
Qed.

Lemma crc_table_entry_0 : crc_table_entry 0 = 0.
Proof. reflexivity. Qed.

Lemma crc_index_zero s b :
  crc16 s -> (crc_index s b = 0 <-> byte_val b = s / 256).
Proof.
  intros Hs. unfold crc_index, crc16 in *.
  assert (E : Z.land (Z.shiftr s 8) 255 = s / 256).
  { rewrite Z.shiftr_div_pow2 by lia. change 255 with (Z.ones 8).
    rewrite Z.land_ones by lia. change (2 ^ 8) with 256.
    apply Z.mod_small. split; [apply Z.div_pos; lia|].
    apply Z.div_lt_upper_bound; lia. }
  rewrite E. rewrite Z.lxor_eq_0_iff. split; congruence.
Qed.

(** A step ends in state 0 exactly from a state with a zero low byte, on
    the byte equal to its high byte. *)
Lemma crc_step_zero s b :
  crc16 s ->
  (crc_step s b = 0 <-> s mod 256 = 0 /\ byte_val b = s / 256).
Proof.
  intros Hs.
  assert (El : Z.land s 255 = s mod 256).
  { change 255 with (Z.ones 8). now rewrite Z.land_ones by lia. }
  split.
  - intros H.
    assert (Hi : crc_index s b = 0).
    { apply table_low_inj; [apply crc_index_range|lia|].
      rewrite <- crc_step_low, H. reflexivity. }
    rewrite crc_step_eq, Hi, crc_table_entry_0, Z.lxor_0_l in H.
    rewrite Z.shiftl_mul_pow2, El in H by lia.
    split; [lia|]. now apply crc_index_zero.
  - intros [Hl Hb]. apply (crc_index_zero s b Hs) in Hb.
    rewrite crc_step_eq, Hb, crc_table_entry_0, Z.lxor_0_l, El, Hl.
    reflexivity.
Qed.

Lemma crc_step_low_zero s b :
  crc16 s -> (crc_step s b mod 256 = 0 <-> byte_val b = s / 256).
Proof.
  intros Hs.
  assert (El : forall x, Z.land x 255 = x mod 256).
  { intros x. change 255 with (Z.ones 8). now rewrite Z.land_ones by lia. }
  rewrite <- El, crc_step_low, <- (crc_index_zero s b Hs). split.
  - intros H. apply table_low_inj; [apply crc_index_range|lia|].
    rewrite H. reflexivity.
  - intros ->. reflexivity.
Qed.

Lemma crc_trailer (data : list byte) (hi lo : byte) :
  calculate_weatherlink_crc (data ++ [hi; lo]) = 0
  <-> byte_val hi = calculate_weatherlink_crc data / 256
      /\ byte_val lo = calculate_weatherlink_crc data mod 256.
Proof.
  unfold calculate_weatherlink_crc. rewrite fold_left_app. cbn [fold_left].
  set (c := fold_left crc_step data 0).
  assert (Hc : crc16 c) by (apply crc_fold_range; unfold crc16; lia).
  pose proof (crc_step_range c hi) as Hs.
  rewrite (crc_step_zero _ lo Hs), (crc_step_low_zero c hi Hc).
  assert (El : Z.land c 255 = c mod 256).
  { change 255 with (Z.ones 8). now rewrite Z.land_ones by lia. }
  split.
  - intros [Hhi Hlo]. split; [exact Hhi|].
    apply (crc_index_zero c hi Hc) in Hhi.
    rewrite crc_step_eq, Hhi, crc_table_entry_0, Z.lxor_0_l, El in Hlo.
    rewrite Hlo, Z.shiftl_mul_pow2 by lia. change (2 ^ 8) with 256.
    rewrite Z.div_mul by lia. reflexivity.
  - intros [Hhi Hlo]. split; [exact Hhi|].
    apply (crc_index_zero c hi Hc) in Hhi.
    rewrite crc_step_eq, Hhi, crc_table_entry_0, Z.lxor_0_l, El.
    rewrite Hlo, Z.shiftl_mul_pow2 by lia. change (2 ^ 8) with 256.
    rewrite Z.div_mul by lia. reflexivity.
Qed.

(** X4. A byte sequence followed by two more bytes has checksum 0 exactly
    when those two bytes are the checksum of the sequence, high byte
    first. *)
Theorem crc_zero_iff_trailer_is_crc (data : list byte) (hi lo : byte) :
  calculate_weatherlink_crc (data ++ [hi; lo]) = 0
  <-> byte_val hi = calculate_weatherlink_crc data / 256
      /\ byte_val lo = calculate_weatherlink_crc data mod 256.
Proof. apply crc_trailer. Qed.

(* --------------------------------------------------------------------- *)
(** ** The header of an archive file                                       *)
(* --------------------------------------------------------------------- *)

Lemma take_drop_of_take {A} (l : list A) (i n m : nat) :
  (i + n <= m)%nat -> take n (drop i (take m l)) = take n (drop i l).
Proof.
  intros H. rewrite !take_drop_commute, take_take.
  now rewrite Nat.min_l by lia.
Qed.

Lemma day_index_load (h : handle) :
  DayIndex.load_from_wlk h
  = if (length h <? 6)%nat then Raise StructError
    else Ok (DayIndex.mk (Struct.signed_le (take 2 h))
                         (Struct.signed_le (take 4 (drop 2 h))),
             drop 6 h).
Proof.
  unfold DayIndex.load_from_wlk, read, Struct.unpack_from.
  change (Struct.calcsize DayIndex.DAY_INDEX_FORMAT) with 6%nat.
  unfold DayIndex.DAY_INDEX_LENGTH. rewrite length_take.
  destruct (Nat.ltb_spec (length h) 6) as [L|G].
  - destruct (Nat.ltb_spec (6 `min` length h) 6); [reflexivity|lia].
  - destruct (Nat.ltb_spec (6 `min` length h) 6); [lia|].
    rewrite bind_ret_Ok.
    cbn [Struct.unpack_items Struct.unpack_repeat Struct.code_size
         Struct.unpack_one Struct.is_signed app DayIndex.DAY_INDEX_FORMAT].
    rewrite take_take, (take_drop_of_take h 2 4 6) by lia.
    reflexivity.
Qed.

Lemma day_indexes_load (n : nat) : forall (h : handle),
  Header.load_day_indexes n h
  = if (length h <? 6 * n)%nat then Raise StructError
    else Ok (map (fun i => DayIndex.mk
                             (Struct.signed_le (take 2 (drop (6 * i) h)))
                             (Struct.signed_le (take 4 (drop (2 + 6 * i) h))))
               (seq 0 n),
             drop (6 * n) h).
Proof.
  induction n as [|n IH]; intros h.
  - cbn. now rewrite drop_0.
  - cbn [Header.load_day_indexes]. rewrite day_index_load.
    destruct (Nat.ltb_spec (length h) 6) as [L|G].
    + rewrite bind_Raise.
      destruct (Nat.ltb_spec (length h) (6 * S n)); [reflexivity|lia].
    + rewrite bind_ret_Ok. cbn [fst snd]. rewrite IH, length_drop.
      destruct (Nat.ltb_spec (length h - 6) (6 * n)) as [L'|G'].
      * rewrite bind_Raise.
        destruct (Nat.ltb_spec (length h) (6 * S n)); [reflexivity|lia].
      * destruct (Nat.ltb_spec (length h) (6 * S n)); [lia|].
        rewrite bind_ret_Ok. cbn [fst snd].
        rewrite drop_drop. replace (6 + 6 * n)%nat with (6 * S n)%nat by lia.
        f_equal. f_equal. cbn [seq map]. f_equal.
        rewrite <- seq_shift, map_map. apply map_ext. intros i.
        rewrite !drop_drop. f_equal; do 3 f_equal; lia.
Qed.

Lemma header_load (file : handle) :
  Header.load_from_wlk file
  = if (length file <? 212)%nat then Raise StructError
    else Ok (header_of_bytes file, drop 212 file).
Proof.
  unfold Header.load_from_wlk, read, Struct.unpack_from.
  change (Struct.calcsize Header.VERSION_CODE_AND_COUNT_FORMAT) with 20%nat.
  unfold Header.VERSION_CODE_AND_COUNT_LENGTH. rewrite length_take.
  destruct (Nat.ltb_spec (20 `min` length file) 20) as [L|G].
  - destruct (Nat.ltb_spec (length file) 212); [reflexivity|lia].
  - rewrite bind_ret_Ok, day_indexes_load, length_drop.
    destruct (Nat.ltb_spec (length file - 20) (6 * 32)) as [L'|G'].
    + destruct (Nat.ltb_spec (length file) 212); [reflexivity|lia].
    + destruct (Nat.ltb_spec (length file) 212); [lia|].
      rewrite bind_ret_Ok. cbn [fst snd].
      cbn [Struct.unpack_items Struct.unpack_repeat Struct.code_size
           Struct.unpack_one Struct.is_signed app lookup list_lookup].
      rewrite drop_drop. change (20 + 6 * 32)%nat with 212%nat.
      unfold header_of_bytes. f_equal. f_equal. f_equal.
      * now rewrite take_take.
      * cbn [Struct.code_size Struct.unpack_one Struct.is_signed].
        now rewrite (take_drop_of_take file 16 4 20) by lia.
      * apply map_ext. intros i. unfold day_index_at.
        rewrite !drop_drop. f_equal; do 3 f_equal; lia.
Qed.

(** X5. [Header.load_from_wlk] needs 212 bytes: on a shorter file it raises
    struct.error; otherwise it returns the version code (16 bytes), the
    record count (little-endian, signed, bytes 16-19) and 32 day indexes of
    six bytes each (a signed 16-bit record count and a signed 32-bit start
    index), and leaves the file positioned after byte 212. *)
Theorem header_is_first_212_bytes (file : handle) :
  Header.load_from_wlk file
  = if (length file <? 212)%nat then Raise StructError
    else Ok (header_of_bytes file, drop 212 file).
Proof. apply header_load. Qed.

(* --------------------------------------------------------------------- *)
(** ** The record decoders read one record and nothing else                *)
(* --------------------------------------------------------------------- *)

(** [run_binds]: case analysis on the first computation of every bind of
    the goal, in all its occurrences at once. *)
Ltac run_binds :=
  repeat first
    [ progress (rewrite ?bind_ret_Ok, ?bind_Raise; cbv beta zeta)
    | match goal with
      | |- context [mbind _ ?e] =>
          lazymatch e with
          | Ok _ => fail
          | Raise _ => fail
          | mbind _ _ => fail
          | (if ?c then _ else _) => destruct c
          | _ => destruct e
          end
      end ].

Lemma unpack_from_length f buf args :
  Struct.unpack_from f buf = Ok args -> (Struct.calcsize f <= length buf)%nat.
Proof.
  unfold Struct.unpack_from.
  destruct (Nat.ltb_spec (length buf) (Struct.calcsize f)); [discriminate|].
  intros _. assumption.
Qed.

Lemma decode_needs_length k ctx h o h' :
  decode k ctx h = Ok (o, h') -> (expected_length k <= length h)%nat.
Proof.
  intros H.
  assert (G : exists args,
             Struct.unpack_from (record_format k)
               (read (expected_length k) h).1 = Ok args).
  { destruct k; cbn [decode] in H.
    - step H as p Hp. unfold DailySummary.load_from_wlk, read in Hp.
      step Hp as args Hargs. eauto.
    - step H as p Hp. unfold ArchiveIntervalRecord.load_from_wlk, read in Hp.
      step Hp as args Hargs. eauto.
    - unfold ArchiveIntervalRecord.load_from_download, read in H.
      step H as args Hargs. eauto.
    - step H as p Hp. unfold LoopRecord._get_loop_2_arguments, read in Hp.
      step Hp as args Hargs. eauto. }
  destruct G as [args G]. apply unpack_from_length in G.
  rewrite calcsize_expected in G. unfold read in G. cbn [fst] in G.
  rewrite length_take in G. lia.
Qed.


Ltac finish_decoder :=
  repeat match goal with
         | |- context [if ?c then _ else _] => destruct c
         end;
  try (intros [= <- <-]; split; reflexivity);
  try (intros; discriminate).

Lemma decode_app k ctx (buf : list byte) :
  length buf = expected_length k ->
  forall rest t o h',
    decode k ctx (buf ++ rest) = Ok (o, h') ->
    h' = rest /\ decode k ctx (buf ++ t) = Ok (o, t).
Proof.
  intros L rest t o h'.
  destruct k; cbn [decode expected_length] in *;
    unfold DailySummary.load_from_wlk, ArchiveIntervalRecord.load_from_wlk,
      ArchiveIntervalRecord.load_from_download,
      LoopRecord._get_loop_2_arguments, read;
    rewrite !take_app_length', !drop_app_length' by (symmetry; exact L);
    run_binds; finish_decoder.
Qed.

Lemma decode_position k ctx (h : handle) o h' :
  decode k ctx h = Ok (o, h') ->
  (expected_length k <= length h)%nat /\ h' = drop (expected_length k) h.
Proof.
  intros H. pose proof (decode_needs_length _ _ _ _ _ H) as L.
  assert (Lb : length (take (expected_length k) h) = expected_length k)
    by (rewrite length_take; lia).
  rewrite <- (take_drop (expected_length k) h) in H at 1.
  split; [exact L|]. exact (proj1 (decode_app k ctx _ Lb _ [] _ _ H)).
Qed.

(** X6. Each of the four record decoders, when it returns, has read exactly
    the record length of its kind (176, 88, 52 or 99 bytes), and its result
    does not depend on the bytes that follow the record. *)
Theorem decoder_reads_one_record k ctx (h : handle) o h' :
  decode k ctx h = Ok (o, h') ->
  (expected_length k <= length h)%nat
  /\ h' = drop (expected_length k) h
  /\ forall t : handle,
       decode k ctx (take (expected_length k) h ++ t) = Ok (o, t).
Proof.
  intros H. pose proof (decode_needs_length _ _ _ _ _ H) as L.
  assert (Lb : length (take (expected_length k) h) = expected_length k)
    by (rewrite length_take; lia).
  rewrite <- (take_drop (expected_length k) h) in H at 1.
  split; [exact L|]. split.
  - exact (proj1 (decode_app k ctx _ Lb _ [] _ _ H)).
  - intros t. exact (proj2 (decode_app k ctx _ Lb _ t _ _ H)).
Qed.

Lemma decoder_reads_one_record_witness :
  decode TelemetryFrame example_context (example_frame ++ [x2a; x2b])
  = Ok (Some example_frame_record, [x2a; x2b]).
Proof.
  destruct (decoder_reads_one_record TelemetryFrame example_context
              example_frame (Some example_frame_record) []
              example_frame_decodes) as (_ & _ & T).
  exact (T [x2a; x2b]).
Defined.

(* --------------------------------------------------------------------- *)
(** ** Importer.import_data                                                *)
(* --------------------------------------------------------------------- *)

Lemma daily_summary_reads h y m d r h' :
  DailySummary.load_from_wlk h y m d = Ok (r, h') ->
  (176 <= length h)%nat /\ h' = drop 176 h.
Proof.
  intros H.
  assert (G : decode DailySummaryRecord (mkContext y m d VNone) h
              = Ok (Some r, h')) by (cbn [decode ctx_year ctx_month ctx_day]; rewrite H; reflexivity).
  apply decode_position in G as (L & E). auto.
Qed.

Lemma interval_record_reads h y m d r h' :
  ArchiveIntervalRecord.load_from_wlk h y m d = Ok (r, h') ->
  (88 <= length h)%nat /\ h' = drop 88 h.
Proof.
  intros H.
  assert (G : decode StoredIntervalRecord (mkContext y m d VNone) h
              = Ok (Some r, h')) by (cbn [decode ctx_year ctx_month ctx_day]; rewrite H; reflexivity).
  apply decode_position in G as (L & E). auto.
Qed.

Section ImportLoop.
Variables year month : Z.

(** Iterations after the first one of a day read interval records. *)
Lemma load_interval_slots day : forall rs st h st' h',
  Forall (fun r => r <> 0%nat) rs ->
  Importer.load_slots year month day rs (st, h) = Ok (st', h') ->
  (88 * length rs <= length h)%nat
  /\ h' = drop (88 * length rs) h
  /\ Importer.daily_summaries st' = Importer.daily_summaries st
  /\ exists new,
       length new = length rs
       /\ Importer.records st' = Importer.records st ++ new
       /\ Importer.daily_records st'
          = match rs with
            | [] => Importer.daily_records st
            | _ => <[day := default [] (Importer.daily_records st !! day)
                              ++ new]> (Importer.daily_records st)
            end.
Proof.
  induction rs as [|r rs IH]; intros st h st' h' Hnz H; cbn in H.
  - injection H as <- <-. rewrite drop_0. repeat split; [cbn; lia|].
    exists []. now rewrite app_nil_r.
  - apply Forall_cons in Hnz as [Hr Hrs].
    step H as st1 Hst1. unfold Importer.load_slot in Hst1.
    destruct (Nat.eqb_spec r 0) as [?|_]; [contradiction|].
    step Hst1 as p Hp. cbn [fst snd] in Hp, Hst1. destruct p as [rec h1].
    apply interval_record_reads in Hp as [L1 ->].
    injection Hst1 as <-. cbn [fst snd] in H.
    apply IH in H as (L2 & -> & S & new & Ln & R & DR); [|exact Hrs].
    cbn [Importer.daily_summaries Importer.records Importer.daily_records]
      in *.
    rewrite length_drop in L2. cbn [length].
    split; [lia|]. split; [rewrite drop_drop; f_equal; lia|].
    split; [exact S|]. exists (rec :: new).
    split; [cbn; lia|]. split; [rewrite R, <- (assoc_L (++)); reflexivity|].
    rewrite DR. destruct rs as [|r' rs'].
    + destruct new; [reflexivity|discriminate].
    + rewrite lookup_insert_eq. cbn [default from_option id].
      rewrite insert_insert_eq, <- (assoc_L (++)). reflexivity.
Qed.

Lemma seq_nonzero k n : Forall (fun r => r <> 0%nat) (seq (S k) n).
Proof. apply Forall_forall. intros r Hr. apply elem_of_seq in Hr. lia. Qed.

(** One day: a daily summary, then the interval records. *)
Lemma load_day_spec (day : nat) di st h st' h' :
  Importer.load_day year month day di (st, h) = Ok (st', h') ->
  let n := if (0 <? day)%nat then day_slots di else 0%nat in
  (slots_length n <= length h)%nat
  /\ h' = drop (slots_length n) h
  /\ exists new,
       length new = pred n
       /\ Importer.records st' = Importer.records st ++ new
       /\ Importer.daily_records st'
          = match new with
            | [] => Importer.daily_records st
            | _ => <[Z.of_nat day :=
                       default [] (Importer.daily_records st !! Z.of_nat day)
                       ++ new]> (Importer.daily_records st)
            end
       /\ Importer.daily_summaries st'
          = match n with
            | O => Importer.daily_summaries st
            | S _ => <[Z.of_nat day :=
                         default ∅ (Importer.daily_summaries st'
                                      !! Z.of_nat day)]>
                       (Importer.daily_summaries st)
            end.
Proof.
  unfold Importer.load_day. fold (day_slots di).
  destruct (0 <? day)%nat.
  2:{ intros [= <- <-]. cbn. rewrite drop_0. split; [lia|]. split; [easy|].
      exists []. now rewrite app_nil_r. }
  cbv zeta. destruct (day_slots di) as [|k].
  { intros [= <- <-]. cbn. rewrite drop_0. split; [lia|]. split; [easy|].
    exists []. now rewrite app_nil_r. }
  cbn [seq Importer.load_slots]. intros H.
  step H as st1 Hst1. unfold Importer.load_slot in Hst1. cbn [Nat.eqb] in Hst1.
  step Hst1 as p Hp. cbn [fst snd] in Hp, Hst1. destruct p as [s h1].
  apply daily_summary_reads in Hp as [L1 ->].
  injection Hst1 as <-.
  apply load_interval_slots in H as (L2 & -> & S & new & Ln & R & DR);
    [|apply seq_nonzero].
  cbn [Importer.daily_summaries Importer.records Importer.daily_records
       fst snd] in *.
  rewrite length_drop, length_seq in L2. rewrite length_seq in Ln.
  rewrite length_seq. cbn [slots_length pred].
  split; [lia|]. split; [rewrite drop_drop; f_equal; lia|].
  exists new. split; [exact Ln|]. split; [exact R|]. split.
  - rewrite DR. destruct k; destruct new; try discriminate; reflexivity.
  - rewrite S, lookup_insert_eq. reflexivity.
Qed.

Lemma load_days_spec : forall dis (day : nat) st h st' h',
  (0 < day)%nat ->
  Importer.load_days year month day dis (st, h) = Ok (st', h') ->
  (forall d, (day <= d)%nat ->
     Importer.daily_records st !! Z.of_nat d = None
     /\ Importer.daily_summaries st !! Z.of_nat d = None) ->
  (sum_list (map day_length dis) <= length h)%nat
  /\ h' = drop (sum_list (map day_length dis)) h
  /\ Importer.records st'
     = Importer.records st
       ++ concat (map (fun d => default []
                                 (Importer.daily_records st' !! Z.of_nat d))
                    (seq day (length dis)))
  /\ (forall i di, dis !! i = Some di ->
        length (default []
                  (Importer.daily_records st' !! Z.of_nat (day + i)))
        = day_records di
        /\ (is_Some (Importer.daily_summaries st' !! Z.of_nat (day + i))
            <-> 2 <= DayIndex.record_count di))
  /\ (forall key, (forall i, (i < length dis)%nat -> key <> Z.of_nat (day + i)) ->
        Importer.daily_records st' !! key = Importer.daily_records st !! key
        /\ Importer.daily_summaries st' !! key
           = Importer.daily_summaries st !! key).
Proof.
  induction dis as [|di dis IH]; intros day st h st' h' Hday H Hpre.
  - cbn in H. injection H as <- <-. cbn. rewrite drop_0, app_nil_r.
    split; [lia|]. split; [easy|]. split; [easy|]. split; [|easy].
    intros i di Hi. discriminate.
  - cbn [Importer.load_days] in H. step H as st1 Hst1.
    destruct st1 as [st1 h1].
    apply load_day_spec in Hst1 as (L1 & -> & new & Ln & R1 & DR1 & DS1).
    assert (Ed : (0 <? day)%nat = true) by (apply Nat.ltb_lt; lia).
    rewrite Ed in *. fold (day_length di) in *.
    destruct (Hpre day ltac:(lia)) as [Pdr Pds].
    assert (DR1' : Importer.daily_records st1 !! Z.of_nat day
                   = match new with [] => None | _ => Some new end
                   /\ forall key, key <> Z.of_nat day ->
                        Importer.daily_records st1 !! key
                        = Importer.daily_records st !! key).
    { rewrite DR1. destruct new.
      - split; [exact Pdr|reflexivity].
      - rewrite Pdr. cbn [default from_option id app].
        split; [apply lookup_insert_eq|].
        intros key Hk. now apply lookup_insert_ne. }
    assert (DS1' : (is_Some (Importer.daily_summaries st1 !! Z.of_nat day)
                    <-> (0 < day_slots di)%nat)
                   /\ forall key, key <> Z.of_nat day ->
                        Importer.daily_summaries st1 !! key
                        = Importer.daily_summaries st !! key).
    { rewrite DS1. destruct (day_slots di).
      - split; [|reflexivity]. rewrite Pds. split; [intros []; discriminate|lia].
      - split.
        + rewrite lookup_insert_eq. split; [lia|eauto].
        + intros key Hk. now apply lookup_insert_ne. }
    clear DR1 DS1. destruct DR1' as [DRd DRo]. destruct DS1' as [DSd DSo].
    apply IH in H as (L2 & -> & R2 & Per & Oth); [|lia|].
    2:{ intros d Hd. rewrite DRo, DSo by lia. apply Hpre. lia. }
    rewrite length_drop in L2.
    assert (Keep : Importer.daily_records st' !! Z.of_nat day
                   = Importer.daily_records st1 !! Z.of_nat day
                   /\ Importer.daily_summaries st' !! Z.of_nat day
                      = Importer.daily_summaries st1 !! Z.of_nat day).
    { apply Oth. intros i Hi. lia. }
    destruct Keep as [Kdr Kds].
    assert (Enew : default [] (Importer.daily_records st' !! Z.of_nat day)
                   = new).
    { rewrite Kdr, DRd. now destruct new. }
    cbn [map sum_list_with sum_list length seq concat id].
    split; [lia|]. split; [rewrite drop_drop; reflexivity|]. split.
    { rewrite R2, R1, Enew, <- (assoc_L (++)). reflexivity. }
    split.
    { intros [|i] di' Hi; cbn in Hi.
      - injection Hi as <-. rewrite Nat.add_0_r, Enew, Kds.
        split; [exact Ln|]. rewrite DSd. unfold day_slots. lia.
      - replace (day + S i)%nat with (S day + i)%nat by lia.
        now apply Per. }
    intros key Hk.
    destruct (Oth key) as [O1 O2].
    { intros i Hi. replace (S day + i)%nat with (day + S i)%nat by lia.
      apply Hk. cbn. lia. }
    rewrite O1, O2. split; [apply DRo|apply DSo];
      specialize (Hk 0%nat ltac:(cbn; lia)); now rewrite Nat.add_0_r in Hk.
Qed.

End ImportLoop.

(** X7. [import_data], when it returns, has read the 212-byte header and
    then, for each of the days 1 to 31 in turn, as many 88-byte slots as
    the day's index entry counts when that is at least two (a daily summary
    of two slots, then interval records) and nothing otherwise; entry 0 and
    the start indexes are not used.  [records] is the concatenation of the
    per-day lists of [daily_records] in day order, and a daily summary is
    stored exactly for the days that count at least two slots. *)
Theorem import_follows_day_indexes (year month : Z) (file : handle)
    (hd : Header.t) (dat : Importer.data) (rest : handle) :
  Importer.import_data year month file = Ok (hd, dat, rest) ->
  hd = header_of_bytes file
  /\ (212 + body_length (Header.day_indexes hd) <= length file)%nat
  /\ rest = drop (212 + body_length (Header.day_indexes hd)) file
  /\ Importer.records dat
     = concat (map (fun day => default []
                                (Importer.daily_records dat !! Z.of_nat day))
                 (seq 1 31))
  /\ forall (day : nat) (di : DayIndex.t),
       (1 <= day)%nat -> Header.day_indexes hd !! day = Some di ->
       length (default [] (Importer.daily_records dat !! Z.of_nat day))
       = day_records di
       /\ (is_Some (Importer.daily_summaries dat !! Z.of_nat day)
           <-> 2 <= DayIndex.record_count di).
Proof.
  unfold Importer.import_data. intros H.
  step H as p Hp. step H as st Hst. injection H as <- <- <-.
  rewrite header_load in Hp.
  destruct (Nat.ltb_spec (length file) 212) as [?|L0]; [discriminate|].
  injection Hp as <-. cbn [fst snd] in *.
  split; [reflexivity|].
  destruct st as [st h'].
  remember (Header.day_indexes (header_of_bytes file)) as dis eqn:Edis.
  assert (Ldis : length dis = 32%nat)
    by (rewrite Edis; cbn [header_of_bytes Header.day_indexes];
        now rewrite length_map, length_seq).
  destruct dis as [|d0 dis]; [discriminate|].
  cbn [Importer.load_days] in Hst. unfold Importer.load_day in Hst.
  cbn [Nat.ltb Nat.leb] in Hst. rewrite bind_ret_Ok in Hst.
  apply load_days_spec in Hst as (L & E & R & Per & _); [|lia|].
  2:{ intros d _. cbn. now rewrite !lookup_empty. }
  cbn [length] in Ldis.
  assert (Ld : length dis = 31%nat) by lia.
  rewrite length_drop in L. unfold body_length. cbn [drop fst snd].
  rewrite drop_0.
  split; [lia|]. split; [rewrite E, drop_drop; reflexivity|]. split.
  - rewrite R, Ld. reflexivity.
  - intros [|day] di Hday Hdi; [lia|]. cbn in Hdi.
    apply (Per day di Hdi).
Qed.

Lemma example_wlk_file_imports :
  Importer.import_data 2020 4 example_wlk_file
  = Ok (example_wlk_import.1.1, example_wlk_import.1.2, example_wlk_import.2).
Proof.
  destruct (returns_when_checked
              (Importer.import_data 2020 4 example_wlk_file))
    as [[[hd dat] rest] E]; [vm_compute; reflexivity|].
  unfold example_wlk_import. rewrite E. reflexivity.
Qed.

Lemma import_follows_day_indexes_witness :
  length (Importer.records example_wlk_import.1.2) = 1%nat
  /\ example_wlk_import.2 = [].
Proof.
  destruct (import_follows_day_indexes 2020 4 example_wlk_file
              example_wlk_import.1.1 example_wlk_import.1.2
              example_wlk_import.2 example_wlk_file_imports)
    as (Eh & _ & Er & _ & Per).
  split.
  - vm_compute. reflexivity.
  - rewrite Er, Eh. vm_compute. reflexivity.
Defined.

(* --------------------------------------------------------------------- *)
(** ** What the decoded records hold                                       *)
(* --------------------------------------------------------------------- *)

Ltac lookup_inserts :=
  repeat first
    [ rewrite lookup_insert_eq
    | rewrite lookup_insert_ne by discriminate ].

Lemma not_in_pairs (key : string) (pairs : list (string * string)) :
  forallb (fun p => negb (String.eqb p.2 key)) pairs = true ->
  key ∉ pairs.*2.
Proof.
  intros H Hin. apply list_elem_of_fmap in Hin as (p & -> & Hp).
  rewrite forallb_forall in H.
  specialize (H p ltac:(now apply list_elem_of_In)).
  now rewrite String.eqb_refl in H.
Qed.

(** A key that is not the name of any attribute is not touched by the
    field loop. *)
Lemma decode_fields_fresh amap keep args kw kw' (key : string) :
  decode_fields amap keep 0 args kw = Ok kw' ->
  forallb (fun a => negb (String.eqb a.1.1 key)) amap = true ->
  kw' !! key = kw !! key.
Proof.
  intros H F. apply (decode_fields_other amap keep args 0%nat kw kw' key H).
  intros j k f s _ _ Ha ->. rewrite forallb_forall in F.
  specialize (F (key, f, s)).
  rewrite String.eqb_refl in F. cbn in F.
  assert (In (key, f, s) amap)
    by (apply list_elem_of_In; eapply list_elem_of_lookup_2; exact Ha).
  now specialize (F H0).
Qed.

(** The time stamp of a representable date-time decodes to it. *)
Lemma encode_then_decode (d : datetime) :
  representable d ->
  convert_timestamp_to_datetime
    (convert_datetime_to_timestamp (ArgDatetime d)) = Ok d.
Proof.
  intros (Hv & Hy & Hs & Hus).
  pose proof (valid_bounds d Hv) as (By & Bm & Bd & Bh & Bmi).
  cbn [convert_datetime_to_timestamp].
  unfold convert_timestamp_to_datetime. rewrite Z.shiftl_mul_pow2 by lia.
  set (dp := day d + month d * 32 + (year d - 2000) * 512).
  set (tp := minute d + hour d * 100).
  assert (Hdp : Z.shiftr (dp * 2 ^ 16 + tp) 16 = dp).
  { rewrite Z.shiftr_div_pow2 by lia.
    rewrite Z.add_comm, Z.div_add by lia.
    rewrite Z.div_small; unfold tp; lia. }
  rewrite Hdp. rewrite Z.shiftl_mul_pow2 by lia.
  replace (dp * 2 ^ 16 + tp - dp * 2 ^ 16) with tp by lia.
  assert (Hyear : int_truediv_plus dp 512 2000 = year d).
  { rewrite int_truediv_plus_nonneg by (unfold dp; lia).
    unfold dp. rewrite Z.div_add by lia.
    rewrite Z.div_small by lia. lia. }
  rewrite Hyear.
  assert (Hmonth : int_truediv_plus (dp - (year d - 2000) * 512) 32 0
                   = month d).
  { rewrite int_truediv_plus_nonneg by (unfold dp; lia).
    unfold dp.
    replace (day d + month d * 32 + (year d - 2000) * 512
             - (year d - 2000) * 512)
      with (day d + month d * 32) by lia.
    rewrite Z.div_add by lia.
    rewrite Z.div_small by lia. lia. }
  rewrite Hmonth.
  assert (Hhour : int_truediv_plus tp 100 0 = hour d).
  { rewrite int_truediv_plus_nonneg by (unfold tp; lia).
    unfold tp. rewrite Z.div_add by lia. rewrite Z.div_small by lia. lia. }
  rewrite Hhour.
  replace (dp - (year d - 2000) * 512 - month d * 32) with (day d)
    by (unfold dp; lia).
  replace (tp - hour d * 100) with (minute d) by (unfold tp; lia).
  rewrite make_valid by (unfold Calendar.valid in Hv; now rewrite Hs, Hus in Hv).
  clear - Hs Hus. destruct d; cbn in *. now rewrite Hs, Hus.
Qed.

Lemma example_interval_loads :
  ArchiveIntervalRecord.load_from_wlk example_interval_bytes 2020 4 1
  = Ok (example_interval_record, []).
Proof.
  destruct (returns_when_checked
              (ArchiveIntervalRecord.load_from_wlk example_interval_bytes
                 2020 4 1)) as [[r h'] E]; [vm_compute; reflexivity|].
  unfold example_interval_record. rewrite E. cbn [fst]. do 2 f_equal.
  assert (D : decode StoredIntervalRecord (mkContext 2020 4 1 (VInt 5))
                example_interval_bytes = Ok (Some r, h'))
    by (cbn [decode ctx_year ctx_month ctx_day]; now rewrite E).
  apply decode_position in D as [_ ->]. reflexivity.
Qed.

(** The telemetry-frame decoder is [load_loop_2_from_connection]. *)
Lemma decode_telemetry_frame ctx (h : handle) r h' :
  decode TelemetryFrame ctx h = Ok (Some r, h') ->
  LoopRecord.load_loop_2_from_connection h = Ok (r, h').
Proof.
  cbn [decode]. unfold LoopRecord.load_loop_2_from_connection.
  destruct (LoopRecord._get_loop_2_arguments h) as [[r0 h0]|e];
    [|discriminate].
  rewrite bind_ret_Ok. cbn [fst snd]. now intros [= -> ->].
Qed.

Lemma example_frame_loads :
  LoopRecord.load_loop_2_from_connection example_frame
  = Ok (example_frame_record, []).
Proof. exact (decode_telemetry_frame _ _ _ _ example_frame_decodes). Qed.

Lemma unpack_from_items f buf args :
  Struct.unpack_from f buf = Ok args -> args = Struct.unpack_items f buf.
Proof.
  unfold Struct.unpack_from. destruct (_ <? _)%nat; [discriminate|].
  now intros [= <-].
Qed.

(** The third unpacked item of a stored interval record is the signed
    16-bit word at bytes 4 and 5. *)
Lemma stored_item_2 (buf : list byte) :
  Struct.unpack_items ArchiveIntervalRecord.RECORD_FORMAT_WLK buf !! 2%nat
  = Some (RInt (Struct.signed_le (take 2 (drop 4 buf)))).
Proof.
  unfold ArchiveIntervalRecord.RECORD_FORMAT_WLK.
  cbn [Struct.unpack_items Struct.unpack_repeat Struct.code_size
       Struct.unpack_one Struct.is_signed app lookup list_lookup].
  rewrite !drop_drop. reflexivity.
Qed.

(** X8. A record read by [ArchiveIntervalRecord.load_from_wlk] holds as
    [minutes_past_midnight] the third unpacked item, the signed 16-bit
    little-endian word at bytes 4 and 5 of the record, as [date] the
    midnight of the given day plus that many minutes, and as [timestamp]
    the packed form of that date; when the date is a calendar date of year
    2000 or later, decoding the time stamp gives the date again. *)
Theorem stored_record_date_and_timestamp
    (h : handle) (y m d : Z) (r : gmap string value) (h' : handle) :
  ArchiveIntervalRecord.load_from_wlk h y m d = Ok (r, h') ->
  exists args minutes midnight date,
    Struct.unpack_from ArchiveIntervalRecord.RECORD_FORMAT_WLK (take 88 h)
      = Ok args
    /\ args !! 2%nat = Some (RInt minutes)
    /\ minutes = Struct.signed_le (take 2 (drop 4 h))
    /\ r !! "minutes_past_midnight" = Some (VInt minutes)
    /\ Calendar.make y m d 0 0 = Ok midnight
    /\ Calendar.add_minutes midnight minutes = Ok date
    /\ r !! "date" = Some (VDatetime date)
    /\ r !! "timestamp"
       = Some (VInt (convert_datetime_to_timestamp (ArgDatetime date)))
    /\ (Calendar.valid date = true -> 2000 <= year date ->
        convert_timestamp_to_datetime
          (convert_datetime_to_timestamp (ArgDatetime date)) = Ok date).
Proof.
  intros H. unfold ArchiveIntervalRecord.load_from_wlk, read in H.
  step H as args Hargs. step H as u Hu. step H as kw Hkw.
  step H as rain_code E1. step H as rain_rate E2. step H as rct E3.
  step H as rec Hrec. step H as midnight E4. step H as mpm E5.
  step H as date E6. injection H as <- <-.
  destruct mpm as [|minutes| | | | | | | | |]; try discriminate.
  unfold getitem in E5.
  destruct (rec !! "minutes_past_midnight") as [v|] eqn:E; [|discriminate].
  injection E5 as ->.
  (* the field loop stored item 2 under this name *)
  pose proof (unpack_from_items _ _ _ Hargs) as Ea.
  pose proof (stored_item_2 (take ArchiveIntervalRecord.RECORD_LENGTH_WLK h))
    as I2.
  rewrite <- Ea in I2.
  destruct (decode_fields_spec ArchiveIntervalRecord.RECORD_ATTRIBUTE_MAP_WLK
              ArchiveIntervalRecord.keep_wlk args ∅ kw 2 _
              "minutes_past_midnight" STRAIGHT_NUMBER None
              (attribute_names_distinct StoredIntervalRecord) Hkw I2
              eq_refl eq_refl) as (x & Hx & Kx).
  cbn in Hx. injection Hx as <-.
  assert (W : rec !! "minutes_past_midnight"
              = kw !! "minutes_past_midnight").
  { rewrite (wind_direction_special_other _ _ _ "minutes_past_midnight" Hrec)
      by (apply not_in_pairs; reflexivity).
    now lookup_inserts. }
  pose proof E as Er. rewrite W, Kx in E. injection E as E.
  exists args, minutes, midnight, date.
  split; [exact Hargs|].
  split; [rewrite I2; do 2 f_equal; first [exact E|symmetry; exact E]|].
  split.
  { transitivity (Struct.signed_le (take 2 (drop 4 (take 88 h))));
      [first [exact E|symmetry; exact E]|].
    now rewrite (take_drop_of_take h 4 2 88) by lia. }
  lookup_inserts. repeat split; try assumption.
  intros Hv Hy. apply encode_then_decode.
  unfold representable. repeat split; try assumption.
  - unfold Calendar.add_minutes in E6.
    destruct (_ && _) in E6; [|discriminate].
    destruct (Calendar.ord2ymd _) as [[y' m'] d'] in E6.
    injection E6 as <-. cbn.
    apply make_inversion in E4 as [-> _]. reflexivity.
  - unfold Calendar.add_minutes in E6.
    destruct (_ && _) in E6; [|discriminate].
    destruct (Calendar.ord2ymd _) as [[y' m'] d'] in E6.
    injection E6 as <-. cbn.
    apply make_inversion in E4 as [-> _]. reflexivity.
Qed.

Lemma stored_record_date_and_timestamp_witness :
  exists args minutes midnight date,
    Struct.unpack_from ArchiveIntervalRecord.RECORD_FORMAT_WLK
      (take 88 example_interval_bytes) = Ok args
    /\ args !! 2%nat = Some (RInt minutes)
    /\ minutes = Struct.signed_le (take 2 (drop 4 example_interval_bytes))
    /\ example_interval_record !! "minutes_past_midnight"
       = Some (VInt minutes)
    /\ Calendar.make 2020 4 1 0 0 = Ok midnight
    /\ Calendar.add_minutes midnight minutes = Ok date
    /\ example_interval_record !! "date" = Some (VDatetime date)
    /\ example_interval_record !! "timestamp"
       = Some (VInt (convert_datetime_to_timestamp (ArgDatetime date)))
    /\ (Calendar.valid date = true -> 2000 <= year date ->
        convert_timestamp_to_datetime
          (convert_datetime_to_timestamp (ArgDatetime date)) = Ok date).
Proof.
  exact (stored_record_date_and_timestamp example_interval_bytes 2020 4 1
           example_interval_record [] example_interval_loads).
Defined.

(** X9. A record read by [ArchiveIntervalRecord.load_from_wlk] has a rain
    field (unpacked item 10) whose top four bits are one of the five
    collector type codes: the record holds that collector type, the low
    twelve bits as the click count (0 to 4095), and the rain amount and rate
    that the collector type gives for the click counts.  With any other top
    four bits the decoder does not return a record. *)
Theorem stored_record_rain
    (h : handle) (y m d : Z) (r : gmap string value) (h' : handle) :
  ArchiveIntervalRecord.load_from_wlk h y m d = Ok (r, h') ->
  exists args rain_code rain_rate_clicks rct,
    Struct.unpack_from ArchiveIntervalRecord.RECORD_FORMAT_WLK (take 88 h)
      = Ok args
    /\ args !! 10%nat = Some (RInt rain_code)
    /\ args !! 11%nat = Some (RInt rain_rate_clicks)
    /\ RainCollectorTypeDatabase.value rct = Z.land rain_code 0xF000
    /\ 0 <= Z.land rain_code 0x0FFF <= 4095
    /\ r !! "rain_collector_type" = Some (VRainDatabase rct)
    /\ r !! "rain_amount_clicks" = Some (VInt (Z.land rain_code 0x0FFF))
    /\ r !! "rain_rate_clicks" = Some (VInt rain_rate_clicks)
    /\ r !! "rain_amount"
       = Some (VDecimal (database_clicks_to_inches rct
                           (Z.land rain_code 0x0FFF)))
    /\ r !! "rain_rate"
       = Some (VDecimal (database_clicks_to_inches rct rain_rate_clicks)).
Proof.
  intros H. unfold ArchiveIntervalRecord.load_from_wlk, read in H.
  step H as args Hargs. step H as u Hu. step H as kw Hkw.
  step H as rain_code E1. step H as rain_rate E2. step H as rct E3.
  step H as rec Hrec. step H as midnight E4. step H as mpm E5.
  step H as date E6. injection H as <- <-.
  exists args, rain_code, rain_rate, rct.
  split; [exact Hargs|].
  assert (A : forall i x, arg_int args i = Ok x -> args !! i = Some (RInt x)).
  { intros i x. unfold arg_int.
    destruct (args !! i) as [[z|bs]|]; try discriminate. now intros [= ->]. }
  split; [now apply A|]. split; [now apply A|].
  split.
  { unfold RainCollectorTypeDatabase.of_value in E3.
    destruct (find _ _) as [t|] eqn:F in E3; [|discriminate].
    injection E3 as ->. apply find_some in F as [_ F].
    now apply Z.eqb_eq in F. }
  split.
  { change (Z.land rain_code 0x0FFF) with (Z.land rain_code (Z.ones 12)).
    rewrite Z.land_ones by lia.
    pose proof (Z.mod_pos_bound rain_code (2 ^ 12) ltac:(lia)). lia. }
  assert (W : forall key,
             forallb (fun p => negb (String.eqb p.2 key))
               ArchiveIntervalRecord.RECORD_WIND_DIRECTION_SPECIAL = true ->
             rec !! key
             = (<["rain_rate" :=
                    VDecimal (database_clicks_to_inches rct rain_rate)]>
                 (<["rain_amount" :=
                      VDecimal (database_clicks_to_inches rct
                                  (Z.land rain_code 0x0FFF))]>
                    (<["rain_rate_clicks" := VInt rain_rate]>
                       (<["rain_amount_clicks" :=
                            VInt (Z.land rain_code 0x0FFF)]>
                          (<["rain_collector_type" := VRainDatabase rct]>
                             kw))))) !! key).
  { intros key Hk.
    apply (wind_direction_special_other _ _ _ key Hrec).
    now apply not_in_pairs. }
  repeat split; lookup_inserts; rewrite W by reflexivity; now lookup_inserts.
Qed.

Lemma stored_record_rain_witness :
  exists args rain_code rain_rate_clicks rct,
    Struct.unpack_from ArchiveIntervalRecord.RECORD_FORMAT_WLK
      (take 88 example_interval_bytes) = Ok args
    /\ args !! 10%nat = Some (RInt rain_code)
    /\ args !! 11%nat = Some (RInt rain_rate_clicks)
    /\ RainCollectorTypeDatabase.value rct = Z.land rain_code 0xF000
    /\ 0 <= Z.land rain_code 0x0FFF <= 4095
    /\ example_interval_record !! "rain_collector_type"
       = Some (VRainDatabase rct)
    /\ example_interval_record !! "rain_amount_clicks"
       = Some (VInt (Z.land rain_code 0x0FFF))
    /\ example_interval_record !! "rain_rate_clicks"
       = Some (VInt rain_rate_clicks)
    /\ example_interval_record !! "rain_amount"
       = Some (VDecimal (database_clicks_to_inches rct
                           (Z.land rain_code 0x0FFF)))
    /\ example_interval_record !! "rain_rate"
       = Some (VDecimal (database_clicks_to_inches rct rain_rate_clicks)).
Proof.
  exact (stored_record_rain example_interval_bytes 2020 4 1
           example_interval_record [] example_interval_loads).
Defined.

Lemma split_last_two (l : list byte) (n : nat) :
  length l = S (S n) ->
  exists hi lo, l = take n l ++ [hi; lo].
Proof.
  intros L.
  assert (Ld : length (drop n l) = 2%nat) by (rewrite length_drop; lia).
  destruct (drop n l) as [|hi [|lo [|? ?]]] eqn:E; try discriminate.
  exists hi, lo. now rewrite <- E, take_drop.
Qed.

(** X10. A telemetry frame that [load_loop_2_from_connection] decodes gives
    a record of type 2 whose [crc_match] entry is true exactly when the last
    two of the 99 bytes are the checksum of the first 97, high byte
    first. *)
Theorem loop_record_crc_match
    (socket_file : handle) (r : gmap string value) (h' : handle) :
  LoopRecord.load_loop_2_from_connection socket_file = Ok (r, h') ->
  r !! "record_type" = Some (VInt 2)
  /\ exists hi lo,
       take 99 socket_file = take 97 socket_file ++ [hi; lo]
       /\ r !! "crc_match"
          = Some (VBool (bool_decide
               (byte_val hi
                  = calculate_weatherlink_crc (take 97 socket_file) / 256
                /\ byte_val lo
                   = calculate_weatherlink_crc (take 97 socket_file)
                     mod 256))).
Proof.
  unfold LoopRecord.load_loop_2_from_connection,
    LoopRecord._get_loop_2_arguments, read.
  intros H. step H as args Hargs. step H as u Hu. step H as kw Hkw.
  step H as rec Hrec. injection H as <- <-.
  unfold LoopRecord._post_process_arguments in Hrec.
  step Hrec as bt Hbt. step Hrec as rec1 Hrec1.
  assert (K : forall key,
             forallb (fun a => negb (String.eqb a.1.1 key))
               LoopRecord.LOOP2_RECORD_ATTRIBUTE_MAP = true ->
             forallb (fun p => negb (String.eqb p.2 key))
               LoopRecord.LOOP_WIND_DIRECTION_SPECIAL = true ->
             forallb (fun p => negb (String.eqb p.2 key))
               LoopRecord.LOOP_RAIN_AMOUNT_SPECIAL = true ->
             key <> "barometric_trend" ->
             rec !! key
             = (<["record_type" := VInt 2]>
                 (<["crc_match" :=
                      VBool (calculate_weatherlink_crc
                               (take LoopRecord.RECORD_LENGTH socket_file)
                             =? 0)]> (∅ : gmap string value))) !! key).
  { intros key F1 F2 F3 Hne.
    rewrite (loop_rain_amount_special_other _ _ _ key Hrec)
      by now apply not_in_pairs.
    rewrite (loop_wind_direction_special_other _ _ _ key Hrec1)
      by now apply not_in_pairs.
    rewrite lookup_insert_ne by congruence.
    now apply (decode_fields_fresh _ _ _ _ _ key Hkw). }
  split.
  { rewrite K by (reflexivity || discriminate). now lookup_inserts. }
  apply unpack_from_length in Hargs.
  change (Struct.calcsize LoopRecord.LOOP2_RECORD_FORMAT) with 99%nat in Hargs.
  unfold LoopRecord.RECORD_LENGTH in *.
  assert (L : length (take 99 socket_file) = 99%nat)
    by (rewrite length_take in *; lia).
  destruct (split_last_two _ 97 L) as (hi & lo & E).
  rewrite take_take in E. change (97 `min` 99)%nat with 97%nat in E.
  exists hi, lo. split; [exact E|].
  rewrite K by (reflexivity || discriminate). lookup_inserts.
  do 2 f_equal. rewrite E.
  pose proof (crc_trailer (take 97 socket_file) hi lo) as T.
  destruct (Z.eqb_spec (calculate_weatherlink_crc
                          (take 97 socket_file ++ [hi; lo])) 0) as [Z0|Nz].
  - symmetry. apply bool_decide_eq_true. now apply T.
  - symmetry. apply bool_decide_eq_false. intros C. apply Nz. now apply T.
Qed.

Lemma loop_record_crc_match_witness :
  example_frame_record !! "record_type" = Some (VInt 2)
  /\ exists hi lo,
       take 99 example_frame = take 97 example_frame ++ [hi; lo]
       /\ example_frame_record !! "crc_match"
          = Some (VBool (bool_decide
               (byte_val hi
                  = calculate_weatherlink_crc (take 97 example_frame) / 256
                /\ byte_val lo
                   = calculate_weatherlink_crc (take 97 example_frame)
                     mod 256))).
Proof.
  exact (loop_record_crc_match example_frame example_frame_record []
           example_frame_loads).
Defined.

(** *** Record markers *)

Lemma verify_lookup vmap args u :
  verify vmap args = Ok u ->
  forall k v, (k, v) ∈ vmap -> args !! k = Some v.
Proof.
  induction vmap as [|[k0 v0] vmap IH]; intros H k v Hin.
  - now apply elem_of_nil in Hin.
  - cbn in H. destruct (args !! k0) as [a|] eqn:E; [|discriminate].
    destruct (decide (a = v0)) as [->|]; [|discriminate].
    apply elem_of_cons in Hin as [[= -> ->]|Hin]; [exact E|].
    now apply IH.
Qed.

Lemma take_1_drop_lookup (l : list byte) (n : nat) (b : byte) :
  take 1 (drop n l) = [b] -> l !! n = Some b.
Proof.
  intros H. rewrite <- (Nat.add_0_r n), <- lookup_drop.
  destruct (drop n l) as [|x rest]; [discriminate|].
  cbn in H. now injection H as ->.
Qed.

Lemma signed_byte_inj (bs : list byte) (c : byte) :
  length bs = 1%nat ->
  Struct.signed_le bs = Struct.signed_le [c] -> bs = [c].
Proof.
  destruct bs as [|b [|? ?]]; try discriminate. intros _.
  unfold Struct.signed_le, Struct.unsigned_le. cbn [foldr length].
  change (2 ^ (8 * Z.of_nat 1)) with 256. change (256 / 2) with 128.
  pose proof (byte_val_range b) as Rb. pose proof (byte_val_range c) as Rc.
  intros E. f_equal. apply byte_val_inj.
  destruct (Z.ltb_spec (byte_val b + 256 * 0) 128),
           (Z.ltb_spec (byte_val c + 256 * 0) 128); lia.
Qed.

Lemma unsigned_byte_inj (bs : list byte) (c : byte) :
  length bs = 1%nat ->
  Struct.unsigned_le bs = Struct.unsigned_le [c] -> bs = [c].
Proof.
  destruct bs as [|b [|? ?]]; try discriminate. intros _.
  unfold Struct.unsigned_le. cbn [foldr].
  intros H. f_equal. apply byte_val_inj. lia.
Qed.

Lemma length_take_1_drop (l : list byte) (n : nat) :
  (n < length l)%nat -> length (take 1 (drop n l)) = 1%nat.
Proof. intros H. rewrite length_take, length_drop. lia. Qed.

(** The unpacked items that carry the markers, by their byte offsets. *)
Lemma summary_items (buf : list byte) :
  Struct.unpack_items DailySummary.DAILY_SUMMARY_FORMAT buf !! 0%nat
  = Some (RInt (Struct.signed_le (take 1 (drop 0 buf))))
  /\ Struct.unpack_items DailySummary.DAILY_SUMMARY_FORMAT buf !! 30%nat
     = Some (RInt (Struct.signed_le (take 1 (drop 88 buf)))).
Proof.
  unfold DailySummary.DAILY_SUMMARY_FORMAT.
  cbn [Struct.unpack_items Struct.unpack_repeat Struct.code_size
       Struct.unpack_one Struct.is_signed app lookup list_lookup].
  rewrite !drop_drop. split; reflexivity.
Qed.

Lemma stored_items (buf : list byte) :
  Struct.unpack_items ArchiveIntervalRecord.RECORD_FORMAT_WLK buf !! 0%nat
  = Some (RInt (Struct.signed_le (take 1 (drop 0 buf)))).
Proof. reflexivity. Qed.

Lemma loop_items (buf : list byte) :
  Struct.unpack_items LoopRecord.LOOP2_RECORD_FORMAT buf !! 0%nat
  = Some (RBytes (take 3 buf))
  /\ Struct.unpack_items LoopRecord.LOOP2_RECORD_FORMAT buf !! 2%nat
     = Some (RInt (Struct.unsigned_le (take 1 (drop 4 buf))))
  /\ Struct.unpack_items LoopRecord.LOOP2_RECORD_FORMAT buf !! 41%nat
     = Some (RBytes (take 1 (drop 95 buf)))
  /\ Struct.unpack_items LoopRecord.LOOP2_RECORD_FORMAT buf !! 42%nat
     = Some (RBytes (take 1 (drop 96 buf))).
Proof.
  unfold LoopRecord.LOOP2_RECORD_FORMAT.
  cbn [Struct.unpack_items Struct.unpack_repeat Struct.code_size
       Struct.unpack_one Struct.is_signed app lookup list_lookup].
  rewrite !drop_drop. repeat split; reflexivity.
Qed.

(** X11. The decoders return a record only for bytes that carry the type
    markers: a daily summary has byte 2 at offset 0 and byte 3 at offset 88,
    a stored interval record has byte 1 at offset 0, and a telemetry frame
    starts with LOO, has packet type 1 at offset 4 and line feed and
    carriage return at offsets 95 and 96.  On a full-length stored record
    with another first byte the decoder raises AssertionError. *)
Theorem decoders_require_markers :
  (forall (h : handle) y m d r h',
     DailySummary.load_from_wlk h y m d = Ok (r, h') ->
     h !! 0%nat = Some x02 /\ h !! 88%nat = Some x03)
  /\ (forall (h : handle) y m d r h',
        ArchiveIntervalRecord.load_from_wlk h y m d = Ok (r, h') ->
        h !! 0%nat = Some x01)
  /\ (forall (h : handle) r h',
        LoopRecord.load_loop_2_from_connection h = Ok (r, h') ->
        take 3 h = [x4c; x4f; x4f] /\ h !! 4%nat = Some x01
        /\ h !! 95%nat = Some x0a /\ h !! 96%nat = Some x0d)
  /\ (forall (h : handle) y m d (b : byte),
        (88 <= length h)%nat -> h !! 0%nat = Some b -> b <> x01 ->
        ArchiveIntervalRecord.load_from_wlk h y m d
        = Raise (AssertionError (RInt (Struct.signed_le [b])) (RInt 1))).
Proof.
  split; [|split; [|split]].
  - intros h y m d r h' H.
    unfold DailySummary.load_from_wlk, read in H.
    step H as args Hargs. step H as u Hu.
    pose proof (unpack_from_length _ _ _ Hargs) as L.
    change (Struct.calcsize DailySummary.DAILY_SUMMARY_FORMAT)
      with 176%nat in L.
    unfold DailySummary.DAILY_SUMMARY_LENGTH in *.
    change (88 * 2)%nat with 176%nat in *.
    rewrite length_take in L.
    apply unpack_from_items in Hargs as ->.
    destruct (summary_items (take 176 h)) as [I0 I30].
    pose proof (verify_lookup _ _ _ Hu 0%nat (RInt 2)
                  ltac:(cbn; elem_of_list)) as V0.
    pose proof (verify_lookup _ _ _ Hu 30%nat (RInt 3)
                  ltac:(cbn; elem_of_list)) as V30.
    rewrite I0 in V0. rewrite I30 in V30.
    injection V0 as V0. injection V30 as V30.
    rewrite (take_drop_of_take h 0 1 176) in V0 by lia.
    rewrite (take_drop_of_take h 88 1 176) in V30 by lia.
    split; apply take_1_drop_lookup.
    + apply (signed_byte_inj _ x02); [apply length_take_1_drop; lia|exact V0].
    + apply (signed_byte_inj _ x03); [apply length_take_1_drop; lia|exact V30].
  - intros h y m d r h' H.
    unfold ArchiveIntervalRecord.load_from_wlk, read in H.
    step H as args Hargs. step H as u Hu.
    pose proof (unpack_from_length _ _ _ Hargs) as L.
    change (Struct.calcsize ArchiveIntervalRecord.RECORD_FORMAT_WLK)
      with 88%nat in L.
    unfold ArchiveIntervalRecord.RECORD_LENGTH_WLK in *.
    rewrite length_take in L.
    apply unpack_from_items in Hargs as ->.
    pose proof (verify_lookup _ _ _ Hu 0%nat (RInt 1)
                  ltac:(cbn; elem_of_list)) as V0.
    rewrite stored_items in V0. injection V0 as V0.
    rewrite (take_drop_of_take h 0 1 88) in V0 by lia.
    apply take_1_drop_lookup.
    apply (signed_byte_inj _ x01); [apply length_take_1_drop; lia|exact V0].
  - intros h r h' H.
    unfold LoopRecord.load_loop_2_from_connection,
      LoopRecord._get_loop_2_arguments, read in H.
    step H as args Hargs. step H as u Hu.
    pose proof (unpack_from_length _ _ _ Hargs) as L.
    change (Struct.calcsize LoopRecord.LOOP2_RECORD_FORMAT) with 99%nat in L.
    unfold LoopRecord.RECORD_LENGTH in *.
    rewrite length_take in L.
    apply unpack_from_items in Hargs as ->.
    destruct (loop_items (take 99 h)) as (I0 & I2 & I41 & I42).
    pose proof (verify_lookup _ _ _ Hu 0%nat _ ltac:(cbn; elem_of_list)) as V0.
    pose proof (verify_lookup _ _ _ Hu 2%nat _ ltac:(cbn; elem_of_list)) as V2.
    pose proof (verify_lookup _ _ _ Hu 41%nat _ ltac:(cbn; elem_of_list))
      as V41.
    pose proof (verify_lookup _ _ _ Hu 42%nat _ ltac:(cbn; elem_of_list))
      as V42.
    rewrite I0 in V0. rewrite I2 in V2. rewrite I41 in V41.
    rewrite I42 in V42.
    injection V0 as V0. injection V2 as V2. injection V41 as V41.
    injection V42 as V42.
    rewrite take_take in V0. change (3 `min` 99)%nat with 3%nat in V0.
    rewrite (take_drop_of_take h 4 1 99) in V2 by lia.
    rewrite (take_drop_of_take h 95 1 99) in V41 by lia.
    rewrite (take_drop_of_take h 96 1 99) in V42 by lia.
    split; [exact V0|]. repeat split; apply take_1_drop_lookup; try assumption.
    apply (unsigned_byte_inj _ x01); [apply length_take_1_drop; lia|exact V2].
  - intros h y m d b L Hb Hne.
    unfold ArchiveIntervalRecord.load_from_wlk, read, Struct.unpack_from.
    change (Struct.calcsize ArchiveIntervalRecord.RECORD_FORMAT_WLK)
      with 88%nat.
    unfold ArchiveIntervalRecord.RECORD_LENGTH_WLK. rewrite length_take.
    destruct (Nat.ltb_spec (88 `min` length h) 88); [lia|].
    rewrite bind_ret_Ok.
    unfold ArchiveIntervalRecord.RECORD_VERIFICATION_MAP_WLK.
    cbn [verify]. rewrite stored_items.
    rewrite (take_drop_of_take h 0 1 88) by lia.
    assert (E : take 1 (drop 0 h) = [b]).
    { rewrite drop_0. destruct h as [|x t]; [discriminate|].
      cbn in Hb. injection Hb as ->. reflexivity. }
    rewrite E.
    destruct (decide (RInt (Struct.signed_le [b]) = RInt 1)) as [C|C].
    + exfalso. injection C as C. apply Hne.
      assert (G : [b] = [x01]) by (apply signed_byte_inj; [reflexivity|exact C]).
      now injection G.
    + reflexivity.
Qed.

Lemma decoders_require_markers_witness :
  example_interval_bytes !! 0%nat = Some x01
  /\ ArchiveIntervalRecord.load_from_wlk (replicate 88 x00) 2020 4 1
     = Raise (AssertionError (RInt (Struct.signed_le [x00])) (RInt 1)).
Proof.
  destruct decoders_require_markers as (_ & S & _ & E). split.
  - exact (S example_interval_bytes 2020 4 1 example_interval_record []
             example_interval_loads).
  - apply E; [vm_compute; lia|reflexivity|discriminate].
Defined.

(** X22. [ArchiveIntervalRecord.load_from_download] reads 52 bytes and
    skips the record (returns None) exactly when its date stamp, the first
    signed 16-bit item, is below 1.  A record it returns holds as
    [timestamp] the date stamp shifted left by 16 bits plus the time stamp
    (item 1), as [date] the decoding of that time stamp, the caller's
    [minutes_covered], the collector type of 0.01 inch per click, and the
    rain amount and rate that it gives for items 5 and 6. *)
Theorem download_record_contents
    (h : handle) (minutes_covered : value)
    (o : option (gmap string value)) (h' : handle) :
  ArchiveIntervalRecord.load_from_download h minutes_covered = Ok (o, h') ->
  h' = drop 52 h
  /\ exists args a0,
       Struct.unpack_from ArchiveIntervalRecord.RECORD_FORMAT_DOWNLOAD
         (take 52 h) = Ok args
       /\ args !! 0%nat = Some (RInt a0)
       /\ (o = None <-> a0 < 1)
       /\ forall r, o = Some r ->
            exists a1 rain_clicks rain_rate_clicks date,
              args !! 1%nat = Some (RInt a1)
              /\ args !! 5%nat = Some (RInt rain_clicks)
              /\ args !! 6%nat = Some (RInt rain_rate_clicks)
              /\ convert_timestamp_to_datetime (Z.shiftl a0 16 + a1)
                 = Ok date
              /\ r !! "timestamp" = Some (VInt (Z.shiftl a0 16 + a1))
              /\ r !! "date" = Some (VDatetime date)
              /\ r !! "minutes_covered" = Some minutes_covered
              /\ r !! "rain_collector_type"
                 = Some (VRainSerial RainCollectorTypeSerial.inches_0_01)
              /\ r !! "rain_amount_clicks" = Some (VInt rain_clicks)
              /\ r !! "rain_rate_clicks" = Some (VInt rain_rate_clicks)
              /\ r !! "rain_amount"
                 = Some (VDecimal (serial_clicks_to_inches
                            RainCollectorTypeSerial.inches_0_01 rain_clicks))
              /\ r !! "rain_rate"
                 = Some (VDecimal (serial_clicks_to_inches
                            RainCollectorTypeSerial.inches_0_01
                            rain_rate_clicks)).
Proof.
  intros H. unfold ArchiveIntervalRecord.load_from_download, read in H.
  step H as args Hargs. step H as a0 E0.
  assert (A : forall i x, arg_int args i = Ok x -> args !! i = Some (RInt x)).
  { intros i x. unfold arg_int.
    destruct (args !! i) as [[z|bs]|]; try discriminate. now intros [= ->]. }
  destruct (Z.ltb_spec a0 1) as [L|G].
  { injection H as <- <-. split; [reflexivity|].
    exists args, a0. split; [exact Hargs|]. split; [now apply A|].
    split; [tauto|]. intros r Hr. discriminate. }
  step H as u Hu. step H as kw Hkw.
  step H as rain_clicks E5. step H as rain_rate E6.
  step H as rec Hrec. step H as a1 E1. step H as date Ed.
  injection H as <- <-. split; [reflexivity|].
  exists args, a0. split; [exact Hargs|]. split; [now apply A|].
  split; [split; [discriminate|lia]|].
  intros r [= <-]. exists a1, rain_clicks, rain_rate, date.
  split; [now apply A|]. split; [now apply A|]. split; [now apply A|].
  split; [exact Ed|].
  assert (W : forall key,
             forallb (fun p => negb (String.eqb p.2 key))
               ArchiveIntervalRecord.RECORD_WIND_DIRECTION_SPECIAL = true ->
             rec !! key
             = (<["rain_rate" :=
                    VDecimal (serial_clicks_to_inches
                                RainCollectorTypeSerial.inches_0_01
                                rain_rate)]>
                 (<["rain_amount" :=
                      VDecimal (serial_clicks_to_inches
                                  RainCollectorTypeSerial.inches_0_01
                                  rain_clicks)]>
                    (<["rain_rate_clicks" := VInt rain_rate]>
                       (<["rain_amount_clicks" := VInt rain_clicks]>
                          (<["rain_collector_type" :=
                               VRainSerial
                                 RainCollectorTypeSerial.inches_0_01]>
                             (<["minutes_covered" := minutes_covered]>
                                kw)))))) !! key).
  { intros key Hk.
    apply (wind_direction_special_other _ _ _ key Hrec).
    now apply not_in_pairs. }
  repeat split; lookup_inserts; try reflexivity;
    rewrite W by reflexivity; now lookup_inserts.
Qed.

Lemma download_record_contents_witness :
  exists r,
    ArchiveIntervalRecord.load_from_download example_download_bytes (VInt 5)
    = Ok (Some r, [x2a; x2b])
    /\ r !! "timestamp" = Some (VInt 679544014)
    /\ r !! "date" = Some (VDatetime (mkDatetime 2020 4 1 12 30 0 0))
    /\ r !! "minutes_covered" = Some (VInt 5)
    /\ r !! "rain_amount_clicks" = Some (VInt 7)
    /\ r !! "rain_rate_clicks" = Some (VInt 3).
Proof.
  destruct (returns_some_when_checked
              (ArchiveIntervalRecord.load_from_download
                 example_download_bytes (VInt 5)))
    as (r & h' & E); [vm_compute; reflexivity|].
  destruct (download_record_contents _ _ _ _ E)
    as (-> & args & a0 & U & A0 & _ & R).
  destruct (R r eq_refl)
    as (a1 & rc & rr & date & A1 & A5 & A6 & Ed & Ts & Dt & Mc & _ & Rc
        & Rr & _).
  apply unpack_from_items in U. subst args.
  vm_compute in A0, A1, A5, A6.
  injection A0 as <-. injection A1 as <-.
  injection A5 as <-. injection A6 as <-.
  vm_compute in Ed. injection Ed as <-.
  exists r. split; [exact E|]. auto 10.
Defined.

(* --------------------------------------------------------------------- *)
(** ** Decimal arithmetic: denotation and rounding                         *)
(* --------------------------------------------------------------------- *)



Local Open Scope Q_scope.

Lemma pow10_pos (e : Z) : 0 < 10 ^ e.
Proof. apply Qpower_0_lt. reflexivity. Qed.

Lemma pow10_add (a b : Z) : 10 ^ (a + b) == 10 ^ a * 10 ^ b.
Proof. apply Qpower_plus. discriminate. Qed.

Lemma pow10_inject (n : Z) : (0 <= n)%Z -> inject_Z (10 ^ n) == 10 ^ n.
Proof. intros H. now rewrite Zpower_Qpower. Qed.

Lemma pow10_sub (a b : Z) : 10 ^ (a - b) == 10 ^ a / 10 ^ b.
Proof.
  unfold Z.sub. rewrite pow10_add, Qpower_opp. reflexivity.
Qed.

Lemma pow10_le (a b : Z) : (a <= b)%Z -> 10 ^ a <= 10 ^ b.
Proof.
  intros H. replace b with (a + (b - a))%Z by lia.
  rewrite pow10_add, <- (pow10_inject (b - a)) by lia.
  assert (1 <= 10 ^ (b - a))%Z by (apply (Z.pow_le_mono_r 10 0); lia).
  assert (inject_Z 1 <= inject_Z (10 ^ (b - a))) by (now rewrite <- Zle_Qle).
  change (inject_Z 1) with 1 in *.
  pose proof (pow10_pos a). nra.
Qed.

(** Moving a power of ten between coefficient and exponent. *)
Lemma toQ_scale c e k :
  (0 <= k)%Z -> toQ (D (c * 10 ^ k) (e - k)) == toQ (D c e).
Proof.
  intros H. unfold toQ, D; cbn.
  rewrite inject_Z_mult, pow10_inject, pow10_sub by lia.
  pose proof (pow10_pos k). field. lra.
Qed.

Lemma toQ_align_l a b :
  inject_Z (Dec.align a b).1.1 * 10 ^ (Dec.align a b).2 == toQ a.
Proof.
  unfold Dec.align; cbn [fst snd].
  set (m := Z.min (Dec.dexp a) (Dec.dexp b)).
  pose proof (toQ_scale (Dec.dcoef a) (Dec.dexp a) (Dec.dexp a - m) ltac:(lia)) as H.
  unfold toQ, D in H; cbn in H.
  replace (Dec.dexp a - (Dec.dexp a - m))%Z with m in H by lia. exact H.
Qed.

Lemma toQ_align_r a b :
  inject_Z (Dec.align a b).1.2 * 10 ^ (Dec.align a b).2 == toQ b.
Proof.
  unfold Dec.align; cbn [fst snd].
  set (m := Z.min (Dec.dexp a) (Dec.dexp b)).
  pose proof (toQ_scale (Dec.dcoef b) (Dec.dexp b) (Dec.dexp b - m) ltac:(lia)) as H.
  unfold toQ, D in H; cbn in H.
  replace (Dec.dexp b - (Dec.dexp b - m))%Z with m in H by lia. exact H.
Qed.

Lemma toQ_add_exact a b : toQ (Dec.add_exact a b) == toQ a + toQ b.
Proof.
  rewrite <- (toQ_align_l a b), <- (toQ_align_r a b).
  unfold Dec.add_exact. destruct (Dec.align a b) as [[x y] m]. cbn [fst snd].
  unfold toQ; cbn. rewrite inject_Z_plus. ring.
Qed.

Lemma toQ_opp_exact a : toQ (Dec.opp_exact a) == - toQ a.
Proof. unfold toQ, Dec.opp_exact; cbn. rewrite inject_Z_opp. ring. Qed.

Lemma toQ_sub_exact a b : toQ (Dec.sub_exact a b) == toQ a - toQ b.
Proof.
  unfold Dec.sub_exact. rewrite toQ_add_exact, toQ_opp_exact. ring.
Qed.

Lemma toQ_mul_exact a b : toQ (Dec.mul_exact a b) == toQ a * toQ b.
Proof.
  unfold toQ, Dec.mul_exact; cbn. rewrite inject_Z_mult, pow10_add. ring.
Qed.

(** Comparison of decimals is comparison of their values. *)
Lemma compare_toQ a b : Dec.compare a b = (toQ a ?= toQ b).
Proof.
  pose proof (toQ_align_l a b) as Hl. pose proof (toQ_align_r a b) as Hr.
  unfold Dec.compare. destruct (Dec.align a b) as [[x y] m]. cbn [fst snd] in *.
  pose proof (pow10_pos m) as Hp.
  destruct (Z.compare_spec x y) as [E|L|G]; symmetry.
  - apply Qeq_alt. rewrite <- Hl, <- Hr, E. reflexivity.
  - apply Qlt_alt. rewrite <- Hl, <- Hr. apply Qmult_lt_compat_r; [exact Hp|].
    now rewrite <- Zlt_Qlt.
  - apply Qgt_alt. rewrite <- Hl, <- Hr. apply Qmult_lt_compat_r; [exact Hp|].
    now rewrite <- Zlt_Qlt.
Qed.

Lemma ltb_toQ a b : Dec.ltb a b = true <-> toQ a < toQ b.
Proof.
  unfold Dec.ltb. rewrite compare_toQ, Qlt_alt.
  destruct (toQ a ?= toQ b); split; congruence.
Qed.

Lemma ltb_toQ_false a b : Dec.ltb a b = false <-> toQ b <= toQ a.
Proof.
  unfold Dec.ltb. rewrite compare_toQ.
  destruct (Qcompare_spec (toQ a) (toQ b)) as [E|L|G]; split; intros; try congruence; try lra.
Qed.

Lemma leb_toQ a b : Dec.leb a b = true <-> toQ a <= toQ b.
Proof.
  unfold Dec.leb. rewrite compare_toQ.
  destruct (Qcompare_spec (toQ a) (toQ b)) as [E|L|G]; split; intros; try congruence; try lra.
Qed.

Lemma leb_toQ_false a b : Dec.leb a b = false <-> toQ b < toQ a.
Proof.
  unfold Dec.leb. rewrite compare_toQ.
  destruct (Qcompare_spec (toQ a) (toQ b)) as [E|L|G]; split; intros; try congruence; try lra.
Qed.

Lemma gtb_toQ a b : Dec.gtb a b = true <-> toQ b < toQ a.
Proof. unfold Dec.gtb. apply ltb_toQ. Qed.

Lemma gtb_toQ_false a b : Dec.gtb a b = false <-> toQ a <= toQ b.
Proof. unfold Dec.gtb. apply ltb_toQ_false. Qed.

Lemma eqb_toQ a b : Dec.eqb a b = true <-> toQ a == toQ b.
Proof.
  unfold Dec.eqb. rewrite compare_toQ, Qeq_alt.
  destruct (toQ a ?= toQ b); split; congruence.
Qed.

Lemma is_zero_toQ a : Dec.is_zero a = true <-> toQ a == 0.
Proof.
  unfold Dec.is_zero, toQ. pose proof (pow10_pos (Dec.dexp a)) as Hp.
  rewrite Z.eqb_eq. split.
  - intros ->. ring.
  - intros H. apply Qmult_integral in H as [H|H]; [|lra].
    unfold Qeq in H. cbn in H. lia.
Qed.

Local Open Scope Z_scope.

(** ** Digit counts *)

Lemma ndigits_aux_spec fuel : forall n,
  1 <= n < 10 ^ Z.of_nat fuel ->
  10 ^ (Dec.ndigits_aux fuel n - 1) <= n < 10 ^ Dec.ndigits_aux fuel n
  /\ 1 <= Dec.ndigits_aux fuel n.
Proof.
  induction fuel as [|f IH]; intros n Hn.
  - cbn in Hn. lia.
  - cbn [Dec.ndigits_aux]. destruct (Z.ltb_spec n 10) as [L|G].
    + cbn. lia.
    + assert (Hq : 1 <= n / 10 < 10 ^ Z.of_nat f).
      { split.
        - apply Z.div_le_lower_bound; lia.
        - apply Z.div_lt_upper_bound; [lia|].
          replace (10 * 10 ^ Z.of_nat f) with (10 ^ Z.of_nat (S f)); [lia|].
          rewrite Nat2Z.inj_succ, Z.pow_succ_r by lia. reflexivity. }
      destruct (IH _ Hq) as [[Hlo Hhi] H1].
      set (r := Dec.ndigits_aux f (n / 10)) in *.
      replace (1 + r - 1) with (Z.succ (r - 1)) by lia.
      replace (1 + r) with (Z.succ r) by lia.
      rewrite !Z.pow_succ_r by lia.
      pose proof (Z.div_mod n 10 ltac:(lia)).
      pose proof (Z.mod_pos_bound n 10 ltac:(lia)).
      lia.
Qed.

Lemma ndigits_spec n :
  n <> 0 ->
  10 ^ (Dec.ndigits n - 1) <= Z.abs n < 10 ^ Dec.ndigits n
  /\ 1 <= Dec.ndigits n.
Proof.
  intros Hn. unfold Dec.ndigits. apply ndigits_aux_spec.
  split; [lia|].
  rewrite Nat2Z.inj_succ, Z2Nat.id by apply Z.log2_nonneg.
  pose proof (Z.log2_spec (Z.abs n) ltac:(lia)) as [_ H].
  eapply Z.lt_le_trans; [exact H|].
  apply Z.pow_le_mono_l. lia.
Qed.

Lemma ndigits_small n : n <> 0 -> (Dec.ndigits n <= 28 <-> Z.abs n < 10 ^ 28).
Proof.
  intros Hn. destruct (ndigits_spec n Hn) as [[Hlo Hhi] H1]. split; intros H.
  - eapply Z.lt_le_trans; [exact Hhi|]. apply Z.pow_le_mono_r; lia.
  - destruct (Z.le_gt_cases (Dec.ndigits n) 28) as [L|G]; [exact L|exfalso].
    assert (10 ^ 28 <= 10 ^ (Dec.ndigits n - 1)) by (apply Z.pow_le_mono_r; lia).
    lia.
Qed.

Lemma ndigits_0 : Dec.ndigits 0 = 1.
Proof. reflexivity. Qed.

(** Without more than 28 digits there is nothing to round. *)
Lemma fix_fits d : fits d -> Dec.fix_ d = d.
Proof.
  unfold fits, Dec.fix_. intros H.
  destruct (Z.eq_dec (Dec.dcoef d) 0) as [E|N].
  - rewrite E. reflexivity.
  - apply (ndigits_small _ N) in H. unfold Dec.PREC.
    destruct (Z.leb_spec (Dec.ndigits (Dec.dcoef d)) 28); [reflexivity|lia].
Qed.

(** ** Rounding a quotient *)

(** Every rounding mode gives the floor or the ceiling of the quotient, so
    it never crosses an integer bound. *)
Lemma round_div_ge r c k B :
  0 <= k -> B * 10 ^ k <= c -> B <= Dec.round_div r c k.
Proof.
  intros Hk H. assert (Hp : 0 < 10 ^ k) by (apply Z.pow_pos_nonneg; lia).
  assert (Hq : B <= c / 10 ^ k) by (apply Z.div_le_lower_bound; lia).
  unfold Dec.round_div. destruct r.
  - destruct (2 * (c mod 10 ^ k) ?= 10 ^ k); [destruct (Z.even _)| |]; lia.
  - assert (- c <= (- B) * 10 ^ k) by lia.
    pose proof (Z.div_le_upper_bound (- c) (10 ^ k) (- B) Hp ltac:(lia)). lia.
  - exact Hq.
Qed.

Lemma round_div_le r c k B :
  0 <= k -> c <= B * 10 ^ k -> Dec.round_div r c k <= B.
Proof.
  intros Hk H. assert (Hp : 0 < 10 ^ k) by (apply Z.pow_pos_nonneg; lia).
  assert (Hceil : - ((- c) / 10 ^ k) <= B).
  { assert ((- B) * 10 ^ k <= - c) by lia.
    pose proof (Z.div_le_lower_bound (- c) (10 ^ k) (- B) Hp ltac:(lia)). lia. }
  assert (Hfl : c / 10 ^ k <= - ((- c) / 10 ^ k)).
  { pose proof (Z.div_mod c (10 ^ k) ltac:(lia)).
    pose proof (Z.mod_pos_bound c (10 ^ k) Hp).
    pose proof (Z.div_mod (- c) (10 ^ k) ltac:(lia)).
    pose proof (Z.mod_pos_bound (- c) (10 ^ k) Hp). nia. }
  assert (Hmid : c mod 10 ^ k = 0 \/ c / 10 ^ k + 1 <= - ((- c) / 10 ^ k)).
  { pose proof (Z.div_mod c (10 ^ k) ltac:(lia)).
    pose proof (Z.mod_pos_bound c (10 ^ k) Hp).
    pose proof (Z.div_mod (- c) (10 ^ k) ltac:(lia)).
    pose proof (Z.mod_pos_bound (- c) (10 ^ k) Hp).
    destruct (Z.eq_dec (c mod 10 ^ k) 0); [now left|right]. nia. }
  unfold Dec.round_div. destruct r.
  - destruct (Z.compare_spec (2 * (c mod 10 ^ k)) (10 ^ k));
      [destruct (Z.even _)| |]; lia.
  - exact Hceil.
  - lia.
Qed.

(** The rounded quotient is less than one unit away from the quotient. *)
Lemma round_div_near r c k :
  0 <= k ->
  (Dec.round_div r c k - 1) * 10 ^ k < c < (Dec.round_div r c k + 1) * 10 ^ k.
Proof.
  intros Hk. assert (Hp : 0 < 10 ^ k) by (apply Z.pow_pos_nonneg; lia).
  pose proof (Z.div_mod c (10 ^ k) ltac:(lia)).
  pose proof (Z.mod_pos_bound c (10 ^ k) Hp).
  pose proof (Z.div_mod (- c) (10 ^ k) ltac:(lia)).
  pose proof (Z.mod_pos_bound (- c) (10 ^ k) Hp).
  unfold Dec.round_div. destruct r.
  - destruct (Z.compare_spec (2 * (c mod 10 ^ k)) (10 ^ k));
      [destruct (Z.even _)| |]; nia.
  - nia.
  - nia.
Qed.

Local Open Scope Q_scope.

(** ** Rounding to a grid keeps representable bounds *)

Lemma inject_Z_lt_cancel (a b : Z) (p : Q) :
  0 < p -> inject_Z a * p < inject_Z b * p -> (a < b)%Z.
Proof.
  intros Hp H. rewrite Zlt_Qlt.
  apply (Qmult_lt_r _ _ p Hp). exact H.
Qed.

Lemma inject_Z_le_compat (a b : Z) (p : Q) :
  0 < p -> (a <= b)%Z -> inject_Z a * p <= inject_Z b * p.
Proof.
  intros Hp H. apply Qmult_le_compat_r; [|lra]. now rewrite <- Zle_Qle.
Qed.

Lemma inject_Z_lt_compat (a b : Z) (p : Q) :
  0 < p -> (a < b)%Z -> inject_Z a * p < inject_Z b * p.
Proof.
  intros Hp H. apply Qmult_lt_compat_r; [exact Hp|]. now rewrite <- Zlt_Qlt.
Qed.

(** A decimal whose exponent is at least [E] is a multiple of [10^E]. *)
Lemma toQ_on_grid b E :
  (E <= Dec.dexp b)%Z ->
  toQ b == inject_Z (Dec.dcoef b * 10 ^ (Dec.dexp b - E)) * 10 ^ E.
Proof.
  intros H.
  pose proof (toQ_scale (Dec.dcoef b) (Dec.dexp b) (Dec.dexp b - E) ltac:(lia)) as S.
  unfold toQ at 1, D in S; cbn in S.
  replace (Dec.dexp b - (Dec.dexp b - E))%Z with E in S by lia.
  destruct b as [c e]. unfold D in S. cbn in *. symmetry. exact S.
Qed.

(** A decimal of at most 28 digits with exponent below [E] is smaller in
    magnitude than [10^(27+E)]. *)
Lemma toQ_below_grid b E :
  fits b -> (Dec.dexp b < E)%Z ->
  - 10 ^ (27 + E) < toQ b < 10 ^ (27 + E).
Proof.
  unfold fits. intros F H.
  assert (Hp : 10 ^ (28 + Dec.dexp b) <= 10 ^ (27 + E)) by (apply pow10_le; lia).
  assert (Hs : inject_Z (10 ^ 28) * 10 ^ Dec.dexp b == 10 ^ (28 + Dec.dexp b)).
  { rewrite pow10_inject, <- pow10_add by lia. reflexivity. }
  pose proof (pow10_pos (Dec.dexp b)) as P.
  unfold toQ. split.
  - assert (inject_Z (- 10 ^ 28) * 10 ^ Dec.dexp b
            < inject_Z (Dec.dcoef b) * 10 ^ Dec.dexp b)
      by (apply inject_Z_lt_compat; [exact P|lia]).
    rewrite inject_Z_opp in H0. lra.
  - assert (inject_Z (Dec.dcoef b) * 10 ^ Dec.dexp b
            < inject_Z (10 ^ 28) * 10 ^ Dec.dexp b)
      by (apply inject_Z_lt_compat; [exact P|lia]).
    lra.
Qed.

Lemma pow10_split27 E : 10 ^ (27 + E) == inject_Z (10 ^ 27) * 10 ^ E.
Proof. rewrite pow10_add, pow10_inject by lia. reflexivity. Qed.

Lemma grid_ge (b : Decimal) (x : Q) (c E : Z) :
  fits b ->
  10 ^ (27 + E) <= x \/ x <= - 10 ^ (27 + E) ->
  x < (inject_Z c + 1) * 10 ^ E ->
  toQ b <= x -> toQ b <= inject_Z c * 10 ^ E.
Proof.
  intros F M N H. pose proof (pow10_pos E) as P.
  destruct (Z.le_gt_cases E (Dec.dexp b)) as [G|L].
  - rewrite (toQ_on_grid b E G) in *.
    set (B := (Dec.dcoef b * 10 ^ (Dec.dexp b - E))%Z) in *.
    apply inject_Z_le_compat; [exact P|].
    assert (B < c + 1)%Z; [|lia].
    apply (inject_Z_lt_cancel _ _ (10 ^ E) P).
    rewrite inject_Z_plus. change (inject_Z 1) with 1. lra.
  - pose proof (toQ_below_grid b E F ltac:(lia)) as [Blo Bhi].
    destruct M as [M|M]; [|lra].
    assert (10 ^ 27 - 1 < c)%Z.
    { apply (inject_Z_lt_cancel _ _ (10 ^ E) P).
      unfold Z.sub. rewrite inject_Z_plus, inject_Z_opp.
      rewrite pow10_split27 in M. change (inject_Z 1) with 1. lra. }
    assert (inject_Z (10 ^ 27) * 10 ^ E <= inject_Z c * 10 ^ E)
      by (apply inject_Z_le_compat; [exact P|lia]).
    rewrite pow10_split27 in Bhi. lra.
Qed.

Lemma grid_le (b : Decimal) (x : Q) (c E : Z) :
  fits b ->
  10 ^ (27 + E) <= x \/ x <= - 10 ^ (27 + E) ->
  (inject_Z c - 1) * 10 ^ E < x ->
  x <= toQ b -> inject_Z c * 10 ^ E <= toQ b.
Proof.
  intros F M N H. pose proof (pow10_pos E) as P.
  destruct (Z.le_gt_cases E (Dec.dexp b)) as [G|L].
  - rewrite (toQ_on_grid b E G) in *.
    set (B := (Dec.dcoef b * 10 ^ (Dec.dexp b - E))%Z) in *.
    apply inject_Z_le_compat; [exact P|].
    assert (c - 1 < B)%Z; [|lia].
    apply (inject_Z_lt_cancel _ _ (10 ^ E) P).
    unfold Z.sub. rewrite inject_Z_plus, inject_Z_opp. change (inject_Z 1) with 1. lra.
  - pose proof (toQ_below_grid b E F ltac:(lia)) as [Blo Bhi].
    destruct M as [M|M]; [lra|].
    assert (c < - 10 ^ 27 + 1)%Z.
    { apply (inject_Z_lt_cancel _ _ (10 ^ E) P).
      rewrite inject_Z_plus, inject_Z_opp.
      rewrite pow10_split27 in M. change (inject_Z 1) with 1. lra. }
    assert (inject_Z c * 10 ^ E <= inject_Z (- 10 ^ 27) * 10 ^ E)
      by (apply inject_Z_le_compat; [exact P|lia]).
    rewrite inject_Z_opp in H1.
    rewrite pow10_split27 in Blo. lra.
Qed.

(** ** Context rounding *)

(** [fix_] either leaves its argument alone or rounds a coefficient of
    [28 + k] digits to the grid [10 ^ (dexp + k)]. *)
Lemma fix_cases d :
  Dec.fix_ d = d
  \/ exists k c',
      (0 < k)%Z
      /\ c' = Dec.round_div Dec.ROUND_HALF_EVEN (Dec.dcoef d) k
      /\ (10 ^ (27 + k) <= Z.abs (Dec.dcoef d))%Z
      /\ toQ (Dec.fix_ d) == inject_Z c' * 10 ^ (Dec.dexp d + k).
Proof.
  unfold Dec.fix_, Dec.PREC.
  destruct (Z.leb_spec (Dec.ndigits (Dec.dcoef d)) 28) as [L|G]; [now left|right].
  assert (Hc : Dec.dcoef d <> 0%Z) by (intros E; rewrite E, ndigits_0 in G; lia).
  destruct (ndigits_spec _ Hc) as [[Hlo Hhi] _].
  set (n := Dec.ndigits (Dec.dcoef d)) in *.
  set (k := (n - 28)%Z).
  set (c' := Dec.round_div Dec.ROUND_HALF_EVEN (Dec.dcoef d) k).
  exists k, c'. split; [lia|]. split; [reflexivity|].
  replace (27 + k)%Z with (n - 1)%Z by lia. split; [exact Hlo|].
  destruct (Z.leb_spec (Dec.ndigits c') 28) as [L|G']; [reflexivity|].
  (* the coefficient was rounded up to 10^28 *)
  assert (Hpow : (10 ^ n = 10 ^ 28 * 10 ^ k)%Z).
  { rewrite <- Z.pow_add_r by lia. f_equal. lia. }
  assert (Hup : (c' <= 10 ^ 28)%Z) by (apply round_div_le; lia).
  assert (Hdn : (- 10 ^ 28 <= c')%Z) by (apply round_div_ge; lia).
  assert (Hc' : c' <> 0%Z) by (intros E; rewrite E, ndigits_0 in G'; lia).
  assert (Hbig : ~ (Z.abs c' < 10 ^ 28)%Z)
    by (intros H; apply (ndigits_small _ Hc') in H; lia).
  assert (E10 : (c' = c' / 10 * 10 ^ 1)%Z).
  { assert (c' = 10 ^ 28 \/ c' = - 10 ^ 28)%Z as [->| ->] by lia; reflexivity. }
  pose proof (toQ_scale (c' / 10) (Dec.dexp d + k + 1) 1 ltac:(lia)) as S.
  rewrite <- E10 in S.
  replace (Dec.dexp d + k + 1 - 1)%Z with (Dec.dexp d + k)%Z in S by lia.
  symmetry. exact S.
Qed.

Lemma toQ_magnitude c e k :
  (0 <= k)%Z -> (10 ^ (27 + k) <= Z.abs c)%Z ->
  10 ^ (27 + (e + k)) <= toQ (D c e) \/ toQ (D c e) <= - 10 ^ (27 + (e + k)).
Proof.
  intros Hk H. unfold toQ, D; cbn. pose proof (pow10_pos e) as P.
  assert (E : 10 ^ (27 + (e + k)) == inject_Z (10 ^ (27 + k)) * 10 ^ e).
  { replace (27 + (e + k))%Z with ((27 + k) + e)%Z by lia.
    rewrite pow10_add, pow10_inject by lia. reflexivity. }
  rewrite E. destruct (Z.le_gt_cases 0 c) as [Pos|Neg].
  - left. apply inject_Z_le_compat; [exact P|lia].
  - right.
    assert (inject_Z c * 10 ^ e <= inject_Z (- 10 ^ (27 + k)) * 10 ^ e)
      by (apply inject_Z_le_compat; [exact P|lia]).
    rewrite inject_Z_opp in H0. lra.
Qed.

Lemma round_near_Q c e k c' :
  (0 <= k)%Z -> c' = Dec.round_div Dec.ROUND_HALF_EVEN c k ->
  (inject_Z c' - 1) * 10 ^ (e + k) < toQ (D c e)
  /\ toQ (D c e) < (inject_Z c' + 1) * 10 ^ (e + k).
Proof.
  intros Hk ->. pose proof (round_div_near Dec.ROUND_HALF_EVEN c k Hk) as [Lo Hi].
  set (c' := Dec.round_div Dec.ROUND_HALF_EVEN c k) in *.
  unfold toQ, D; cbn [Dec.dcoef Dec.dexp]. pose proof (pow10_pos e) as P.
  assert (E : forall z : Z,
             inject_Z z * 10 ^ (e + k) == inject_Z (z * 10 ^ k) * 10 ^ e).
  { intros z.
    rewrite inject_Z_mult, pow10_inject, (Z.add_comm e k), pow10_add by lia.
    ring. }
  pose proof (inject_Z_lt_compat _ _ _ P Lo) as Lo'.
  pose proof (inject_Z_lt_compat _ _ _ P Hi) as Hi'.
  rewrite <- E in Lo', Hi'.
  unfold Z.sub in Lo'. rewrite inject_Z_plus, inject_Z_opp in Lo'.
  rewrite inject_Z_plus in Hi'.
  change (inject_Z 1) with 1 in *.
  split; lra.
Qed.

(** Context rounding never crosses a decimal of at most 28 digits. *)
Lemma fix_ge b d : fits b -> toQ b <= toQ d -> toQ b <= toQ (Dec.fix_ d).
Proof.
  intros F H. destruct (fix_cases d) as [->|(k & c' & Hk & Hc' & Hmag & ->)];
    [exact H|].
  destruct d as [c e]. cbn [Dec.dcoef Dec.dexp] in *.
  destruct (round_near_Q c e k c' ltac:(lia) Hc') as [_ Hi].
  apply (grid_ge b (toQ (D c e)) c' (e + k) F); auto.
  apply toQ_magnitude; [lia|exact Hmag].
Qed.

Lemma fix_le b d : fits b -> toQ d <= toQ b -> toQ (Dec.fix_ d) <= toQ b.
Proof.
  intros F H. destruct (fix_cases d) as [->|(k & c' & Hk & Hc' & Hmag & ->)];
    [exact H|].
  destruct d as [c e]. cbn [Dec.dcoef Dec.dexp] in *.
  destruct (round_near_Q c e k c' ltac:(lia) Hc') as [Lo _].
  apply (grid_le b (toQ (D c e)) c' (e + k) F); auto.
  apply toQ_magnitude; [lia|exact Hmag].
Qed.

(** Bounds of the arithmetic operators, from bounds of the exact result. *)
Lemma add_bounds lo hi a b :
  fits lo -> fits hi -> toQ lo <= toQ a + toQ b <= toQ hi ->
  toQ lo <= toQ (Dec.add a b) <= toQ hi.
Proof.
  intros Flo Fhi [H1 H2]. rewrite <- toQ_add_exact in H1, H2.
  split; [now apply fix_ge | now apply fix_le].
Qed.

Lemma sub_bounds lo hi a b :
  fits lo -> fits hi -> toQ lo <= toQ a - toQ b <= toQ hi ->
  toQ lo <= toQ (Dec.sub a b) <= toQ hi.
Proof.
  intros Flo Fhi [H1 H2]. rewrite <- toQ_sub_exact in H1, H2.
  split; [now apply fix_ge | now apply fix_le].
Qed.

Lemma mul_bounds lo hi a b :
  fits lo -> fits hi -> toQ lo <= toQ a * toQ b <= toQ hi ->
  toQ lo <= toQ (Dec.mul a b) <= toQ hi.
Proof.
  intros Flo Fhi [H1 H2]. rewrite <- toQ_mul_exact in H1, H2.
  split; [now apply fix_ge | now apply fix_le].
Qed.

Lemma neg_bounds lo hi a :
  fits lo -> fits hi -> toQ lo <= - toQ a <= toQ hi ->
  toQ lo <= toQ (Dec.neg a) <= toQ hi.
Proof.
  intros Flo Fhi [H1 H2]. rewrite <- toQ_opp_exact in H1, H2.
  split; [now apply fix_ge | now apply fix_le].
Qed.

(** ** quantize *)

Lemma rescale_exp r a q : Dec.dexp (Dec.rescale r a q) = q.
Proof. unfold Dec.rescale. destruct (q <=? Dec.dexp a)%Z; reflexivity. Qed.

Lemma rescale_exact r a q :
  (q <= Dec.dexp a)%Z -> toQ (Dec.rescale r a q) == toQ a.
Proof.
  intros L. unfold Dec.rescale.
  destruct (Z.leb_spec q (Dec.dexp a)) as [_|G]; [|lia].
  rewrite (toQ_on_grid a q L). reflexivity.
Qed.

Lemma rescale_round r a q :
  (Dec.dexp a < q)%Z ->
  toQ (Dec.rescale r a q)
  == inject_Z (Dec.round_div r (Dec.dcoef a) (q - Dec.dexp a)) * 10 ^ q.
Proof.
  intros L. unfold Dec.rescale.
  destruct (Z.leb_spec q (Dec.dexp a)) as [G|_]; [lia|]. reflexivity.
Qed.

Lemma grid_scale a q (z : Z) :
  (Dec.dexp a < q)%Z ->
  inject_Z z * 10 ^ q
  == inject_Z (z * 10 ^ (q - Dec.dexp a)) * 10 ^ Dec.dexp a.
Proof.
  intros L. replace q with ((q - Dec.dexp a) + Dec.dexp a)%Z at 1 by lia.
  rewrite inject_Z_mult, pow10_inject, pow10_add by lia. ring.
Qed.

(** The rescaled value is the value itself when the exponent does not grow,
    and otherwise within one unit of the new last place, on the side the
    rounding mode asks for. *)
Lemma rescale_floor a q :
  toQ (Dec.rescale Dec.ROUND_FLOOR a q) <= toQ a
  /\ toQ a < toQ (Dec.rescale Dec.ROUND_FLOOR a q) + 10 ^ q.
Proof.
  pose proof (pow10_pos q) as Pq.
  destruct (Z.le_gt_cases q (Dec.dexp a)) as [L|G].
  - rewrite (rescale_exact _ a q L). split; lra.
  - rewrite (rescale_round _ a q G).
    set (k := (q - Dec.dexp a)%Z). pose proof (pow10_pos (Dec.dexp a)) as P.
    assert (Hp : (0 < 10 ^ k)%Z) by (apply Z.pow_pos_nonneg; lia).
    pose proof (Z.div_mod (Dec.dcoef a) (10 ^ k) ltac:(lia)) as Hdm.
    pose proof (Z.mod_pos_bound (Dec.dcoef a) (10 ^ k) Hp) as Hm.
    cbn [Dec.round_div].
    set (f := (Dec.dcoef a / 10 ^ k)%Z) in *.
    assert (L1 : (f * 10 ^ k <= Dec.dcoef a)%Z) by lia.
    assert (L2 : (Dec.dcoef a < (f + 1) * 10 ^ k)%Z) by lia.
    pose proof (inject_Z_le_compat _ _ _ P L1) as L1'.
    pose proof (inject_Z_lt_compat _ _ _ P L2) as L2'.
    unfold k in L1', L2'.
    rewrite <- (grid_scale a q _ G) in L1'.
    rewrite <- (grid_scale a q _ G) in L2'. rewrite inject_Z_plus in L2'.
    change (inject_Z 1) with 1 in *. unfold toQ. split; lra.
Qed.

Lemma rescale_ceiling a q :
  toQ a <= toQ (Dec.rescale Dec.ROUND_CEILING a q)
  /\ toQ (Dec.rescale Dec.ROUND_CEILING a q) < toQ a + 10 ^ q.
Proof.
  pose proof (pow10_pos q) as Pq.
  destruct (Z.le_gt_cases q (Dec.dexp a)) as [L|G].
  - rewrite (rescale_exact _ a q L). split; lra.
  - rewrite (rescale_round _ a q G).
    set (k := (q - Dec.dexp a)%Z). pose proof (pow10_pos (Dec.dexp a)) as P.
    assert (Hp : (0 < 10 ^ k)%Z) by (apply Z.pow_pos_nonneg; lia).
    pose proof (Z.div_mod (- Dec.dcoef a) (10 ^ k) ltac:(lia)) as Hdm.
    pose proof (Z.mod_pos_bound (- Dec.dcoef a) (10 ^ k) Hp) as Hm.
    cbn [Dec.round_div].
    set (f := (- (- Dec.dcoef a / 10 ^ k))%Z) in *.
    assert (L1 : (Dec.dcoef a <= f * 10 ^ k)%Z) by lia.
    assert (L2 : ((f + -1) * 10 ^ k < Dec.dcoef a)%Z) by lia.
    pose proof (inject_Z_le_compat _ _ _ P L1) as L1'.
    pose proof (inject_Z_lt_compat _ _ _ P L2) as L2'.
    unfold k in L1', L2'.
    rewrite <- (grid_scale a q _ G) in L1'.
    rewrite <- (grid_scale a q _ G) in L2'. rewrite inject_Z_plus in L2'.
    change (inject_Z (-1)) with (-(1)) in *. unfold toQ. split; lra.
Qed.

Lemma is_zero_coef a : Dec.is_zero a = true -> Dec.dcoef a = 0%Z.
Proof. unfold Dec.is_zero. apply Z.eqb_eq. Qed.

Lemma toQ_zero e : toQ (Dec.mk 0 e) == 0.
Proof. unfold toQ; cbn. ring. Qed.

Lemma quantize_inv r a q v :
  Dec.quantize r a q = Ok v ->
  Dec.dexp v = q /\ (v = Dec.rescale r a q \/ (toQ a == 0 /\ toQ v == 0)).
Proof.
  unfold Dec.quantize. destruct (Dec.is_zero a) eqn:Z0.
  - intros [= <-]. split; [reflexivity|]. right.
    split; [apply is_zero_toQ, Z0 | apply toQ_zero].
  - destruct (_ <? _)%Z; [discriminate|].
    destruct (_ <? _)%Z; [discriminate|]. intros [= <-].
    split; [apply rescale_exp | now left].
Qed.

(** [quantize] with ROUND_FLOOR: the largest multiple of [10^q] not above
    the argument. *)
Lemma quantize_floor a q v :
  Dec.quantize Dec.ROUND_FLOOR a q = Ok v ->
  Dec.dexp v = q /\ toQ v <= toQ a /\ toQ a < toQ v + 10 ^ q.
Proof.
  intros H. apply quantize_inv in H as [E [->|[Ha Hv]]].
  - split; [exact E|]. apply rescale_floor.
  - split; [exact E|]. pose proof (pow10_pos q). rewrite Ha, Hv. split; lra.
Qed.

(** [quantize] with ROUND_CEILING: the smallest multiple of [10^q] not below
    the argument. *)
Lemma quantize_ceiling a q v :
  Dec.quantize Dec.ROUND_CEILING a q = Ok v ->
  Dec.dexp v = q /\ toQ a <= toQ v /\ toQ v < toQ a + 10 ^ q.
Proof.
  intros H. apply quantize_inv in H as [E [->|[Ha Hv]]].
  - split; [exact E|]. apply rescale_ceiling.
  - split; [exact E|]. pose proof (pow10_pos q). rewrite Ha, Hv. split; lra.
Qed.

Lemma coef_bound (c e B : Z) :
  - (inject_Z B * 10 ^ e) <= inject_Z c * 10 ^ e <= inject_Z B * 10 ^ e ->
  (Z.abs c <= B)%Z.
Proof.
  intros [L U]. pose proof (pow10_pos e) as P.
  assert (L' : inject_Z (- B) * 10 ^ e <= inject_Z c * 10 ^ e)
    by (rewrite inject_Z_opp; lra).
  apply Qmult_le_r in L'; [|exact P]. apply Qmult_le_r in U; [|exact P].
  rewrite <- Zle_Qle in L', U. lia.
Qed.

Lemma digits_magnitude a :
  Dec.dcoef a <> 0%Z ->
  10 ^ (Dec.ndigits (Dec.dcoef a) - 1 + Dec.dexp a) <= toQ a
  \/ toQ a <= - 10 ^ (Dec.ndigits (Dec.dcoef a) - 1 + Dec.dexp a).
Proof.
  intros N. destruct (ndigits_spec _ N) as [[Hlo _] H1].
  set (n := Dec.ndigits (Dec.dcoef a)) in *.
  pose proof (pow10_pos (Dec.dexp a)) as P.
  rewrite pow10_add, <- (pow10_inject (n - 1)) by lia. unfold toQ.
  destruct (Z.le_gt_cases 0 (Dec.dcoef a)) as [G|L].
  - left. apply Qmult_le_r; [exact P|]. rewrite <- Zle_Qle. lia.
  - right.
    assert (H : inject_Z (10 ^ (n - 1)) * 10 ^ Dec.dexp a
                <= inject_Z (- Dec.dcoef a) * 10 ^ Dec.dexp a).
    { apply Qmult_le_r; [exact P|]. rewrite <- Zle_Qle. lia. }
    rewrite inject_Z_opp in H. lra.
Qed.

Lemma quantize_total r a q :
  toQ a - 10 ^ q < toQ (Dec.rescale r a q) < toQ a + 10 ^ q ->
  - 10 ^ (27 + q) <= toQ a <= 10 ^ (27 + q) ->
  exists v, Dec.quantize r a q = Ok v.
Proof.
  intros Hr Hm. unfold Dec.quantize.
  destruct (Dec.is_zero a) eqn:Z0; [eauto|].
  assert (N : Dec.dcoef a <> 0%Z)
    by (unfold Dec.is_zero in Z0; apply Z.eqb_neq in Z0; exact Z0).
  destruct (Z.ltb_spec Dec.PREC
              (Dec.dexp a + Dec.ndigits (Dec.dcoef a) - q)) as [G|L].
  { exfalso. pose proof (digits_magnitude a N) as M.
    assert (10 ^ (28 + q)
            <= 10 ^ (Dec.ndigits (Dec.dcoef a) - 1 + Dec.dexp a))
      by (apply pow10_le; unfold Dec.PREC in G; lia).
    assert (E : 10 ^ (28 + q) == 10 * 10 ^ (27 + q)).
    { replace (28 + q)%Z with (1 + (27 + q))%Z by lia.
      rewrite pow10_add. reflexivity. }
    pose proof (pow10_pos (27 + q)). destruct M; lra. }
  cbn zeta.
  destruct (Z.ltb_spec Dec.PREC
              (Dec.ndigits (Dec.dcoef (Dec.rescale r a q)))) as [G|_];
    [exfalso|eauto].
  set (v := Dec.rescale r a q) in *.
  assert (Ev : Dec.dexp v = q) by apply rescale_exp.
  assert (B : (Z.abs (Dec.dcoef v) <= 10 ^ 27 + 1)%Z).
  { apply (coef_bound _ q).
    rewrite inject_Z_plus. change (inject_Z 1) with 1.
    pose proof (pow10_split27 q) as S27. pose proof (pow10_pos q).
    unfold toQ in Hr at 2 3. rewrite Ev in Hr. split; lra. }
  destruct (Z.eq_dec (Dec.dcoef v) 0%Z) as [E0|N0].
  - rewrite E0, ndigits_0 in G. unfold Dec.PREC in G. lia.
  - pose proof (proj2 (ndigits_small _ N0)) as S.
    unfold Dec.PREC in G. lia.
Qed.

Lemma quantize_floor_total a q :
  - 10 ^ (27 + q) <= toQ a <= 10 ^ (27 + q) ->
  exists v, Dec.quantize Dec.ROUND_FLOOR a q = Ok v.
Proof.
  apply quantize_total. pose proof (rescale_floor a q). lra.
Qed.

Lemma quantize_ceiling_total a q :
  - 10 ^ (27 + q) <= toQ a <= 10 ^ (27 + q) ->
  exists v, Dec.quantize Dec.ROUND_CEILING a q = Ok v.
Proof.
  apply quantize_total. pose proof (rescale_ceiling a q). lra.
Qed.

(** ** Division *)

Lemma strip_zeros_value fuel : forall coeff e ideal,
  inject_Z (Dec.strip_zeros fuel coeff e ideal).1
    * 10 ^ (Dec.strip_zeros fuel coeff e ideal).2
  == inject_Z coeff * 10 ^ e.
Proof.
  induction fuel as [|f IH]; intros coeff e ideal; cbn [Dec.strip_zeros].
  - reflexivity.
  - destruct ((e <? ideal)%Z && (coeff mod 10 =? 0)%Z) eqn:C; [|reflexivity].
    apply andb_prop in C as [_ C]. apply Z.eqb_eq in C.
    rewrite IH.
    pose proof (Z.div_mod coeff 10 ltac:(lia)) as Hdm. rewrite C in Hdm.
    rewrite Hdm at 2. rewrite Z.add_0_r, inject_Z_mult.
    replace (e + 1)%Z with (1 + e)%Z by lia. rewrite pow10_add.
    change (inject_Z 10) with 10. change (10 ^ 1) with 10. ring.
Qed.


Lemma inject_Z_pos (z : Z) : (0 < z)%Z -> 0 < inject_Z z.
Proof. intros H. change 0 with (inject_Z 0). now rewrite <- Zlt_Qlt. Qed.

Lemma div_scaled_spec x y shift :
  (0 < x)%Z -> (0 < y)%Z ->
  let r := inject_Z x / inject_Z y * 10 ^ shift in
  let '(coeff, remainder) := div_scaled x y shift in
  (0 <= coeff)%Z /\
  (remainder = 0%Z -> r == inject_Z coeff) /\
  (remainder <> 0%Z -> inject_Z coeff < r < inject_Z coeff + 1).
Proof.
  intros Hx Hy r. unfold div_scaled.
  pose proof (inject_Z_pos _ Hx) as Qx. pose proof (inject_Z_pos _ Hy) as Qy.
  destruct (Z.leb_spec 0 shift) as [G|L].
  - assert (Hn : (0 <= x * 10 ^ shift)%Z).
    { apply Z.mul_nonneg_nonneg; [lia|]. apply Z.pow_nonneg. lia. }
    pose proof (Z.div_eucl_eq (x * 10 ^ shift) y ltac:(lia)) as E.
    pose proof (Z.mod_pos_bound (x * 10 ^ shift) y Hy) as B.
    pose proof (Z.div_pos (x * 10 ^ shift) y Hn Hy) as Pc.
    unfold Z.modulo, Z.div in B, Pc.
    destruct (Z.div_eucl (x * 10 ^ shift) y) as [coeff remainder].
    assert (Er : r * inject_Z y == inject_Z (y * coeff + remainder)).
    { rewrite <- E. unfold r. rewrite inject_Z_mult, pow10_inject by lia.
      field. lra. }
    rewrite inject_Z_plus, inject_Z_mult in Er.
    split; [exact Pc|]. split.
    + intros ->. change (inject_Z 0) with 0 in Er.
      apply (Qmult_inj_r _ _ (inject_Z y)); [lra|]. rewrite Er. ring.
    + intros Nz.
      assert (R0 : 0 < inject_Z remainder) by (apply inject_Z_pos; lia).
      assert (R1 : inject_Z remainder < inject_Z y)
        by (rewrite <- Zlt_Qlt; lia).
      split.
      * apply (Qmult_lt_r _ _ (inject_Z y)); [exact Qy|]. lra.
      * apply (Qmult_lt_r _ _ (inject_Z y)); [exact Qy|]. lra.
  - set (d := (y * 10 ^ (- shift))%Z).
    assert (Hp : (0 < 10 ^ (- shift))%Z) by (apply Z.pow_pos_nonneg; lia).
    assert (Hd : (0 < d)%Z) by (apply Z.mul_pos_pos; lia).
    pose proof (inject_Z_pos _ Hd) as Qd.
    pose proof (Z.div_eucl_eq x d ltac:(lia)) as E.
    pose proof (Z.mod_pos_bound x d Hd) as B.
    pose proof (Z.div_pos x d ltac:(lia) Hd) as Pc.
    unfold Z.modulo, Z.div in B, Pc.
    destruct (Z.div_eucl x d) as [coeff remainder].
    assert (Er : r * inject_Z d == inject_Z (d * coeff + remainder)).
    { rewrite <- E. unfold r, d.
      rewrite inject_Z_mult, pow10_inject by lia.
      replace shift with (0 - - shift)%Z at 1 by lia. rewrite pow10_sub.
      pose proof (pow10_pos (- shift)). change (10 ^ 0) with 1.
      field. split; lra. }
    rewrite inject_Z_plus, inject_Z_mult in Er.
    split; [exact Pc|]. split.
    + intros ->. change (inject_Z 0) with 0 in Er.
      apply (Qmult_inj_r _ _ (inject_Z d)); [lra|]. rewrite Er. ring.
    + intros Nz.
      assert (R0 : 0 < inject_Z remainder) by (apply inject_Z_pos; lia).
      assert (R1 : inject_Z remainder < inject_Z d)
        by (rewrite <- Zlt_Qlt; lia).
      split.
      * apply (Qmult_lt_r _ _ (inject_Z d)); [exact Qd|]. lra.
      * apply (Qmult_lt_r _ _ (inject_Z d)); [exact Qd|]. lra.
Qed.

Lemma div_scaled_large x y :
  (0 < x)%Z -> (0 < y)%Z ->
  (10 ^ 28
   <= (div_scaled x y (Dec.ndigits y - Dec.ndigits x + Dec.PREC + 1)).1)%Z.
Proof.
  intros Hx Hy.
  set (shift := (Dec.ndigits y - Dec.ndigits x + Dec.PREC + 1)%Z).
  pose proof (div_scaled_spec x y shift Hx Hy) as S. cbn zeta in S.
  set (r := inject_Z x / inject_Z y * 10 ^ shift) in S.
  pose proof (inject_Z_pos _ Hx) as Qx. pose proof (inject_Z_pos _ Hy) as Qy.
  destruct (ndigits_spec x ltac:(lia)) as [[Xlo _] X1].
  destruct (ndigits_spec y ltac:(lia)) as [[_ Yhi] Y1].
  rewrite Z.abs_eq in Xlo, Yhi by lia.
  assert (R : 10 ^ 28 <= r).
  { apply (Qmult_le_r _ _ (inject_Z y)); [exact Qy|].
    assert (E1 : r * inject_Z y == inject_Z x * 10 ^ shift)
      by (unfold r; field; lra).
    rewrite E1.
    assert (L1 : 10 ^ 28 * inject_Z y <= 10 ^ 28 * 10 ^ Dec.ndigits y).
    { apply Qmult_le_l; [apply pow10_pos|].
      rewrite <- pow10_inject by lia. rewrite <- Zle_Qle. lia. }
    assert (L2 : 10 ^ (Dec.ndigits x - 1) * 10 ^ shift
                 <= inject_Z x * 10 ^ shift).
    { apply Qmult_le_r; [apply pow10_pos|].
      rewrite <- pow10_inject by lia. rewrite <- Zle_Qle. lia. }
    rewrite <- !pow10_add in L1, L2.
    replace (Dec.ndigits x - 1 + shift)%Z with (28 + Dec.ndigits y)%Z in L2
      by (unfold shift, Dec.PREC; lia).
    lra. }
  destruct (div_scaled x y shift) as [coeff remainder].
  destruct S as (Pc & S0 & S1). cbn [fst].
  rewrite <- (pow10_inject 28) in R by lia.
  destruct (Z.eq_dec remainder 0%Z) as [E|N].
  - rewrite (S0 E) in R. now rewrite <- Zle_Qle in R.
  - destruct (S1 N) as [_ U].
    assert (U' : inject_Z (10 ^ 28) < inject_Z (coeff + 1))
      by (rewrite inject_Z_plus; change (inject_Z 1) with 1; lra).
    rewrite <- Zlt_Qlt in U'. lia.
Qed.

Lemma toQ_quotient a b :
  Dec.dcoef a <> 0%Z -> Dec.dcoef b <> 0%Z ->
  forall shift,
  toQ a / toQ b
  == inject_Z (Z.sgn (Dec.dcoef a) * Z.sgn (Dec.dcoef b))
     * (inject_Z (Z.abs (Dec.dcoef a)) / inject_Z (Z.abs (Dec.dcoef b))
        * 10 ^ shift)
     * 10 ^ (Dec.dexp a - Dec.dexp b - shift).
Proof.
  intros Na Nb shift. unfold toQ.
  replace (Dec.dexp a - Dec.dexp b - shift)%Z
    with (Dec.dexp a + (- Dec.dexp b + - shift))%Z by lia.
  rewrite !pow10_add.
  assert (Eb : 10 ^ (- Dec.dexp b) == / 10 ^ Dec.dexp b)
    by apply Qpower_opp.
  assert (Es : 10 ^ (- shift) == / 10 ^ shift) by apply Qpower_opp.
  rewrite Eb, Es.
  pose proof (pow10_pos (Dec.dexp b)). pose proof (pow10_pos shift).
  pose proof (pow10_pos (Dec.dexp a)).
  assert (Ya : ~ inject_Z (Dec.dcoef a) == 0).
  { intros E. apply Na. unfold Qeq in E; cbn in E; lia. }
  assert (Yb : ~ inject_Z (Dec.dcoef b) == 0).
  { intros E. apply Nb. unfold Qeq in E; cbn in E; lia. }
  destruct (Z.lt_total (Dec.dcoef a) 0) as [La|[?|Ga]]; [|lia|];
    destruct (Z.lt_total (Dec.dcoef b) 0) as [Lb|[?|Gb]]; try lia.
  - rewrite (Z.sgn_neg _ La), (Z.sgn_neg _ Lb), !Z.abs_neq by lia.
    rewrite !inject_Z_opp. change (inject_Z (-1 * -1)) with 1.
    field. repeat split; lra.
  - rewrite (Z.sgn_neg _ La), (Z.sgn_pos _ Gb), Z.abs_neq, Z.abs_eq by lia.
    rewrite !inject_Z_opp. change (inject_Z (-1 * 1)) with (- (1)).
    field. repeat split; lra.
  - rewrite (Z.sgn_pos _ Ga), (Z.sgn_neg _ Lb), Z.abs_eq, Z.abs_neq by lia.
    rewrite !inject_Z_opp. change (inject_Z (1 * -1)) with (- (1)).
    field. repeat split; lra.
  - rewrite (Z.sgn_pos _ Ga), (Z.sgn_pos _ Gb), !Z.abs_eq by lia.
    change (inject_Z (1 * 1)) with 1.
    field. repeat split; lra.
Qed.

(** The quotient before context rounding: either exact, or a 29-digit
    coefficient within one unit of the true quotient. *)
Lemma div_shape a b q :
  Dec.div a b = Ok q -> Dec.dcoef a <> 0%Z ->
  exists c E,
    q = Dec.fix_ (Dec.mk c E) /\
    (inject_Z c * 10 ^ E == toQ a / toQ b \/
     ((10 ^ (27 + E) <= toQ a / toQ b \/ toQ a / toQ b <= - 10 ^ (27 + E)) /\
      (inject_Z c - 1) * 10 ^ E < toQ a / toQ b < (inject_Z c + 1) * 10 ^ E)).
Proof.
  unfold Dec.div. intros H Na.
  destruct (Dec.is_zero b) eqn:Zb; [discriminate|].
  assert (Nb : Dec.dcoef b <> 0%Z)
    by (unfold Dec.is_zero in Zb; now apply Z.eqb_neq in Zb).
  destruct (Dec.is_zero a) eqn:Za;
    [unfold Dec.is_zero in Za; apply Z.eqb_eq in Za; contradiction|].
  cbn zeta in H.
  set (x := Z.abs (Dec.dcoef a)) in *. set (y := Z.abs (Dec.dcoef b)) in *.
  set (shift := (Dec.ndigits y - Dec.ndigits x + Dec.PREC + 1)%Z) in *.
  set (sgn := (Z.sgn (Dec.dcoef a) * Z.sgn (Dec.dcoef b))%Z) in *.
  set (e := (Dec.dexp a - Dec.dexp b - shift)%Z) in *.
  change (if (0 <=? shift)%Z then Z.div_eucl (x * 10 ^ shift) y
          else Z.div_eucl x (y * 10 ^ (- shift)))
    with (div_scaled x y shift) in H.
  assert (Hx : (0 < x)%Z) by (unfold x; lia).
  assert (Hy : (0 < y)%Z) by (unfold y; lia).
  pose proof (div_scaled_spec x y shift Hx Hy) as S. cbn zeta in S.
  pose proof (div_scaled_large x y Hx Hy) as Lg. fold shift in Lg.
  pose proof (toQ_quotient a b Na Nb shift) as EQ.
  fold x y sgn e in EQ.
  set (r := inject_Z x / inject_Z y * 10 ^ shift) in *.
  destruct (div_scaled x y shift) as [coeff remainder].
  destruct S as (Pc & S0 & S1). cbn [fst] in Lg.
  pose proof (pow10_pos e) as Pe.
  destruct (Z.eqb_spec remainder 0) as [R0|R1].
  - pose proof (strip_zeros_value (Z.to_nat (Dec.ndigits coeff)) coeff e
                  (Dec.dexp a - Dec.dexp b)) as SV.
    destruct (Dec.strip_zeros _ coeff e _) as [c' e']. cbn [fst snd] in SV.
    injection H as <-. exists (sgn * c')%Z, e'. split; [reflexivity|].
    left. rewrite EQ, (S0 R0), inject_Z_mult.
    rewrite <- !Qmult_assoc, SV. reflexivity.
  - injection H as <-.
    set (c' := if (coeff mod 5 =? 0)%Z then (coeff + 1)%Z else coeff).
    exists (sgn * c')%Z, e. split; [reflexivity|]. right.
    destruct (S1 R1) as [Rl Ru].
    assert (C1 : inject_Z coeff <= inject_Z c' <= inject_Z coeff + 1).
    { unfold c'. destruct (coeff mod 5 =? 0)%Z.
      - rewrite inject_Z_plus. change (inject_Z 1) with 1. lra.
      - lra. }
    assert (B28 : 10 ^ 28 <= inject_Z coeff).
    { rewrite <- (pow10_inject 28) by lia. now rewrite <- Zle_Qle. }
    assert (M : 10 ^ (27 + e) <= r * 10 ^ e).
    { rewrite pow10_add. apply Qmult_le_r; [exact Pe|].
      assert (10 ^ 27 <= 10 ^ 28) by (apply pow10_le; lia). lra. }
    assert (Sg : sgn = 1%Z \/ sgn = (-1)%Z) by (unfold sgn; lia).
    rewrite EQ, inject_Z_mult.
    destruct Sg as [->| ->].
    + change (inject_Z 1) with 1. split; [left; lra|].
      split.
      * apply Qle_lt_trans with ((inject_Z coeff) * 10 ^ e).
        -- apply Qmult_le_r; [exact Pe|]. lra.
        -- setoid_replace (1 * r * 10 ^ e) with (r * 10 ^ e)
             using relation Qeq by ring.
           apply Qmult_lt_r; [exact Pe|]. lra.
      * setoid_replace (1 * r * 10 ^ e) with (r * 10 ^ e)
             using relation Qeq by ring.
        apply Qmult_lt_r; [exact Pe|]. lra.
    + change (inject_Z (-1)) with (- (1)). split; [right; lra|].
      split.
      * setoid_replace (- (1) * r * 10 ^ e) with ((- r) * 10 ^ e)
          using relation Qeq by ring.
        apply Qmult_lt_r; [exact Pe|]. lra.
      * setoid_replace (- (1) * r * 10 ^ e) with ((- r) * 10 ^ e)
          using relation Qeq by ring.
        apply Qmult_lt_r; [exact Pe|]. lra.
Qed.

(** Rounded division never crosses a decimal of at most 28 digits. *)
Lemma div_bounds lo hi a b q :
  fits lo -> fits hi -> Dec.div a b = Ok q ->
  toQ lo <= toQ a / toQ b <= toQ hi ->
  toQ lo <= toQ q <= toQ hi.
Proof.
  intros Fl Fh H [L U].
  destruct (Z.eq_dec (Dec.dcoef a) 0%Z) as [Za|Na].
  - unfold Dec.div in H. destruct (Dec.is_zero b); [discriminate|].
    unfold Dec.is_zero in H. rewrite Za in H. cbn in H. injection H as <-.
    assert (E : toQ a / toQ b == 0).
    { unfold toQ at 1. rewrite Za. unfold Qdiv. change (inject_Z 0) with 0.
      ring. }
    rewrite E in L, U. rewrite fix_fits by (unfold fits; cbn; lia).
    rewrite toQ_zero. split; assumption.
  - destruct (div_shape a b q H Na) as (c & E & -> & [Ex|[M [Nl Nu]]]).
    + split; [apply fix_ge|apply fix_le]; try assumption;
        unfold toQ at 2; cbn [Dec.dcoef Dec.dexp]; rewrite Ex; assumption.
    + split.
      * apply fix_ge; [assumption|]. unfold toQ at 2; cbn [Dec.dcoef Dec.dexp].
        exact (grid_ge lo _ c E Fl M Nu L).
      * apply fix_le; [assumption|]. unfold toQ at 1; cbn [Dec.dcoef Dec.dexp].
        exact (grid_le hi _ c E Fh M Nl U).
Qed.

Lemma div_total a b : ~ toQ b == 0 -> exists q, Dec.div a b = Ok q.
Proof.
  intros Nb. unfold Dec.div.
  destruct (Dec.is_zero b) eqn:Zb; [apply is_zero_toQ in Zb; contradiction|].
  destruct (Dec.is_zero a); [eauto|].
  repeat match goal with
         | |- context [let '(_, _) := ?e in _] => destruct e
         end.
  eauto.
Qed.

(** ** Results of the context rounding have at most 28 digits *)

Lemma fix_is_fit d : fits (Dec.fix_ d).
Proof.
  unfold fits, Dec.fix_, Dec.PREC.
  assert (Z0 : forall c, (Dec.ndigits c <= 28)%Z -> (Z.abs c < 10 ^ 28)%Z).
  { intros c H. destruct (Z.eq_dec c 0%Z) as [->|N]; [reflexivity|].
    now apply ndigits_small. }
  destruct (Z.leb_spec (Dec.ndigits (Dec.dcoef d)) 28) as [L|G];
    [now apply Z0|].
  assert (Hc : Dec.dcoef d <> 0%Z) by (intros E; rewrite E, ndigits_0 in G; lia).
  destruct (ndigits_spec _ Hc) as [[Hlo Hhi] _].
  set (n := Dec.ndigits (Dec.dcoef d)) in *.
  set (k := (n - 28)%Z).
  set (c' := Dec.round_div Dec.ROUND_HALF_EVEN (Dec.dcoef d) k).
  destruct (Z.leb_spec (Dec.ndigits c') 28) as [L|G'];
    cbn [Dec.dcoef]; [now apply Z0|].
  assert (Hpow : (10 ^ n = 10 ^ 28 * 10 ^ k)%Z).
  { rewrite <- Z.pow_add_r by lia. f_equal. lia. }
  assert (Hup : (c' <= 10 ^ 28)%Z) by (apply round_div_le; lia).
  assert (Hdn : (- 10 ^ 28 <= c')%Z) by (apply round_div_ge; lia).
  assert (Hc' : c' <> 0%Z) by (intros E; rewrite E, ndigits_0 in G'; lia).
  assert (Hbig : ~ (Z.abs c' < 10 ^ 28)%Z)
    by (intros H; apply (ndigits_small _ Hc') in H; lia).
  assert (c' = 10 ^ 28 \/ c' = - 10 ^ 28)%Z as [->| ->] by lia; reflexivity.
Qed.

Lemma add_fits a b : fits (Dec.add a b).
Proof. apply fix_is_fit. Qed.
Lemma sub_fits a b : fits (Dec.sub a b).
Proof. apply fix_is_fit. Qed.
Lemma mul_fits a b : fits (Dec.mul a b).
Proof. apply fix_is_fit. Qed.
Lemma neg_fits a : fits (Dec.neg a).
Proof. apply fix_is_fit. Qed.

Lemma div_fits a b q : Dec.div a b = Ok q -> fits q.
Proof.
  unfold Dec.div. destruct (Dec.is_zero b); [discriminate|].
  destruct (Dec.is_zero a); [intros [= <-]; apply fix_is_fit|].
  cbn zeta.
  repeat match goal with
         | |- context [let '(_, _) := ?e in _] => destruct e
         end.
  intros [= <-]. apply fix_is_fit.
Qed.

(** ** Square root on the unit interval *)

Lemma toQ_nonneg_coef a : 0 <= toQ a -> (0 <= Dec.dcoef a)%Z.
Proof.
  unfold toQ. intros H. pose proof (pow10_pos (Dec.dexp a)) as P.
  destruct (Z.le_gt_cases 0 (Dec.dcoef a)) as [G|L]; [exact G|exfalso].
  assert (inject_Z (Dec.dcoef a) * 10 ^ Dec.dexp a < 0 * 10 ^ Dec.dexp a).
  { apply Qmult_lt_r; [exact P|]. change 0 with (inject_Z 0).
    now rewrite <- Zlt_Qlt. }
  lra.
Qed.

Lemma coef_nonneg_toQ c e : (0 <= c)%Z -> 0 <= inject_Z c * 10 ^ e.
Proof.
  intros H. pose proof (pow10_pos e) as P.
  apply Qmult_le_0_compat; [|lra]. change 0 with (inject_Z 0).
  now rewrite <- Zle_Qle.
Qed.

Lemma pow10_neg (e : Z) : (e <= 0)%Z -> inject_Z (10 ^ (- e)) * 10 ^ e == 1.
Proof.
  intros H. rewrite pow10_inject by lia. rewrite <- pow10_add.
  replace (- e + e)%Z with 0%Z by lia. reflexivity.
Qed.

Lemma sqrt_kernel (c1 e1 : Z) :
  (0 < c1)%Z -> inject_Z c1 * 10 ^ (2 * e1) <= 1 ->
  inject_Z (Z.sqrt c1) * 10 ^ e1 <= 1
  /\ ((Z.sqrt c1 * Z.sqrt c1)%Z <> c1 ->
      inject_Z (Z.sqrt c1 + 1) * 10 ^ e1 <= 1).
Proof.
  intros Hc H. pose proof (Z.sqrt_spec c1 ltac:(lia)) as [Sl Su].
  set (n := Z.sqrt c1) in *. pose proof (pow10_pos e1) as P.
  set (M := (10 ^ (- e1))%Z).
  destruct (Z.le_gt_cases e1 0) as [L|G].
  - assert (HM : (0 < M)%Z) by (apply Z.pow_pos_nonneg; lia).
    pose proof (pow10_neg e1 L) as E1. fold M in E1.
    assert (E2 : inject_Z (M * M) * 10 ^ (2 * e1) == 1).
    { replace (2 * e1)%Z with (e1 + e1)%Z by lia.
      rewrite pow10_add, inject_Z_mult.
      setoid_replace (inject_Z M * inject_Z M * (10 ^ e1 * 10 ^ e1))
        with ((inject_Z M * 10 ^ e1) * (inject_Z M * 10 ^ e1))
        using relation Qeq by ring.
      rewrite E1. reflexivity. }
    assert (B : (c1 <= M * M)%Z).
    { rewrite <- E2 in H. apply Qmult_le_r in H; [|apply pow10_pos].
      now rewrite <- Zle_Qle in H. }
    assert (Bn : (n <= M)%Z) by nia.
    split.
    + rewrite <- E1. apply Qmult_le_r; [exact P|]. now rewrite <- Zle_Qle.
    + intros Ne. assert (n + 1 <= M)%Z by nia.
      rewrite <- E1. apply Qmult_le_r; [exact P|]. now rewrite <- Zle_Qle.
  - exfalso.
    assert (E : 10 ^ (2 * e1) == inject_Z (10 ^ (2 * e1)))
      by (rewrite pow10_inject; [reflexivity|lia]).
    rewrite E, <- inject_Z_mult in H. change 1 with (inject_Z 1) in H.
    rewrite <- Zle_Qle in H.
    assert (100 <= 10 ^ (2 * e1))%Z.
    { change 100%Z with (10 ^ 2)%Z. apply Z.pow_le_mono_r; lia. }
    nia.
Qed.

Lemma sqrt_unit a :
  fits a -> 0 <= toQ a <= 1 ->
  exists y, Dec.sqrt a = Ok y /\ 0 <= toQ y <= 1.
Proof.
  intros F [H0 H1]. pose proof (toQ_nonneg_coef a H0) as Hc.
  unfold Dec.sqrt.
  destruct (Z.ltb_spec (Dec.dcoef a) 0) as [?|_]; [lia|].
  destruct (Dec.is_zero a) eqn:Z0.
  { eexists. split; [reflexivity|].
    rewrite fix_fits by (unfold fits; cbn; lia). rewrite toQ_zero. lra. }
  assert (N : Dec.dcoef a <> 0%Z)
    by (unfold Dec.is_zero in Z0; now apply Z.eqb_neq in Z0).
  cbn zeta.
  destruct (ndigits_spec _ N) as [_ Hn1].
  pose proof (proj2 (ndigits_small _ N) F) as Hn28.
  set (nd := Dec.ndigits (Dec.dcoef a)) in *.
  set (e := (Dec.dexp a / 2)%Z).
  set (cl := if Z.odd (Dec.dexp a)
             then ((Dec.dcoef a * 10)%Z, (nd / 2 + 1)%Z)
             else (Dec.dcoef a, ((nd + 1) / 2)%Z)).
  assert (Hcl : (0 < cl.1)%Z /\ (cl.2 <= 15)%Z
                /\ toQ a == inject_Z cl.1 * 10 ^ (2 * e)).
  { pose proof (Z.div2_odd (Dec.dexp a)) as Ho.
    rewrite Z.div2_div in Ho. fold e in Ho.
    unfold cl. destruct (Z.odd (Dec.dexp a)); cbn [fst snd Z.b2z] in *.
    - split; [lia|]. split.
      + assert (nd / 2 <= 14)%Z by (apply Z.div_le_upper_bound; lia). lia.
      + unfold toQ. rewrite Ho at 1. rewrite inject_Z_mult.
        replace (2 * e + 1)%Z with (1 + 2 * e)%Z by lia.
        rewrite pow10_add. change (10 ^ 1) with 10.
        change (inject_Z 10) with 10. ring.
    - split; [lia|]. split.
      + assert ((nd + 1) / 2 < 15)%Z by (apply Z.div_lt_upper_bound; lia).
        lia.
      + unfold toQ. rewrite Ho at 1.
        replace (2 * e + 0)%Z with (2 * e)%Z by lia. reflexivity. }
  destruct cl as [c l]. cbn [fst snd] in Hcl. destruct Hcl as (Pc & Hl & Ea).
  set (shift := (Dec.PREC + 1 - l)%Z).
  assert (Hs : (0 <= shift)%Z) by (unfold shift, Dec.PREC; lia).
  destruct (Z.leb_spec 0 shift) as [_|?]; [|lia].
  set (c1 := (c * 100 ^ shift)%Z). set (e1 := (e - shift)%Z).
  assert (P100 : (0 < 100 ^ shift)%Z) by (apply Z.pow_pos_nonneg; lia).
  assert (Pc1 : (0 < c1)%Z) by (apply Z.mul_pos_pos; lia).
  assert (E1 : toQ a == inject_Z c1 * 10 ^ (2 * e1)).
  { rewrite Ea. unfold c1, e1.
    change 100%Z with (10 ^ 2)%Z. rewrite <- Z.pow_mul_r by lia.
    rewrite inject_Z_mult, pow10_inject by lia.
    replace (2 * e)%Z with (2 * shift + 2 * (e - shift))%Z at 1 by lia.
    rewrite pow10_add. ring. }
  rewrite E1 in H1.
  destruct (sqrt_kernel c1 e1 Pc1 H1) as [K1 K2].
  pose proof (Z.sqrt_nonneg c1) as Pn.
  set (n := Z.sqrt c1) in *.
  cbn [andb].
  pose proof (pow10_pos e1) as Pe1.
  assert (F0 : fits (D 0 0)) by (unfold fits; cbn; lia).
  assert (F1 : fits (D 1 0)) by (unfold fits; cbn; lia).
  assert (T0 : toQ (D 0 0) == 0) by (unfold toQ; cbn; ring).
  assert (T1 : toQ (D 1 0) == 1) by reflexivity.
  destruct (Z.eqb_spec (n * n) c1) as [Ex|Ne].
  - eexists. split; [reflexivity|].
    assert (Pp : (0 < 10 ^ shift)%Z) by (apply Z.pow_pos_nonneg; lia).
    assert (Q0 : (0 <= n / 10 ^ shift)%Z) by (apply Z.div_pos; lia).
    assert (Q1 : (n / 10 ^ shift * 10 ^ shift <= n)%Z).
    { pose proof (Z.div_mod n (10 ^ shift) ltac:(lia)).
      pose proof (Z.mod_pos_bound n (10 ^ shift) Pp). lia. }
    assert (V : toQ (Dec.mk (n / 10 ^ shift) (e1 + shift))
                == inject_Z (n / 10 ^ shift * 10 ^ shift) * 10 ^ e1).
    { unfold toQ; cbn [Dec.dcoef Dec.dexp].
      rewrite inject_Z_mult, pow10_inject by lia.
      replace (e1 + shift)%Z with (shift + e1)%Z by lia.
      rewrite pow10_add. ring. }
    split.
    + rewrite <- T0. apply fix_ge; [exact F0|]. rewrite T0, V.
      apply coef_nonneg_toQ. lia.
    + rewrite <- T1. apply fix_le; [exact F1|]. rewrite T1, V.
      apply Qle_trans with (inject_Z n * 10 ^ e1); [|exact K1].
      apply Qmult_le_r; [exact Pe1|]. now rewrite <- Zle_Qle.
  - eexists. split; [reflexivity|].
    specialize (K2 Ne).
    split.
    + rewrite <- T0. apply fix_ge; [exact F0|]. rewrite T0.
      unfold toQ; cbn [Dec.dcoef Dec.dexp]. apply coef_nonneg_toQ.
      destruct (n mod 5 =? 0)%Z; lia.
    + rewrite <- T1. apply fix_le; [exact F1|]. rewrite T1.
      unfold toQ; cbn [Dec.dcoef Dec.dexp].
      destruct (n mod 5 =? 0)%Z; assumption.
Qed.

(** ** Magnitudes *)


Lemma toQ_pow K : toQ (D 1 K) == 10 ^ K.
Proof. unfold toQ; cbn. ring. Qed.

Lemma toQ_pow_opp K : toQ (D (-1) K) == - 10 ^ K.
Proof. unfold toQ; cbn. change (inject_Z (-1)) with (- (1)). ring. Qed.

Lemma fits_pow K : fits (D 1 K).
Proof. unfold fits; cbn; lia. Qed.

Lemma fits_pow_opp K : fits (D (-1) K).
Proof. unfold fits; cbn; lia. Qed.

Lemma mag_intro K a :
  toQ (D (-1) K) <= toQ a <= toQ (D 1 K) -> mag K a.
Proof. unfold mag. now rewrite toQ_pow, toQ_pow_opp. Qed.

Lemma mag_weaken K K' a : mag K a -> (K <= K')%Z -> mag K' a.
Proof.
  unfold mag. intros [L U] H. pose proof (pow10_le K K' H). split; lra.
Qed.

Lemma Qabs_mul_bound (x y A B : Q) :
  - A <= x <= A -> - B <= y <= B -> - (A * B) <= x * y <= A * B.
Proof. intros [? ?] [? ?]. split; nra. Qed.

Lemma mag_mul K1 K2 a b :
  mag K1 a -> mag K2 b -> mag (K1 + K2) (Dec.mul a b).
Proof.
  intros Ha Hb. apply mag_intro. unfold mag in Ha, Hb.
  apply mul_bounds; [apply fits_pow_opp|apply fits_pow|].
  rewrite toQ_pow, toQ_pow_opp, pow10_add. now apply Qabs_mul_bound.
Qed.

Lemma pow10_double K1 K2 :
  10 ^ K1 + 10 ^ K2 <= 10 ^ (Z.max K1 K2 + 1).
Proof.
  pose proof (pow10_le K1 (Z.max K1 K2) ltac:(lia)).
  pose proof (pow10_le K2 (Z.max K1 K2) ltac:(lia)).
  replace (Z.max K1 K2 + 1)%Z with (1 + Z.max K1 K2)%Z by lia.
  rewrite pow10_add. change (10 ^ 1) with 10.
  pose proof (pow10_pos (Z.max K1 K2)). lra.
Qed.

Lemma mag_add K1 K2 a b :
  mag K1 a -> mag K2 b -> mag (Z.max K1 K2 + 1) (Dec.add a b).
Proof.
  intros Ha Hb. apply mag_intro. unfold mag in Ha, Hb.
  apply add_bounds; [apply fits_pow_opp|apply fits_pow|].
  rewrite toQ_pow, toQ_pow_opp. pose proof (pow10_double K1 K2).
  split; lra.
Qed.

Lemma mag_sub K1 K2 a b :
  mag K1 a -> mag K2 b -> mag (Z.max K1 K2 + 1) (Dec.sub a b).
Proof.
  intros Ha Hb. apply mag_intro. unfold mag in Ha, Hb.
  apply sub_bounds; [apply fits_pow_opp|apply fits_pow|].
  rewrite toQ_pow, toQ_pow_opp. pose proof (pow10_double K1 K2).
  split; lra.
Qed.

(** Every decimal is below the power of ten its digit count gives. *)
Lemma mag_digits a : mag (Dec.ndigits (Dec.dcoef a) + Dec.dexp a) a.
Proof.
  unfold mag, toQ. pose proof (pow10_pos (Dec.dexp a)) as P.
  rewrite pow10_add.
  destruct (Z.eq_dec (Dec.dcoef a) 0%Z) as [->|N].
  - change (inject_Z 0) with 0. rewrite ndigits_0.
    change (10 ^ 1) with 10. split; lra.
  - destruct (ndigits_spec _ N) as [[_ Hhi] H1].
    set (n := Dec.ndigits (Dec.dcoef a)) in *.
    rewrite <- (pow10_inject n) by lia.
    assert (L1 : inject_Z (Dec.dcoef a) * 10 ^ Dec.dexp a
                 <= inject_Z (10 ^ n) * 10 ^ Dec.dexp a).
    { apply Qmult_le_r; [exact P|]. rewrite <- Zle_Qle. lia. }
    assert (L2 : inject_Z (- 10 ^ n) * 10 ^ Dec.dexp a
                 <= inject_Z (Dec.dcoef a) * 10 ^ Dec.dexp a).
    { apply Qmult_le_r; [exact P|]. rewrite <- Zle_Qle. lia. }
    rewrite inject_Z_opp in L2. split; lra.
Qed.

(** Division by a constant of magnitude at least one. *)
Lemma mag_div K a b q :
  mag K a -> 1 <= toQ b -> Dec.div a b = Ok q -> mag K q.
Proof.
  intros [L U] Hb H. apply mag_intro.
  apply (div_bounds _ _ a b); [apply fits_pow_opp|apply fits_pow|exact H|].
  rewrite toQ_pow, toQ_pow_opp. pose proof (pow10_pos K) as P.
  assert (I : 0 < / toQ b <= 1).
  { split; [apply Qinv_lt_0_compat; lra|].
    apply Qle_shift_inv_r; lra. }
  unfold Qdiv. split; nra.
Qed.

Local Close Scope Q_scope.
Local Open Scope Z_scope.

Local Open Scope Q_scope.

Lemma calculate_heat_index_unfold T RH :
  calculate_heat_index T RH =
  if Dec.ltb T HEAT_INDEX_THRESHOLD then Ok None
  else
    x ← heat_index_unrounded T (_as_decimal RH);
    r ← Dec.quantize Dec.ROUND_CEILING x (-1);
    Ok (Some r).
Proof.
  unfold calculate_heat_index, heat_index_unrounded.
  destruct (Dec.ltb T HEAT_INDEX_THRESHOLD); [reflexivity|].
  destruct (heat_index_average T (_as_decimal RH)) as [h|e]; [|reflexivity].
  cbn. destruct (Dec.ltb h HI_SECOND_FORMULA_THRESHOLD); reflexivity.
Qed.

Ltac mag_solve :=
  lazymatch goal with
  | |- mag _ (Dec.mul _ _) => eapply mag_mul; mag_solve
  | |- mag _ (Dec.add _ _) => eapply mag_add; mag_solve
  | |- mag _ (Dec.sub _ _) => eapply mag_sub; mag_solve
  | |- mag _ _ => first [eassumption | apply mag_digits]
  end.

Ltac mag_le K := eapply (mag_weaken _ K); [mag_solve | vm_compute; congruence].

Lemma fits_opp a : fits a -> fits (Dec.opp_exact a).
Proof. unfold fits; cbn. now rewrite Z.abs_opp. Qed.

Lemma toQ_0 : toQ (D 0 0) == 0.
Proof. reflexivity. Qed.

Lemma fits_0 : fits (D 0 0).
Proof. unfold fits; cbn; lia. Qed.

Lemma neg_nonneg d : toQ d <= 0 -> 0 <= toQ (Dec.neg d).
Proof.
  intros H. rewrite <- toQ_0. apply fix_ge; [apply fits_0|].
  rewrite toQ_0, toQ_opp_exact. lra.
Qed.

Lemma neg_nonpos d : 0 <= toQ d -> toQ (Dec.neg d) <= 0.
Proof.
  intros H. rewrite <- toQ_0. apply fix_le; [apply fits_0|].
  rewrite toQ_0, toQ_opp_exact. lra.
Qed.

Lemma abs_range d hi :
  fits hi -> - toQ hi <= toQ d <= toQ hi -> 0 <= toQ (_abs d) <= toQ hi.
Proof.
  intros F [L U]. unfold _abs.
  assert (N : toQ (Dec.opp_exact hi) <= toQ (Dec.neg d) <= toQ hi).
  { apply neg_bounds; [now apply fits_opp|exact F|].
    rewrite toQ_opp_exact. split; lra. }
  destruct (Dec.gtb (Dec.neg d) d) eqn:G.
  - apply gtb_toQ in G. split; [|apply N].
    destruct (Qlt_le_dec (toQ d) 0) as [Hn|Hp].
    + apply neg_nonneg. lra.
    + pose proof (neg_nonpos d Hp). lra.
  - apply gtb_toQ_false in G. split; [|exact U].
    destruct (Qlt_le_dec (toQ d) 0) as [Hn|Hp]; [|exact Hp].
    pose proof (neg_nonneg d ltac:(lra)). lra.
Qed.

Lemma toQ_nonzero_pos b : 1 <= toQ b -> ~ toQ b == 0.
Proof. intros H E. rewrite E in H. lra. Qed.

Lemma div_const K a b :
  mag K a -> 1 <= toQ b -> exists q, Dec.div a b = Ok q /\ mag K q /\ fits q.
Proof.
  intros Ha Hb.
  destruct (div_total a b (toQ_nonzero_pos b Hb)) as [q Hq].
  exists q. split; [exact Hq|]. split.
  - exact (mag_div K a b q Ha Hb Hq).
  - exact (div_fits a b q Hq).
Qed.

Lemma one_le_const c : (1 <= c)%Z -> 1 <= toQ (D c 0).
Proof.
  intros H. unfold toQ; cbn. change (10 ^ 0) with 1.
  rewrite Qmult_1_r. change 1 with (inject_Z 1). now rewrite <- Zle_Qle.
Qed.

Lemma heat_index_average_total T RH :
  mag 5 T -> mag 5 RH ->
  exists h, heat_index_average T RH = Ok h /\ mag 26 h.
Proof.
  intros HT HR. unfold heat_index_average.
  edestruct (div_const 26) as (q & Hq & Mq & _); [| |exists q; split; eassumption].
  - mag_le 26%Z.
  - apply one_le_const. lia.
Qed.

Lemma heat_index_regression_mag T RH :
  mag 5 T -> mag 5 RH -> mag 24 (heat_index_regression T RH).
Proof.
  intros HT HR. unfold heat_index_regression. mag_le 24%Z.
Qed.

Lemma unit_mag c : 0 <= toQ c <= 1 -> mag 0 c.
Proof. unfold mag. change (10 ^ 0) with 1. intros [? ?]. split; lra. Qed.

Lemma toQ_int (c : Z) : toQ (D c 0) == inject_Z c.
Proof. unfold toQ; cbn. change (10 ^ 0) with 1. ring. Qed.

Lemma toQ_tenths (c : Z) : toQ (D c (-1)) == inject_Z c / 10.
Proof. unfold toQ; cbn. reflexivity. Qed.

Lemma heat_index_adjusted_total T RH :
  mag 5 T -> mag 5 RH ->
  exists x, heat_index_adjusted T RH = Ok x /\ mag 26 x.
Proof.
  intros HT HR. unfold heat_index_adjusted.
  pose proof (heat_index_regression_mag T RH HT HR) as Mh.
  set (h := heat_index_regression T RH) in *. cbn zeta.
  lazymatch goal with
  | |- context [if ?c then _ else if _ then _ else _] => destruct c eqn:G1
  end.
  - apply andb_prop in G1 as [G1 _]. apply andb_prop in G1 as [Lo Hi].
    apply leb_toQ in Lo, Hi.
    change (toQ (D 800 (-1)) <= toQ T) in Lo.
    change (toQ T <= toQ (D 1120 (-1))) in Hi.
    assert (E80 : toQ (D 800 (-1)) == 80) by reflexivity.
    assert (E112 : toQ (D 1120 (-1)) == 112) by reflexivity.
    rewrite E80 in Lo. rewrite E112 in Hi.
    destruct (div_const 7 (Dec.sub HI_13 RH) FOUR) as (a & -> & Ma & _);
      [mag_le 7%Z|apply one_le_const; lia|].
    assert (R : 0 <= toQ (_abs (Dec.sub T HI_95)) <= toQ (D 17 0)).
    { apply abs_range; [unfold fits; cbn; lia|].
      assert (B : toQ (D (-15) 0) <= toQ (Dec.sub T HI_95) <= toQ (D 17 0)).
      { apply sub_bounds; [unfold fits; cbn; lia..|].
        unfold HI_95. rewrite !toQ_int.
        change (inject_Z 17) with 17. change (inject_Z 95) with 95.
        change (inject_Z (-15)) with (-(15)).
        split; lra. }
      rewrite !toQ_int in *. change (inject_Z 17) with 17 in *.
      change (inject_Z (-15)) with (-(15)) in *. split; lra. }
    assert (S : toQ (D 0 0) <= toQ (Dec.sub HI_17 (_abs (Dec.sub T HI_95)))
                <= toQ (D 17 0)).
    { apply sub_bounds; [unfold fits; cbn; lia..|].
      unfold HI_17. rewrite !toQ_int in *. change (inject_Z 17) with 17 in *.
      change (inject_Z 0) with 0. split; lra. }
    destruct (div_total (Dec.sub HI_17 (_abs (Dec.sub T HI_95))) HI_17)
      as [b Hb].
    { apply toQ_nonzero_pos, one_le_const. lia. }
    rewrite Hb.
    assert (Ub : toQ (D 0 0) <= toQ b <= toQ (D 1 0)).
    { apply (div_bounds (D 0 0) (D 1 0) _ _ _ fits_0 (fits_pow 0) Hb).
      unfold HI_17 in *. rewrite !toQ_int in *.
      change (inject_Z 17) with 17 in *. change (inject_Z 0) with 0 in *.
      change (inject_Z 1) with 1.
      split; [apply Qle_shift_div_l|apply Qle_shift_div_r]; lra. }
    rewrite !toQ_int in Ub. change (inject_Z 0) with 0 in Ub.
    change (inject_Z 1) with 1 in Ub.
    destruct (sqrt_unit b (div_fits _ _ _ Hb) Ub) as (c & Hc & Uc).
    cbn. rewrite Hc. cbn. eexists. split; [reflexivity|].
    pose proof (unit_mag c Uc) as Mc. mag_le 26%Z.
  - lazymatch goal with
    | |- context [if ?c then _ else _] => destruct c eqn:G2
    end.
    + destruct (div_const 7 (Dec.sub RH HI_85) TEN) as (a & -> & Ma & _);
        [mag_le 7%Z|apply one_le_const; lia|].
      destruct (div_const 7 (Dec.sub HI_87 T) FIVE) as (b & -> & Mb & _);
        [mag_le 7%Z|apply one_le_const; lia|].
      cbn. eexists. split; [reflexivity|]. mag_le 26%Z.
    + eexists. split; [reflexivity|]. apply (mag_weaken 24); [exact Mh|lia].
Qed.

Lemma mag_5 a : - (100000) <= toQ a <= 100000 -> mag 5 a.
Proof. intros H. exact H. Qed.

Lemma heat_index_unrounded_total T RH :
  mag 5 T -> mag 5 RH ->
  exists x, heat_index_unrounded T RH = Ok x /\ mag 26 x.
Proof.
  intros HT HR. unfold heat_index_unrounded.
  destruct (heat_index_average_total T RH HT HR) as (h & -> & Mh). cbn.
  destruct (Dec.ltb h HI_SECOND_FORMULA_THRESHOLD).
  - exists h. split; [reflexivity|exact Mh].
  - apply heat_index_adjusted_total; assumption.
Qed.

Lemma heat_index_below_threshold T RH :
  toQ T < 70 -> calculate_heat_index T RH = Ok None.
Proof.
  assert (E70 : toQ HEAT_INDEX_THRESHOLD == 70) by reflexivity.
  intros H. rewrite calculate_heat_index_unfold.
  rewrite <- E70 in H. apply ltb_toQ in H. now rewrite H.
Qed.

Lemma heat_index_inversion T RH r :
  calculate_heat_index T RH = Ok (Some r) ->
  70 <= toQ T
  /\ exists x, heat_index_unrounded T (_as_decimal RH) = Ok x
               /\ Dec.quantize Dec.ROUND_CEILING x (-1) = Ok r.
Proof.
  assert (E70 : toQ HEAT_INDEX_THRESHOLD == 70) by reflexivity.
  rewrite calculate_heat_index_unfold.
  destruct (Dec.ltb T HEAT_INDEX_THRESHOLD) eqn:L; [discriminate|].
  apply ltb_toQ_false in L. rewrite E70 in L.
  intros H. step H as x Hx. step H as v Hv. injection H as <-.
  split; [exact L|]. exists x. split; [exact Hx|exact Hv].
Qed.

Lemma heat_index_total T RH :
  70 <= toQ T <= 100000 ->
  - (100000) <= toQ (_as_decimal RH) <= 100000 ->
  exists r, calculate_heat_index T RH = Ok (Some r).
Proof.
  assert (E70 : toQ HEAT_INDEX_THRESHOLD == 70) by reflexivity.
  intros [HT1 HT2] HR. rewrite calculate_heat_index_unfold.
  destruct (Dec.ltb T HEAT_INDEX_THRESHOLD) eqn:L.
  { apply ltb_toQ in L. rewrite E70 in L. lra. }
  destruct (heat_index_unrounded_total T (_as_decimal RH)) as (x & Hx & Mx).
  { apply mag_5. split; lra. }
  { apply mag_5. exact HR. }
  rewrite Hx, bind_ret_Ok.
  destruct (quantize_ceiling_total x (-1) Mx) as [v Hv].
  rewrite Hv, bind_ret_Ok. eauto.
Qed.

(** X12. [calculate_heat_index] returns None for every temperature below
    70; when it returns a value, the temperature is at least 70 and the
    value has one decimal place and is the unrounded heat index rounded up
    to the next tenth; and it does return a value for every temperature
    from 70 to 100000 and humidity of magnitude up to 100000. *)
Theorem heat_index_is_ceiling_to_tenths :
  (forall T RH, toQ T < 70 -> calculate_heat_index T RH = Ok None)
  /\ (forall T RH r,
        calculate_heat_index T RH = Ok (Some r) ->
        70 <= toQ T /\ Dec.dexp r = (-1)%Z
        /\ exists x, heat_index_unrounded T (_as_decimal RH) = Ok x
                     /\ toQ x <= toQ r < toQ x + (1 # 10))
  /\ (forall T RH,
        70 <= toQ T <= 100000 ->
        - (100000) <= toQ (_as_decimal RH) <= 100000 ->
        exists r, calculate_heat_index T RH = Ok (Some r)).
Proof.
  split; [|split].
  - apply heat_index_below_threshold.
  - intros T RH r H.
    apply heat_index_inversion in H as (L & x & Hx & Q).
    apply quantize_ceiling in Q as (Ev & Lo & Hi).
    split; [exact L|]. split; [exact Ev|]. exists x. split; [exact Hx|].
    split; [exact Lo|exact Hi].
  - apply heat_index_total.
Qed.

Lemma heat_index_is_ceiling_to_tenths_witness :
  calculate_heat_index (D 65 0) (NumInt 50) = Ok None
  /\ exists r, calculate_heat_index (D 75 0) (NumDecimal (D 405 (-1)))
               = Ok (Some r)
               /\ Dec.dexp r = (-1)%Z.
Proof.
  destruct heat_index_is_ceiling_to_tenths as (A & B & C).
  split.
  - apply A. vm_compute. reflexivity.
  - destruct (C (D 75 0) (NumDecimal (D 405 (-1)))) as [r Hr].
    + split; vm_compute; discriminate.
    + split; vm_compute; discriminate.
    + exists r. split; [exact Hr|]. apply (B _ _ _ Hr).
Defined.

(** Two values of the heat index: absent at 69 F, 94.6 at 90 F and 50 %. *)
Lemma heat_index_examples :
  calculate_heat_index (D 69 0) (NumInt 50) = Ok None
  /\ calculate_heat_index (D 90 0) (NumInt 50) = Ok (Some (D 946 (-1))).
Proof. split; vm_compute; reflexivity. Qed.

Local Close Scope Q_scope.
Local Open Scope Z_scope.

(** [Decimal(10) ** Decimal('0.16')] as the [decimal] module computes it. *)


Local Open Scope Q_scope.

Section WindChillFacts.
Variable power : Decimal -> Decimal -> result Decimal.

Lemma calculate_wind_chill_unfold T WS :
  calculate_wind_chill power T WS =
  if Dec.gtb T WIND_CHILL_THRESHOLD then Ok None
  else if Dec.eqb (_as_decimal WS) ZERO then Ok (Some T)
  else
    V ← power (_as_decimal WS) WC_V_EXP;
    w ← Dec.quantize Dec.ROUND_FLOOR (wind_chill_regression T V) (-1);
    Ok (Some (if Dec.gtb w T then T else w)).
Proof. reflexivity. Qed.

Lemma clamp_le w T : toQ (if Dec.gtb w T then T else w) <= toQ T.
Proof.
  destruct (Dec.gtb w T) eqn:G; [lra|]. now apply gtb_toQ_false in G.
Qed.

Lemma wind_chill_regression_mag T V :
  mag 5 T -> mag 5 V -> mag 26 (wind_chill_regression T V).
Proof.
  intros HT HV. unfold wind_chill_regression. mag_le 26%Z.
Qed.

Lemma wind_chill_regression_30 V :
  (14454 # 10000) <= toQ V <= (14455 # 10000) ->
  (212 # 10) <= toQ (wind_chill_regression (D 30 0) V) < (213 # 10).
Proof.
  intros HV. unfold wind_chill_regression.
  change (Dec.add WC_C1 (Dec.mul WC_C2 (D 30 0))) with (D 543850 (-4)).
  change (Dec.mul WC_C4 (D 30 0)) with (D 128250 (-4)).
  assert (U2 : toQ (D 5167305 (-5)) <= toQ (Dec.mul WC_C3 V)
               <= toQ (D 51676625 (-6))).
  { apply mul_bounds; [unfold fits; cbn; lia..|].
    assert (E : toQ WC_C3 == 3575 # 100) by reflexivity. rewrite E.
    assert (E1 : toQ (D 5167305 (-5)) == 5167305 # 100000) by reflexivity.
    assert (E2 : toQ (D 51676625 (-6)) == 51676625 # 1000000) by reflexivity.
    rewrite E1, E2. split; lra. }
  assert (U3 : toQ (D 2708375 (-6))
               <= toQ (Dec.sub (D 543850 (-4)) (Dec.mul WC_C3 V))
               <= toQ (D 271195 (-5))).
  { apply sub_bounds; [unfold fits; cbn; lia..|].
    assert (E : toQ (D 543850 (-4)) == 54385 # 1000) by reflexivity.
    assert (E1 : toQ (D 5167305 (-5)) == 5167305 # 100000) by reflexivity.
    assert (E2 : toQ (D 51676625 (-6)) == 51676625 # 1000000) by reflexivity.
    assert (E3 : toQ (D 2708375 (-6)) == 2708375 # 1000000) by reflexivity.
    assert (E4 : toQ (D 271195 (-5)) == 271195 # 100000) by reflexivity.
    rewrite E1, E2 in U2. rewrite E, E3, E4. split; lra. }
  assert (U4 : toQ (D 185372550 (-7)) <= toQ (Dec.mul (D 128250 (-4)) V)
               <= toQ (D 185385375 (-7))).
  { apply mul_bounds; [unfold fits; cbn; lia..|].
    assert (E : toQ (D 128250 (-4)) == 12825 # 1000) by reflexivity.
    assert (E1 : toQ (D 185372550 (-7)) == 185372550 # 10000000)
      by reflexivity.
    assert (E2 : toQ (D 185385375 (-7)) == 185385375 # 10000000)
      by reflexivity.
    rewrite E, E1, E2. split; lra. }
  assert (U5 : toQ (D 2124 (-2))
               <= toQ (Dec.add (Dec.sub (D 543850 (-4)) (Dec.mul WC_C3 V))
                         (Dec.mul (D 128250 (-4)) V))
               <= toQ (D 2126 (-2))).
  { apply add_bounds; [unfold fits; cbn; lia..|].
    assert (E1 : toQ (D 185372550 (-7)) == 185372550 # 10000000)
      by reflexivity.
    assert (E2 : toQ (D 185385375 (-7)) == 185385375 # 10000000)
      by reflexivity.
    assert (E3 : toQ (D 2708375 (-6)) == 2708375 # 1000000) by reflexivity.
    assert (E4 : toQ (D 271195 (-5)) == 271195 # 100000) by reflexivity.
    assert (E5 : toQ (D 2124 (-2)) == 2124 # 100) by reflexivity.
    assert (E6 : toQ (D 2126 (-2)) == 2126 # 100) by reflexivity.
    rewrite E1, E2 in U4. rewrite E3, E4 in U3. rewrite E5, E6.
    split; lra. }
  assert (E5 : toQ (D 2124 (-2)) == 2124 # 100) by reflexivity.
  assert (E6 : toQ (D 2126 (-2)) == 2126 # 100) by reflexivity.
  rewrite E5, E6 in U5. split; lra.
Qed.


Lemma tenths_unique w (x : Q) :
  Dec.dexp w = (-1)%Z -> toQ w <= x -> x < toQ w + 10 ^ (-1) ->
  (212 # 10) <= x < (213 # 10) -> w = D 212 (-1).
Proof.
  destruct w as [c e]. cbn [Dec.dexp]. intros -> L U [X1 X2].
  assert (E : toQ (Dec.mk c (-1)) == inject_Z c * (1 # 10)) by reflexivity.
  rewrite E in L, U. change (10 ^ (-1)) with (1 # 10) in U.
  assert (L1 : inject_Z c < inject_Z 213).
  { change (inject_Z 213) with 213. lra. }
  assert (L2 : inject_Z 211 < inject_Z c).
  { change (inject_Z 211) with 211. lra. }
  rewrite <- Zlt_Qlt in L1, L2. unfold D. f_equal. lia.
Qed.

Lemma wind_chill_30_10 V :
  power (D 10 0) WC_V_EXP = Ok V ->
  (14454 # 10000) <= toQ V <= (14455 # 10000) ->
  calculate_wind_chill power (D 30 0) (NumInt 10) = Ok (Some (D 212 (-1))).
Proof.
  intros HP HV. rewrite calculate_wind_chill_unfold.
  assert (G : Dec.gtb (D 30 0) WIND_CHILL_THRESHOLD = false)
    by (vm_compute; reflexivity).
  assert (Z0 : Dec.eqb (_as_decimal (NumInt 10)) ZERO = false)
    by (vm_compute; reflexivity).
  assert (A : _as_decimal (NumInt 10) = D 10 0) by reflexivity.
  rewrite G, Z0, A, HP. rewrite bind_ret_Ok; cbv beta.
  pose proof (wind_chill_regression_30 V HV) as R.
  destruct (quantize_floor_total (wind_chill_regression (D 30 0) V) (-1))
    as [w Hw].
  { apply (wind_chill_regression_mag (D 30 0) V); apply mag_5.
    - split; vm_compute; discriminate.
    - destruct HV. split; lra. }
  rewrite Hw. rewrite bind_ret_Ok; cbv beta.
  apply quantize_floor in Hw as (Ew & Lw & Uw).
  rewrite (tenths_unique w _ Ew Lw Uw R).
  assert (C : Dec.gtb (D 212 (-1)) (D 30 0) = false)
    by (vm_compute; reflexivity).
  rewrite C. reflexivity.
Qed.

End WindChillFacts.

(** X13. [calculate_wind_chill], for any power routine: None for every
    temperature above 40; the temperature itself when the wind speed is
    zero; and otherwise, when it returns a value, the regression value
    rounded down to the next tenth, replaced by the temperature when it
    would exceed it, so the result never exceeds the temperature.  It does
    return a value when the power routine returns one and the temperature
    and the power lie within magnitude 100000. *)
Theorem wind_chill_floor_rounded_and_clamped
    (power : Decimal -> Decimal -> result Decimal) :
  (forall T WS, 40 < toQ T -> calculate_wind_chill power T WS = Ok None)
  /\ (forall T WS,
        toQ T <= 40 -> toQ (_as_decimal WS) == 0 ->
        calculate_wind_chill power T WS = Ok (Some T))
  /\ (forall T WS r,
        calculate_wind_chill power T WS = Ok (Some r) ->
        toQ T <= 40 /\ toQ r <= toQ T
        /\ (~ toQ (_as_decimal WS) == 0 ->
            exists V w,
              power (_as_decimal WS) WC_V_EXP = Ok V
              /\ Dec.quantize Dec.ROUND_FLOOR (wind_chill_regression T V) (-1)
                 = Ok w
              /\ Dec.dexp w = (-1)%Z
              /\ toQ w <= toQ (wind_chill_regression T V) < toQ w + (1 # 10)
              /\ r = if Dec.gtb w T then T else w))
  /\ (forall T WS V,
        - (100000) <= toQ T <= 40 ->
        power (_as_decimal WS) WC_V_EXP = Ok V ->
        - (100000) <= toQ V <= 100000 ->
        exists r, calculate_wind_chill power T WS = Ok (Some r)).
Proof.
  assert (E40 : toQ WIND_CHILL_THRESHOLD == 40) by reflexivity.
  assert (E0 : toQ ZERO == 0) by reflexivity.
  split; [|split; [|split]].
  - intros T WS H. rewrite calculate_wind_chill_unfold.
    rewrite <- E40 in H. apply gtb_toQ in H. now rewrite H.
  - intros T WS H Z0. rewrite calculate_wind_chill_unfold.
    rewrite <- E40 in H. apply gtb_toQ_false in H. rewrite H.
    rewrite <- E0 in Z0. apply eqb_toQ in Z0. now rewrite Z0.
  - intros T WS r. rewrite calculate_wind_chill_unfold.
    destruct (Dec.gtb T WIND_CHILL_THRESHOLD) eqn:G; [discriminate|].
    apply gtb_toQ_false in G. rewrite E40 in G.
    destruct (Dec.eqb (_as_decimal WS) ZERO) eqn:Z0.
    + intros [= <-]. apply eqb_toQ in Z0. rewrite E0 in Z0.
      split; [exact G|]. split; [lra|]. intros N. contradiction.
    + intros H. step H as V HPV. step H as w Q. injection H as <-.
      split; [exact G|]. split; [apply clamp_le|]. intros _.
      exists V, w. split; [exact HPV|]. split; [exact Q|].
      apply quantize_floor in Q as (Ew & Lw & Uw).
      split; [exact Ew|]. split; [split; [exact Lw|exact Uw]|reflexivity].
  - intros T WS V [HT1 HT2] HP HV. rewrite calculate_wind_chill_unfold.
    rewrite <- E40 in HT2. apply gtb_toQ_false in HT2. rewrite HT2.
    destruct (Dec.eqb (_as_decimal WS) ZERO); [eauto|].
    rewrite HP. rewrite bind_ret_Ok; cbv beta.
    destruct (quantize_floor_total (wind_chill_regression T V) (-1))
      as [w Hw]; [|rewrite Hw, bind_ret_Ok; eauto].
    apply wind_chill_regression_mag; apply mag_5; [|exact HV].
    apply gtb_toQ_false in HT2. rewrite E40 in HT2. split; lra.
Qed.

Lemma wind_chill_floor_rounded_and_clamped_witness :
  calculate_wind_chill power_at_ten (D 45 0) (NumInt 10) = Ok None
  /\ calculate_wind_chill power_at_ten (D 30 0) (NumInt 0) = Ok (Some (D 30 0))
  /\ exists r, calculate_wind_chill power_at_ten (D 30 0) (NumInt 10)
               = Ok (Some r)
               /\ toQ r <= toQ (D 30 0).
Proof.
  destruct (wind_chill_floor_rounded_and_clamped power_at_ten)
    as (A & B & C & T).
  split; [|split].
  - apply A. vm_compute. reflexivity.
  - apply B; vm_compute; [discriminate|reflexivity].
  - destruct (T (D 30 0) (NumInt 10) ten_to_the_0_16) as [r Hr].
    + split; vm_compute; discriminate.
    + reflexivity.
    + split; vm_compute; discriminate.
    + exists r. split; [exact Hr|]. apply (C _ _ _ Hr).
Defined.

Local Close Scope Q_scope.
Local Open Scope Z_scope.

(* --------------------------------------------------------------------- *)
(** ** Degree days, the THW index and the rain collectors                 *)
(* --------------------------------------------------------------------- *)
Local Open Scope Q_scope.

Lemma quantize_fits r a q v : Dec.quantize r a q = Ok v -> fits v.
Proof.
  unfold Dec.quantize.
  destruct (Dec.is_zero a).
  { intros [= <-]. unfold fits. cbn. lia. }
  destruct (Dec.PREC <? _)%Z; [discriminate|].
  destruct (Dec.PREC <? Dec.ndigits _)%Z eqn:N; [discriminate|].
  intros [= <-]. apply Z.ltb_ge in N. unfold fits.
  destruct (Z.eq_dec (Dec.dcoef (Dec.rescale r a q)) 0%Z) as [->|NZ];
    [cbn; lia|].
  now apply ndigits_small.
Qed.

Lemma sub_exact_when_fits a b :
  fits (Dec.sub_exact a b) -> toQ (Dec.sub a b) == toQ a - toQ b.
Proof.
  intros F. unfold Dec.sub. rewrite (fix_fits _ F). apply toQ_sub_exact.
Qed.

Lemma mul_exact_when_fits a b :
  fits (Dec.mul_exact a b) -> Dec.mul a b = Dec.mul_exact a b.
Proof. intros F. unfold Dec.mul. now apply fix_fits. Qed.

Lemma sub_nonneg a b : toQ b <= toQ a -> 0 <= toQ (Dec.sub a b).
Proof.
  intros H. rewrite <- toQ_0. apply fix_ge; [apply fits_0|].
  rewrite toQ_0, toQ_sub_exact. lra.
Qed.

Lemma mul_nonneg a b : 0 <= toQ a -> 0 <= toQ b -> 0 <= toQ (Dec.mul a b).
Proof.
  intros Ha Hb. rewrite <- toQ_0. apply fix_ge; [apply fits_0|].
  rewrite toQ_0, toQ_mul_exact. nra.
Qed.

(** A decimal of magnitude at most [10^6] with at most 20 decimal places
    has a coefficient of at most 26 digits. *)
Lemma coef_of_bounded (d : Decimal) (B : Z) :
  (-20 <= Dec.dexp d)%Z ->
  - inject_Z B <= toQ d <= inject_Z B ->
  (0 <= B)%Z ->
  (Z.abs (Dec.dcoef d) <= B * 10 ^ 20)%Z.
Proof.
  intros E [L U] HB.
  apply (coef_bound _ (Dec.dexp d)).
  assert (P : 0 < 10 ^ Dec.dexp d) by apply pow10_pos.
  assert (M : 1 <= inject_Z (10 ^ 20) * 10 ^ Dec.dexp d).
  { rewrite pow10_inject by lia. rewrite <- pow10_add.
    change 1 with (10 ^ 0). apply pow10_le. lia. }
  rewrite inject_Z_mult.
  assert (HB' : 0 <= inject_Z B).
  { change 0 with (inject_Z 0). now rewrite <- Zle_Qle. }
  unfold toQ in L, U.
  rewrite <- !Qmult_assoc.
  split; nra.
Qed.

Lemma degree_days_difference_fits (a b : Decimal) :
  (-20 <= Dec.dexp a)%Z -> (-20 <= Dec.dexp b)%Z ->
  - (1000000) <= toQ a <= 1000000 ->
  - (1000000) <= toQ b <= 1000000 ->
  fits (Dec.sub_exact a b).
Proof.
  intros Ea Eb Ha Hb. unfold fits.
  assert (E : (-20 <= Dec.dexp (Dec.sub_exact a b))%Z).
  { unfold Dec.sub_exact, Dec.add_exact, Dec.align, Dec.opp_exact. cbn. lia. }
  pose proof (coef_of_bounded (Dec.sub_exact a b) 2000000 E) as C.
  rewrite toQ_sub_exact in C.
  assert (I : inject_Z 2000000 == 2000000) by reflexivity.
  rewrite I in C.
  specialize (C ltac:(split; lra) ltac:(lia)).
  eapply Z.le_lt_trans; [exact C|]. reflexivity.
Qed.

(** X14. Degree days: cooling degree days are absent exactly up to 65 F
    and heating degree days exactly from 65 F, so a temperature never has
    both and 65 F has neither.  A value, when present, is not negative, and
    for a temperature of magnitude up to a million with at most 20 decimal
    places it is exactly the distance of the temperature from 65. *)
Theorem degree_days_split_at_65 (T : Decimal) :
  (calculate_cooling_degree_days T = None <-> toQ T <= 65)
  /\ (calculate_heating_degree_days T = None <-> 65 <= toQ T)
  /\ (calculate_cooling_degree_days T = None
      \/ calculate_heating_degree_days T = None)
  /\ (forall r, calculate_cooling_degree_days T = Some r ->
        0 <= toQ r
        /\ ((-20 <= Dec.dexp T)%Z -> - (1000000) <= toQ T <= 1000000 ->
            toQ r == toQ T - 65))
  /\ (forall r, calculate_heating_degree_days T = Some r ->
        0 <= toQ r
        /\ ((-20 <= Dec.dexp T)%Z -> - (1000000) <= toQ T <= 1000000 ->
            toQ r == 65 - toQ T)).
Proof.
  assert (E65 : toQ DEGREE_DAYS_THRESHOLD == 65) by reflexivity.
  assert (B65 : - (1000000) <= toQ DEGREE_DAYS_THRESHOLD <= 1000000)
    by (rewrite E65; split; lra).
  assert (X65 : (-20 <= Dec.dexp DEGREE_DAYS_THRESHOLD)%Z) by (cbn; lia).
  unfold calculate_cooling_degree_days, calculate_heating_degree_days,
    Dec.geb.
  destruct (Dec.leb T DEGREE_DAYS_THRESHOLD) eqn:C;
    destruct (Dec.leb DEGREE_DAYS_THRESHOLD T) eqn:H;
    try apply leb_toQ in C; try apply leb_toQ_false in C;
    try apply leb_toQ in H; try apply leb_toQ_false in H;
    rewrite E65 in *.
  - repeat split; auto; intros; discriminate.
  - split; [tauto|]. split; [split; [discriminate|lra]|].
    split; [auto|]. split; [intros; discriminate|].
    intros r [= <-]. split.
    + apply sub_nonneg. rewrite E65. lra.
    + intros ET BT. rewrite sub_exact_when_fits, E65; [reflexivity|].
      now apply degree_days_difference_fits.
  - split; [split; [discriminate|lra]|]. split; [tauto|].
    split; [auto|]. split; [|intros; discriminate].
    intros r [= <-]. split.
    + apply sub_nonneg. rewrite E65. lra.
    + intros ET BT. rewrite sub_exact_when_fits, E65; [reflexivity|].
      now apply degree_days_difference_fits.
  - lra.
Qed.

Lemma degree_days_split_at_65_witness :
  calculate_cooling_degree_days (D 650 (-1)) = None
  /\ calculate_heating_degree_days (D 650 (-1)) = None
  /\ toQ (Dec.sub (D 723 (-1)) DEGREE_DAYS_THRESHOLD) == toQ (D 723 (-1)) - 65
  /\ toQ (Dec.sub DEGREE_DAYS_THRESHOLD (D 581 (-1))) == 65 - toQ (D 581 (-1)).
Proof.
  split; [|split; [|split]].
  - apply (degree_days_split_at_65 (D 650 (-1))). vm_compute. discriminate.
  - apply (degree_days_split_at_65 (D 650 (-1))). vm_compute. discriminate.
  - destruct (degree_days_split_at_65 (D 723 (-1))) as (_ & _ & _ & C & _).
    apply (C _ eq_refl); [vm_compute; discriminate|].
    split; vm_compute; discriminate.
  - destruct (degree_days_split_at_65 (D 581 (-1))) as (_ & _ & _ & _ & H).
    apply (H _ eq_refl); [vm_compute; discriminate|].
    split; vm_compute; discriminate.
Defined.

Lemma calculate_thw_index_unfold T RH WS :
  calculate_thw_index T RH WS
  = (hi ← calculate_heat_index T RH;
     match hi with
     | None => Ok None
     | Some hi =>
         if Dec.is_zero hi then Ok None
         else
           q ← Dec.quantize Dec.ROUND_CEILING
                 (Dec.mul THW_INDEX_CONSTANT (_as_decimal WS)) (-1);
           Ok (Some (Dec.sub hi q))
     end).
Proof. reflexivity. Qed.

Lemma heat_index_value_shape T RH hi :
  calculate_heat_index T RH = Ok (Some hi) ->
  Dec.dexp hi = (-1)%Z /\ fits hi.
Proof.
  intros H. apply heat_index_inversion in H as (_ & x & _ & Q).
  split; [apply (quantize_ceiling _ _ _ Q)|apply (quantize_fits _ _ _ _ Q)].
Qed.

Lemma thw_wind_term_at_zero WS q :
  toQ WS == 0 ->
  Dec.quantize Dec.ROUND_CEILING (Dec.mul THW_INDEX_CONSTANT WS) (-1) = Ok q ->
  q = D 0 (-1).
Proof.
  intros Z0 Q. apply is_zero_toQ, is_zero_coef in Z0.
  assert (M : Dec.mul THW_INDEX_CONSTANT WS = Dec.mk 0 (-3 + Dec.dexp WS)).
  { rewrite mul_exact_when_fits; unfold Dec.mul_exact; cbn; rewrite Z0.
    - reflexivity.
    - unfold fits. cbn. lia. }
  rewrite M in Q. unfold Dec.quantize in Q. cbn in Q. now injection Q as <-.
Qed.

Lemma sub_zero_tenths hi :
  Dec.dexp hi = (-1)%Z -> fits hi -> Dec.sub hi (D 0 (-1)) = hi.
Proof.
  intros E F.
  assert (X : Dec.sub_exact hi (D 0 (-1)) = hi).
  { destruct hi as [c e]. cbn in E. subst e.
    unfold Dec.sub_exact, Dec.add_exact, Dec.align, Dec.opp_exact.
    cbn [Dec.dcoef Dec.dexp D]. rewrite Z.min_id, Z.sub_diag.
    change (10 ^ 0)%Z with 1%Z. f_equal. lia. }
  unfold Dec.sub. rewrite X. now apply fix_fits.
Qed.

(** X15. [calculate_thw_index] is absent whenever the heat index is absent
    (so for every temperature below 70) and also when the heat index is
    zero; otherwise it is the heat index minus the wind term, 1.072 times
    the wind speed rounded up to tenths.  Hence it equals the heat index
    at zero wind and never exceeds it for a wind speed that is not
    negative.  It returns without error for temperatures from 70 to
    100000 and humidity and wind speed of magnitude up to 100000. *)
Theorem thw_index_is_heat_index_less_wind :
  (forall T RH WS, toQ T < 70 -> calculate_thw_index T RH WS = Ok None)
  /\ (forall T RH WS hi,
        calculate_heat_index T RH = Ok (Some hi) -> toQ hi == 0 ->
        calculate_thw_index T RH WS = Ok None)
  /\ (forall T RH WS r,
        calculate_thw_index T RH WS = Ok (Some r) ->
        exists hi q,
          calculate_heat_index T RH = Ok (Some hi)
          /\ ~ toQ hi == 0
          /\ Dec.quantize Dec.ROUND_CEILING
               (Dec.mul THW_INDEX_CONSTANT (_as_decimal WS)) (-1) = Ok q
          /\ r = Dec.sub hi q
          /\ (toQ (_as_decimal WS) == 0 -> r = hi)
          /\ (0 <= toQ (_as_decimal WS) -> toQ r <= toQ hi))
  /\ (forall T RH WS,
        70 <= toQ T <= 100000 ->
        - (100000) <= toQ (_as_decimal RH) <= 100000 ->
        - (100000) <= toQ (_as_decimal WS) <= 100000 ->
        exists r, calculate_thw_index T RH WS = Ok r).
Proof.
  split; [|split; [|split]].
  - intros T RH WS H. rewrite calculate_thw_index_unfold.
    now rewrite (heat_index_below_threshold _ _ H).
  - intros T RH WS hi H Z0. rewrite calculate_thw_index_unfold, H.
    rewrite bind_ret_Ok. apply is_zero_toQ in Z0. now rewrite Z0.
  - intros T RH WS r H. rewrite calculate_thw_index_unfold in H.
    step H as ohi Hhi. destruct ohi as [hi|]; [|discriminate].
    destruct (Dec.is_zero hi) eqn:Z0; [discriminate|].
    step H as q Q. injection H as <-.
    destruct (heat_index_value_shape _ _ _ Hhi) as [Ehi Fhi].
    exists hi, q. split; [exact Hhi|]. split.
    { intros N. apply is_zero_toQ in N. congruence. }
    split; [exact Q|]. split; [reflexivity|]. split.
    + intros W0. rewrite (thw_wind_term_at_zero _ _ W0 Q).
      now apply sub_zero_tenths.
    + intros W0. apply fix_le; [exact Fhi|].
      rewrite toQ_sub_exact.
      apply quantize_ceiling in Q as (_ & Lo & _).
      assert (0 <= toQ (Dec.mul THW_INDEX_CONSTANT (_as_decimal WS))).
      { apply mul_nonneg; [vm_compute; discriminate|exact W0]. }
      lra.
  - intros T RH WS HT HR HW. rewrite calculate_thw_index_unfold.
    destruct (heat_index_total T RH HT HR) as [hi ->].
    rewrite bind_ret_Ok. destruct (Dec.is_zero hi); [eauto|].
    destruct (quantize_ceiling_total
                (Dec.mul THW_INDEX_CONSTANT (_as_decimal WS)) (-1))
      as [q ->]; [|rewrite bind_ret_Ok; eauto].
    assert (M : mag 26 (Dec.mul THW_INDEX_CONSTANT (_as_decimal WS))).
    { apply mag_5 in HW. mag_le 26%Z. }
    exact M.
Qed.

Lemma thw_index_is_heat_index_less_wind_witness :
  calculate_thw_index (D 65 0) (NumInt 50) (NumInt 10) = Ok None
  /\ exists r, calculate_thw_index (D 90 0) (NumInt 50) (NumInt 0) = Ok r.
Proof.
  destruct thw_index_is_heat_index_less_wind as (A & _ & _ & T).
  split.
  - apply A. vm_compute. reflexivity.
  - apply T; split; vm_compute; discriminate.
Defined.

Lemma mul_mk (c1 e1 c2 e2 : Z) :
  (Z.abs (c1 * c2) < 10 ^ 28)%Z ->
  Dec.mul (Dec.mk c1 e1) (Dec.mk c2 e2) = Dec.mk (c1 * c2) (e1 + e2).
Proof. intros H. now apply mul_exact_when_fits. Qed.

Lemma toQ_mk (c e : Z) : toQ (Dec.mk c e) = inject_Z c * 10 ^ e.
Proof. reflexivity. Qed.

Ltac exact_products :=
  unfold serial_clicks_to_inches, database_clicks_to_inches,
    serial_clicks_to_centimeters, database_clicks_to_centimeters,
    _HUNDREDTHS, _TENTHS, _INCHES_PER_CENTIMETER, Dec.of_int, D;
  repeat (rewrite mul_mk by lia).

(** X16. Rain clicks to inches, for click counts below [10^18] in
    magnitude: no rounding takes place, a click is 0.1 or 0.01 inches for
    the inch collectors and 0.2, 1.0 or 0.1 millimetres at 0.393701 inches
    per centimetre for the metric ones, and the serial and the database
    collector types of the same name give the same number. *)
Theorem rain_clicks_to_inches_exact (c : Z) :
  (Z.abs c < 10 ^ 18)%Z ->
  toQ (database_clicks_to_inches RainCollectorTypeDatabase.inches_0_1 c)
    == inject_Z c * (1 # 10)
  /\ toQ (database_clicks_to_inches RainCollectorTypeDatabase.inches_0_01 c)
    == inject_Z c * (1 # 100)
  /\ toQ (database_clicks_to_inches RainCollectorTypeDatabase.millimeters_0_2 c)
    == inject_Z c * (2 # 100) * (393701 # 1000000)
  /\ toQ (database_clicks_to_inches RainCollectorTypeDatabase.millimeters_1_0 c)
    == inject_Z c * (1 # 10) * (393701 # 1000000)
  /\ toQ (database_clicks_to_inches RainCollectorTypeDatabase.millimeters_0_1 c)
    == inject_Z c * (1 # 100) * (393701 # 1000000)
  /\ toQ (serial_clicks_to_inches RainCollectorTypeSerial.inches_0_01 c)
     == toQ (database_clicks_to_inches RainCollectorTypeDatabase.inches_0_01 c)
  /\ toQ (serial_clicks_to_inches RainCollectorTypeSerial.millimeters_0_2 c)
     == toQ (database_clicks_to_inches
               RainCollectorTypeDatabase.millimeters_0_2 c)
  /\ toQ (serial_clicks_to_inches RainCollectorTypeSerial.millimeters_0_1 c)
     == toQ (database_clicks_to_inches
               RainCollectorTypeDatabase.millimeters_0_1 c).
Proof.
  intros B. change (10 ^ 18)%Z with 1000000000000000000%Z in B.
  repeat split; exact_products; rewrite ?toQ_mk, ?inject_Z_mult;
    repeat match goal with
           | |- context [10 ^ ?e] =>
               let q := eval vm_compute in (10 ^ e) in
               change (10 ^ e) with q
           end;
    unfold Qeq; cbn; lia.
Qed.

Lemma rain_clicks_to_inches_exact_witness :
  toQ (database_clicks_to_inches RainCollectorTypeDatabase.millimeters_0_2 25)
  == 25 * (2 # 100) * (393701 # 1000000).
Proof.
  apply (rain_clicks_to_inches_exact 25). vm_compute. reflexivity.
Defined.

Local Close Scope Q_scope.
Local Open Scope Z_scope.

(* --------------------------------------------------------------------- *)
(** ** Rolling 10-minute wind average                                      *)
(* --------------------------------------------------------------------- *)
Local Open Scope Q_scope.

(** *** [int(minutes_covered)] truncates toward zero *)

Lemma quot_bounds (c p : Z) :
  (0 < p)%Z ->
  ((0 <= c -> p * Z.quot c p <= c < p * Z.quot c p + p)
   /\ (c <= 0 -> p * Z.quot c p - p < c <= p * Z.quot c p))%Z.
Proof.
  intros Hp. pose proof (Z.quot_rem' c p) as E. split; intros Hc.
  - pose proof (Z.rem_bound_pos c p Hc Hp). lia.
  - pose proof (Z.rem_bound_pos_neg c p Hp Hc). lia.
Qed.

Lemma to_int_bounds d :
  (0 <= toQ d ->
   inject_Z (Dec.to_int d) <= toQ d < inject_Z (Dec.to_int d) + 1)
  /\ (toQ d <= 0 ->
      toQ d <= inject_Z (Dec.to_int d) < toQ d + 1).
Proof.
  unfold Dec.to_int.
  destruct (Z.leb_spec 0 (Dec.dexp d)) as [E|E].
  { assert (V : toQ d == inject_Z (Dec.dcoef d * 10 ^ Dec.dexp d)).
    { unfold toQ. rewrite inject_Z_mult, pow10_inject by lia. reflexivity. }
    rewrite V. split; intros _; split; lra. }
  set (p := (10 ^ (- Dec.dexp d))%Z).
  assert (Hp : (0 < p)%Z) by (apply Z.pow_pos_nonneg; lia).
  assert (P : 0 < inject_Z p)
    by (change 0 with (inject_Z 0); rewrite <- Zlt_Qlt; exact Hp).
  assert (V : toQ d * inject_Z p == inject_Z (Dec.dcoef d)).
  { unfold toQ, p. rewrite <- Qmult_assoc, (Qmult_comm (10 ^ _)).
    rewrite pow10_neg by lia. ring. }
  destruct (quot_bounds (Dec.dcoef d) p Hp) as [Bp Bn].
  set (q := Z.quot (Dec.dcoef d) p) in *.
  split; intros Hv.
  - assert (Hc : (0 <= Dec.dcoef d)%Z).
    { rewrite Zle_Qle, <- V. change (inject_Z 0) with 0. nra. }
    destruct (Bp Hc) as [L U].
    rewrite Zle_Qle in L. rewrite Zlt_Qlt in U.
    rewrite <- V in L, U.
    rewrite inject_Z_plus, inject_Z_mult in U. rewrite inject_Z_mult in L.
    split; nra.
  - assert (Hc : (Dec.dcoef d <= 0)%Z).
    { rewrite Zle_Qle, <- V. change (inject_Z 0) with 0. nra. }
    destruct (Bn Hc) as [L U].
    rewrite Zlt_Qlt in L. rewrite Zle_Qle in U.
    rewrite <- V in L, U.
    unfold Z.sub in L.
    rewrite inject_Z_plus, inject_Z_opp, inject_Z_mult in L.
    rewrite inject_Z_mult in U.
    split; nra.
Qed.

Lemma int_of_minutes_bounds m :
  (0 <= minutes_value m ->
   inject_Z (int_of_minutes m) <= minutes_value m
   < inject_Z (int_of_minutes m) + 1)
  /\ (minutes_value m <= 0 ->
      minutes_value m <= inject_Z (int_of_minutes m) < minutes_value m + 1).
Proof.
  destruct m as [n|d]; cbn [minutes_value int_of_minutes].
  - split; intros _; split; lra.
  - apply to_int_bounds.
Qed.

Lemma inject_Z_lt_1 (a b : Z) : inject_Z a < inject_Z b + 1 -> (a <= b)%Z.
Proof.
  intros H. change 1 with (inject_Z 1) in H. rewrite <- inject_Z_plus in H.
  rewrite <- Zlt_Qlt in H. lia.
Qed.



(** The entries a sample puts into the queues: its whole minutes. *)
Lemma queued_minutes m :
  Z.to_nat (int_of_minutes m) = Z.to_nat (Qfloor (minutes_value m)).
Proof.
  pose proof (Qfloor_le (minutes_value m)) as FL.
  pose proof (Qlt_floor (minutes_value m)) as FU.
  rewrite inject_Z_plus in FU. change (inject_Z 1) with 1 in FU.
  destruct (Qlt_le_dec (minutes_value m) 0) as [N|P].
  - destruct (int_of_minutes_bounds m) as [_ [L U]]; [lra|].
    assert (A : inject_Z (int_of_minutes m) < inject_Z 0 + 1)
      by (change (inject_Z 0) with 0; lra).
    apply inject_Z_lt_1 in A.
    assert (B : inject_Z (Qfloor (minutes_value m)) < inject_Z 0 + 1)
      by (change (inject_Z 0) with 0; lra).
    apply inject_Z_lt_1 in B. lia.
  - destruct (int_of_minutes_bounds m) as [[L U] _]; [exact P|].
    f_equal. apply Z.le_antisymm; apply inject_Z_lt_1; lra.
Qed.

Local Close Scope Q_scope.
Local Open Scope Z_scope.

(** *** The time-stamp subtractions *)

Lemma range_down_bounds (n i : Z) : i ∈ range_down n -> 0 <= i < n.
Proof.
  unfold range_down. intros H.
  apply list_elem_of_In, in_map_iff in H as (k & <- & Hk).
  apply in_seq in Hk. lia.
Qed.

Lemma minutes_before_returns (t : datetime) (l : list Z) :
  (forall i, i ∈ l -> exists t', Calendar.add_minutes t (- i) = Ok t') ->
  exists ts, minutes_before t l = Ok ts.
Proof.
  induction l as [|i l IH]; intros H; cbn [minutes_before]; [eauto|].
  destruct (H i) as [t' ->]; [left|]. rewrite bind_ret_Ok.
  destruct IH as [ts ->]; [intros j Hj; apply H; now right|].
  rewrite bind_ret_Ok. eauto.
Qed.

Lemma minutes_before_length (t : datetime) (l : list Z) : forall ts,
  minutes_before t l = Ok ts -> length ts = length l.
Proof.
  induction l as [|i l IH]; intros ts H; cbn [minutes_before] in H.
  - now injection H as <-.
  - step H as t' Ht. step H as ts' Hts. injection H as <-.
    cbn. now rewrite (IH _ Hts).
Qed.

Lemma can_go_back_checked {direction : Type}
    (r : sample direction datetime) :
  can_go_back_check r = true -> can_go_back r.
Proof.
  unfold can_go_back_check, can_go_back. rewrite forallb_forall.
  intros H i Hi.
  assert (Hin : In i [0; 1; 2; 3; 4; 5; 6; 7; 8; 9]) by (cbn; lia).
  specialize (H i Hin).
  destruct (Calendar.add_minutes r.1.2 (- i)) as [t|e];
    [eauto|discriminate].
Qed.

Section WindAverageFacts.
Context {direction : Type} `{EqDecision direction}.

Implicit Types (st : @wind_state direction)
               (r : sample direction datetime)
               (records : list (sample direction datetime)).

Lemma length_deque_extend {A} (q xs : list A) :
  length (deque_extend q xs) = ((length q + length xs) `min` 10)%nat.
Proof. unfold deque_extend. rewrite length_drop, length_app. lia. Qed.

Lemma length_range_down n : length (range_down n) = Z.to_nat n.
Proof. unfold range_down. now rewrite length_map, length_seq. Qed.

Lemma Forall_deque_extend {A} (P : A -> Prop) (q xs : list A) :
  Forall P q -> Forall P xs -> Forall P (deque_extend q xs).
Proof.
  intros Hq Hxs. unfold deque_extend. apply Forall_drop, Forall_app. auto.
Qed.

(** *** One pass of the loop body *)

(** The loop body returns when the time stamp can go back nine minutes: its
    other fallible step divides by 10. *)
Lemma wind_step_returns st r :
  can_go_back r -> exists o, wind_step st r = Ok o.
Proof.
  destruct r as [[[ws d] t] m]. intros B. unfold wind_step.
  destruct (Z.ltb_spec 10 (int_of_minutes m)) as [|Hmc]; [eauto|].
  assert (T : exists tq,
             (if int_of_minutes m =? 1
              then Ok (deque_extend (timestamp_queue st) [t])
              else stamps ← minutes_before t (range_down (int_of_minutes m));
                   Ok (deque_extend (timestamp_queue st) stamps))
             = Ok tq).
  { destruct (int_of_minutes m =? 1); [eauto|].
    destruct (minutes_before_returns t (range_down (int_of_minutes m)))
      as [ts ->]; [|rewrite bind_ret_Ok; eauto].
    intros i Hi. apply range_down_bounds in Hi. apply (B i). lia. }
  destruct T as [tq ->]. rewrite bind_ret_Ok.
  match goal with
  | |- context [if ?c then _ else _] => destruct c; [|eauto]
  end.
  match goal with
  | |- context [Dec.div ?a ?b] =>
      destruct (dec_div_ok_nonzero a b eq_refl) as [q ->]
  end.
  rewrite bind_ret_Ok. destruct (Dec.gtb q (current_max st)); eauto.
Qed.

(** What a pass that continues has done. *)
Lemma wind_step_inversion st ws d t m st' :
  wind_step st (ws, d, t, m) = Ok (Some st') ->
  let n := Z.to_nat (int_of_minutes m) in
  let sq := deque_extend (speed_queue st) (replicate n (_as_decimal ws)) in
  let dq := deque_extend (direction_queue st) (replicate n d) in
  int_of_minutes m <= 10
  /\ speed_queue st' = sq /\ direction_queue st' = dq
  /\ length (timestamp_queue st')
     = ((length (timestamp_queue st) + n) `min` 10)%nat
  /\ ((length sq = 10%nat
       /\ (exists average,
             Dec.div (sum_decimals sq) (Dec.of_int 10) = Ok average
             /\ Dec.gtb average (current_max st) = true
             /\ current_max st' = average)
       /\ current_direction_list st' = dq
       /\ current_timestamp_list st' = timestamp_queue st')
      \/ (current_max st' = current_max st
          /\ current_direction_list st' = current_direction_list st
          /\ current_timestamp_list st' = current_timestamp_list st
          /\ (length sq = 10%nat ->
              exists average,
                Dec.div (sum_decimals sq) (Dec.of_int 10) = Ok average
                /\ Dec.gtb average (current_max st) = false))).
Proof.
  unfold wind_step.
  destruct (Z.ltb_spec 10 (int_of_minutes m)) as [|Hmc]; [discriminate|].
  intros H. step H as tq Htq.
  assert (Ltq : length tq
                = ((length (timestamp_queue st)
                    + Z.to_nat (int_of_minutes m)) `min` 10)%nat).
  { destruct (Z.eqb_spec (int_of_minutes m) 1) as [E|_].
    - injection Htq as <-. rewrite length_deque_extend, E. reflexivity.
    - step Htq as stamps Hs. injection Htq as <-.
      rewrite length_deque_extend, (minutes_before_length _ _ _ Hs).
      now rewrite length_range_down. }
  cbv zeta. split; [exact Hmc|].
  destruct (Nat.eqb_spec
              (length (deque_extend (speed_queue st)
                         (replicate (Z.to_nat (int_of_minutes m))
                            (_as_decimal ws)))) 10) as [Full|NotFull].
  - step H as average Hdiv.
    destruct (Dec.gtb average (current_max st)) eqn:G;
      injection H as <-; cbn; repeat split; auto.
    + left. repeat split; eauto.
    + right. repeat split; eauto.
  - injection H as <-. cbn. repeat split; auto.
    right. repeat split; auto. intros F. contradiction.
Qed.

(** *** Samples of more than ten minutes *)



(** *** The loop as a whole *)

Lemma wind_loop_returns records :
  Forall can_go_back records ->
  forall st, exists o, wind_loop records st = Ok o.
Proof.
  induction records as [|r records IH]; intros HB st; [cbn; eauto|].
  apply Forall_cons in HB as [Hr HB]. cbn [wind_loop].
  destruct (wind_step_returns st r Hr) as [[st'|] ->];
    rewrite bind_ret_Ok; [apply IH, HB|eauto].
Qed.

Lemma average_returns records :
  Forall can_go_back records ->
  exists res, calculate_10_minute_wind_average records = Ok res.
Proof.
  intros HB. unfold calculate_10_minute_wind_average.
  destruct (wind_loop_returns records HB initial_wind_state) as [o ->].
  rewrite bind_ret_Ok. destruct o as [st|]; [|eauto].
  destruct (Dec.gtb _ _); eauto.
Qed.

(** An invariant of the loop carries over to the state it ends in. *)
Lemma wind_loop_invariant (I : wind_state -> Prop) (P : _ -> Prop) :
  (forall st r st', I st -> P r -> wind_step st r = Ok (Some st') -> I st') ->
  forall records st st',
    I st -> Forall P records ->
    wind_loop records st = Ok (Some st') -> I st'.
Proof.
  intros Step. induction records as [|r records IH]; intros st st' HI HP H.
  - cbn in H. now injection H as <-.
  - apply Forall_cons in HP as [Hr HP]. cbn [wind_loop] in H.
    step H as o Ho. destruct o as [st1|]; [|discriminate].
    eapply IH; [|exact HP|exact H]. eapply Step; eauto.
Qed.

(** *** Calm input *)

Lemma sum_decimals_zero (q : list Decimal) :
  Forall (fun d => Dec.is_zero d = true) q ->
  Dec.is_zero (sum_decimals q) = true.
Proof.
  unfold sum_decimals.
  generalize (Dec.of_int 0) (eq_refl : Dec.is_zero (Dec.of_int 0) = true).
  induction q as [|d q IH]; intros acc Hacc HF; cbn.
  - exact Hacc.
  - apply Forall_cons in HF as [Hd HF]. apply IH; [|exact HF].
    now apply dec_add_zero.
Qed.

Lemma calm_sample_zero {timestamp : Type}
    (r : sample direction timestamp) :
  match r.1.1.1 with
  | NumInt z => z = 0
  | NumDecimal d => (toQ d == 0)%Q
  | NumNone => False
  end ->
  Dec.is_zero (_as_decimal r.1.1.1) = true.
Proof.
  destruct r as [[[[|z|d] ?] ?] ?]; cbn; [tauto| |].
  - now intros ->.
  - apply is_zero_toQ.
Qed.

(** A calm sample keeps a calm state calm: the window average is zero and
    never exceeds the running maximum. *)
Lemma wind_step_calm st r st' :
  calm st -> calm_sample r -> wind_step st r = Ok (Some st') -> calm st'.
Proof.
  destruct r as [[[ws d] t] m]. intros (Hmax & Hq & Hd & Ht) Hws H.
  apply calm_sample_zero in Hws. cbn [fst] in Hws.
  apply wind_step_inversion in H as (_ & Esq & _ & _ & C). cbv zeta in *.
  assert (Hsq : Forall (fun d => Dec.is_zero d = true) (speed_queue st')).
  { rewrite Esq. apply Forall_deque_extend; [exact Hq|].
    now apply Forall_replicate. }
  destruct C as [(_ & (average & Hdiv & G & _) & _)|(E1 & E2 & E3 & _)].
  - exfalso. rewrite <- Esq in Hdiv.
    destruct (dec_div_zero (sum_decimals (speed_queue st')) (Dec.of_int 10)
                (sum_decimals_zero _ Hsq) eq_refl) as (q & Hq' & Hz).
    rewrite Hq' in Hdiv. injection Hdiv as <-.
    rewrite (dec_gtb_zero q (current_max st) Hz Hmax) in G. discriminate.
  - unfold calm. rewrite E1, E2, E3. auto.
Qed.

Lemma calm_initial : calm (@initial_wind_state direction).
Proof. repeat split; constructor. Qed.

Lemma wind_loop_calm records st :
  Forall calm_sample records ->
  wind_loop records initial_wind_state = Ok (Some st) -> calm st.
Proof.
  intros HF H.
  exact (wind_loop_invariant calm calm_sample wind_step_calm records _ _
           calm_initial HF H).
Qed.

Lemma calm_result records res :
  Forall calm_sample records ->
  calculate_10_minute_wind_average records = Ok res -> res = all_absent.
Proof.
  intros HF H. unfold calculate_10_minute_wind_average in H.
  step H as o Ho. destruct o as [st|]; [|now injection H as <-].
  destruct (wind_loop_calm records st HF Ho) as (Hmax & _).
  rewrite (dec_gtb_zero (current_max st) ZERO Hmax eq_refl) in H.
  now injection H as <-.
Qed.

(** *** Ten and nine steady one-minute samples *)







(** *** What every result looks like *)


Section Seen.
Variable seen : direction -> Prop.




End Seen.

(** *** Fewer than ten minutes of samples *)

Lemma wind_loop_short records : forall st st',
  (length (speed_queue st) + minutes_queued records < 10)%nat ->
  wind_loop records st = Ok (Some st') ->
  current_max st' = current_max st.
Proof.
  induction records as [|r records IH]; intros st st' Hshort H.
  - cbn in H. now injection H as <-.
  - unfold minutes_queued in Hshort. cbn [fmap list_fmap sum_list] in Hshort.
    fold (minutes_queued records) in Hshort.
    cbn [wind_loop] in H. step H as o Ho.
    destruct o as [st1|]; [|discriminate].
    destruct r as [[[ws d] t] m]. cbn [snd] in Hshort. unfold id in Hshort.
    rewrite <- queued_minutes in Hshort.
    apply wind_step_inversion in Ho as (_ & Esq & _ & _ & C).
    cbv zeta in *.
    assert (Lsq : (length (speed_queue st1)
                   = length (speed_queue st)
                     + Z.to_nat (int_of_minutes m))%nat).
    { rewrite Esq, length_deque_extend, length_replicate. lia. }
    rewrite (IH st1 st' ltac:(lia) H).
    destruct C as [(Full & _)|(E1 & _)]; [|exact E1].
    rewrite <- Esq in Full. lia.
Qed.

Lemma short_input_result records res :
  (minutes_queued records < 10)%nat ->
  calculate_10_minute_wind_average records = Ok res -> res = all_absent.
Proof.
  intros Hshort H. unfold calculate_10_minute_wind_average in H.
  step H as o Ho. destruct o as [st|]; [|now injection H as <-].
  rewrite (wind_loop_short records initial_wind_state st Hshort Ho) in H.
  cbn in H. now injection H as <-.
Qed.

End WindAverageFacts.

Ltac samples_go_back :=
  repeat (constructor; [apply can_go_back_checked; vm_compute; reflexivity|]);
  constructor.




(** C10. Input whose wind speeds are all 0 never gives a present result,
    also when the 10-slot window fills: the zero average never exceeds the
    running maximum, which starts at 0, so no window is ever recorded.
    When every time stamp lies at least nine minutes after the earliest
    date-time the function returns, so the four results are absent, as for
    a window that never filled. *)
Theorem calm_wind_is_absent
    {direction : Type} `{EqDecision direction}
    (records : list (sample direction datetime)) :
  Forall calm_sample records ->
  (forall res,
     calculate_10_minute_wind_average records = Ok res -> res = all_absent)
  /\ (Forall can_go_back records ->
      calculate_10_minute_wind_average records = Ok all_absent
      /\ calculate_10_minute_wind_average records
         = calculate_10_minute_wind_average
             (@nil (sample direction datetime)))
  /\ (forall st, wind_loop records initial_wind_state = Ok (Some st) ->
                 Dec.gtb (current_max st) ZERO = false
                 /\ current_direction_list st = []
                 /\ current_timestamp_list st = []).
Proof.
  intros HF. split; [|split].
  - intros res. apply calm_result. exact HF.
  - intros HB. destruct (average_returns records HB) as [res E].
    rewrite E, (calm_result records res HF E). split; reflexivity.
  - intros st Hst.
    destruct (wind_loop_calm records st HF Hst) as (Hmax & _ & Hd & Ht).
    repeat split; try assumption. now apply dec_gtb_zero.
Qed.

Lemma calm_wind_is_absent_witness :
  Forall calm_sample eleven_calm_samples_example
  /\ calculate_10_minute_wind_average eleven_calm_samples_example
     = Ok all_absent
  /\ (exists st, wind_loop eleven_calm_samples_example initial_wind_state
                 = Ok (Some st)
                 /\ length (speed_queue st) = 10%nat
                 /\ current_direction_list st = []).
Proof.
  assert (HF : Forall calm_sample eleven_calm_samples_example)
    by (repeat (constructor; [reflexivity|]); constructor).
  destruct (calm_wind_is_absent eleven_calm_samples_example HF)
    as (_ & Habs & _).
  split; [exact HF|]. split; [apply Habs; samples_go_back|].
  eexists. split; [vm_compute; reflexivity|]. split; reflexivity.
Defined.

(** A calm five-minute sample at 0001-01-01 00:03: the time-stamp
    subtraction raises OverflowError. *)
Lemma calm_wind_counterexample :
  Forall calm_sample (early_sample_example 0)
  /\ calculate_10_minute_wind_average (early_sample_example 0)
     = Raise OverflowError.
Proof.
  split; [repeat (constructor; [reflexivity|]); constructor|].
  vm_compute. reflexivity.
Qed.



(** X18. When the samples cover fewer than ten whole minutes in total (each
    sample counted with its whole minutes, a negative count as none), the
    queue of speeds is never full: the function never returns a present
    result, and it returns four absent components when every time stamp
    lies at least nine minutes after the earliest date-time. *)
Theorem wind_average_needs_ten_minutes
    {direction : Type} `{EqDecision direction}
    (records : list (sample direction datetime)) :
  (minutes_queued records < 10)%nat ->
  (forall res,
     calculate_10_minute_wind_average records = Ok res -> res = all_absent)
  /\ (Forall can_go_back records ->
      calculate_10_minute_wind_average records = Ok all_absent).
Proof.
  intros Hshort. split.
  - intros res. now apply short_input_result.
  - intros HB. destruct (average_returns records HB) as [res E].
    now rewrite E, (short_input_result records res Hshort E).
Qed.

Lemma wind_average_needs_ten_minutes_witness :
  calculate_10_minute_wind_average (take 9 ten_steady_samples_example)
  = Ok all_absent.
Proof.
  apply (wind_average_needs_ten_minutes (take 9 ten_steady_samples_example)).
  - vm_compute. lia.
  - samples_go_back.
Defined.

Local Close Scope Q_scope.
Local Open Scope Z_scope.

(* --------------------------------------------------------------------- *)
(** ** Unit conversions                                                   *)
(* --------------------------------------------------------------------- *)
Local Open Scope Z_scope.

(** Half-even rounding is to the nearest multiple. *)
Lemma round_div_half (c k : Z) :
  0 <= k ->
  2 * Z.abs (c - Dec.round_div Dec.ROUND_HALF_EVEN c k * 10 ^ k) <= 10 ^ k.
Proof.
  intros Hk. unfold Dec.round_div.
  assert (P : 0 < 10 ^ k) by (apply Z.pow_pos_nonneg; lia).
  pose proof (Z.div_mod c (10 ^ k) ltac:(lia)) as E.
  pose proof (Z.mod_pos_bound c (10 ^ k) P) as B.
  set (p := 10 ^ k) in *. set (q := c / p) in *. set (rm := c mod p) in *.
  destruct (Z.compare_spec (2 * rm) p) as [C|C|C];
    [destruct (Z.even q)| |]; nia.
Qed.

Local Open Scope Q_scope.

Lemma rescale_half_even a q :
  toQ a - (1 # 2) * 10 ^ q <= toQ (Dec.rescale Dec.ROUND_HALF_EVEN a q)
  /\ toQ (Dec.rescale Dec.ROUND_HALF_EVEN a q) <= toQ a + (1 # 2) * 10 ^ q.
Proof.
  pose proof (pow10_pos q) as Pq.
  destruct (Z.le_gt_cases q (Dec.dexp a)) as [L|G].
  { rewrite rescale_exact by exact L. split; lra. }
  rewrite rescale_round by lia.
  pose proof (round_div_half (Dec.dcoef a) (q - Dec.dexp a) ltac:(lia)) as H.
  set (k := (q - Dec.dexp a)%Z) in *.
  set (c' := Dec.round_div Dec.ROUND_HALF_EVEN (Dec.dcoef a) k) in *.
  assert (Eq' : 10 ^ q == inject_Z (10 ^ k) * 10 ^ Dec.dexp a).
  { rewrite pow10_inject by (unfold k; lia). rewrite <- pow10_add.
    unfold k. replace (q - Dec.dexp a + Dec.dexp a)%Z with q by lia.
    reflexivity. }
  pose proof (pow10_pos (Dec.dexp a)) as Pe.
  unfold toQ. rewrite Eq'.
  set (e := 10 ^ Dec.dexp a) in *.
  assert (H1 : (2 * (Dec.dcoef a - c' * 10 ^ k) <= 10 ^ k)%Z) by lia.
  assert (H2 : (- 10 ^ k <= 2 * (Dec.dcoef a - c' * 10 ^ k))%Z) by lia.
  apply (inject_Z_le_compat _ _ _ Pe) in H1.
  apply (inject_Z_le_compat _ _ _ Pe) in H2.
  rewrite inject_Z_opp in H2.
  rewrite inject_Z_mult in H1, H2.
  unfold Z.sub in H1, H2.
  rewrite inject_Z_plus, inject_Z_opp, inject_Z_mult in H1, H2.
  change (inject_Z 2) with 2 in *.
  split; lra.
Qed.

(** [quantize] with ROUND_HALF_EVEN: within half a unit of the last
    place. *)
Lemma quantize_half_even a q v :
  Dec.quantize Dec.ROUND_HALF_EVEN a q = Ok v ->
  Dec.dexp v = q
  /\ toQ a - (1 # 2) * 10 ^ q <= toQ v <= toQ a + (1 # 2) * 10 ^ q.
Proof.
  intros H. pose proof (pow10_pos q) as Pq.
  apply quantize_inv in H as [E [->|[Za Zv]]].
  - split; [exact E|]. apply rescale_half_even.
  - split; [exact E|]. rewrite Za, Zv. split; lra.
Qed.

Lemma quantize_half_even_total a q :
  - 10 ^ (27 + q) <= toQ a <= 10 ^ (27 + q) ->
  exists v, Dec.quantize Dec.ROUND_HALF_EVEN a q = Ok v.
Proof.
  intros M. apply quantize_total; [|exact M].
  pose proof (pow10_pos q) as Pq.
  destruct (rescale_half_even a q) as [Lo Hi]. split; lra.
Qed.

(** Context rounding moves a value of magnitude up to [10^(27+q)] by less
    than [10^q]. *)
Lemma fix_near d q :
  - 10 ^ (27 + q) <= toQ d <= 10 ^ (27 + q) ->
  toQ d - 10 ^ q < toQ (Dec.fix_ d) < toQ d + 10 ^ q.
Proof.
  intros M.
  destruct (quantize_floor_total d q M) as [lo Hlo].
  destruct (quantize_ceiling_total d q M) as [hi Hhi].
  pose proof (quantize_fits _ _ _ _ Hlo) as Flo.
  pose proof (quantize_fits _ _ _ _ Hhi) as Fhi.
  apply quantize_floor in Hlo as (_ & L1 & L2).
  apply quantize_ceiling in Hhi as (_ & U1 & U2).
  pose proof (fix_ge lo d Flo L1). pose proof (fix_le hi d Fhi U1).
  split; lra.
Qed.

Ltac pow10_eval :=
  repeat match goal with
         | H : context [10 ^ ?e] |- _ =>
             let q := eval vm_compute in (10 ^ e) in
             change (10 ^ e) with q in H
         | |- context [10 ^ ?e] =>
             let q := eval vm_compute in (10 ^ e) in
             change (10 ^ e) with q
         end.

(** The arithmetic operators on values of magnitude up to [10^7]: the
    context rounding moves the exact result by less than [10^-20]. *)
Lemma add_near a b :
  - (10000000) <= toQ a + toQ b <= 10000000 ->
  toQ a + toQ b - 10 ^ (-20) < toQ (Dec.add a b) < toQ a + toQ b + 10 ^ (-20).
Proof.
  intros M. rewrite <- toQ_add_exact in *. apply fix_near. exact M.
Qed.

Lemma sub_near a b :
  - (10000000) <= toQ a - toQ b <= 10000000 ->
  toQ a - toQ b - 10 ^ (-20) < toQ (Dec.sub a b) < toQ a - toQ b + 10 ^ (-20).
Proof.
  intros M. rewrite <- toQ_sub_exact in *. apply fix_near. exact M.
Qed.

Lemma mul_near a b :
  - (10000000) <= toQ a * toQ b <= 10000000 ->
  toQ a * toQ b - 10 ^ (-20) < toQ (Dec.mul a b) < toQ a * toQ b + 10 ^ (-20).
Proof.
  intros M. rewrite <- toQ_mul_exact in *. apply fix_near. exact M.
Qed.

Lemma mul_near_const a b (k : Q) :
  toQ b == k ->
  - (10000000) <= toQ a * k <= 10000000 ->
  toQ a * k - 10 ^ (-20) < toQ (Dec.mul a b) < toQ a * k + 10 ^ (-20).
Proof.
  intros E M. rewrite <- E in M. rewrite <- E. now apply mul_near.
Qed.

Lemma div_near a b q :
  Dec.div a b = Ok q ->
  - (1000000) <= toQ a / toQ b <= 1000000 ->
  toQ a / toQ b - 2 * 10 ^ (-20) < toQ q < toQ a / toQ b + 2 * 10 ^ (-20).
Proof.
  intros H M.
  destruct (Z.eq_dec (Dec.dcoef a) 0%Z) as [Za|Na].
  { assert (E : toQ a == 0) by (unfold toQ; rewrite Za; ring).
    unfold Dec.div in H. destruct (Dec.is_zero b); [discriminate|].
    unfold Dec.is_zero in H. rewrite Za in H. cbn in H. injection H as <-.
    rewrite fix_fits by (unfold fits; cbn; lia).
    rewrite toQ_zero, E. unfold Qdiv. rewrite Qmult_0_l.
    pow10_eval. split; lra. }
  destruct (div_shape a b q H Na) as (c & E & -> & S).
  set (x := toQ a / toQ b) in *.
  assert (N : x - 10 ^ (-20) < inject_Z c * 10 ^ E < x + 10 ^ (-20)).
  { destruct S as [->|[G [Lo Hi]]]; [pow10_eval; split; lra|].
    assert (LE : 10 ^ E <= 10 ^ (-20)).
    { apply pow10_le.
      destruct (Z.le_gt_cases E (-20)) as [L|L]; [exact L|exfalso].
      assert (B : 10 ^ (27 + -19) <= 10 ^ (27 + E))
        by (apply pow10_le; lia).
      pow10_eval. lra. }
    split; lra. }
  pose proof (fix_near (Dec.mk c E) (-20)) as F.
  change (toQ (Dec.mk c E)) with (inject_Z c * 10 ^ E) in F.
  pow10_eval. destruct F as [F1 F2]; [split; lra|]. split; lra.
Qed.

Lemma five_ninths_value :
  toQ FIVE_NINTHS == 5555555555555555555555555556 # 10000000000000000000000000000.
Proof. vm_compute. reflexivity. Qed.

Lemma nine_fifths_value : toQ NINE_FIFTHS == 18 # 10.
Proof. vm_compute. reflexivity. Qed.

(** The last step of each conversion: [quantize] to [q] places succeeds on
    values of magnitude up to [10^7] and stays within half a unit. *)
Lemma quantize_to_near (x e : Decimal) :
  (-20 <= Dec.dexp e)%Z ->
  - (10000000) <= toQ x <= 10000000 ->
  exists r, quantize_to x e = Ok r
            /\ Dec.dexp r = Dec.dexp e
            /\ toQ x - (1 # 2) * 10 ^ Dec.dexp e <= toQ r
               <= toQ x + (1 # 2) * 10 ^ Dec.dexp e.
Proof.
  intros E M. unfold quantize_to.
  destruct (quantize_half_even_total x (Dec.dexp e)) as [r Hr].
  { assert (B : 10 ^ (27 + -20) <= 10 ^ (27 + Dec.dexp e))
      by (apply pow10_le; lia).
    pow10_eval. split; lra. }
  exists r. split; [exact Hr|]. now apply quantize_half_even.
Qed.

Ltac conversion_finish x :=
  let r := fresh "r" in
  let Hr := fresh "Hr" in
  let Er := fresh "Er" in
  let Lo := fresh "Lo" in
  let Hi := fresh "Hi" in
  lazymatch goal with
  | |- context [quantize_to x ?e] =>
      destruct (quantize_to_near x e) as (r & Hr & Er & Lo & Hi);
      [vm_compute; discriminate | split; lra |];
      let q := eval vm_compute in (Dec.dexp e) in
      change (Dec.dexp e) with q in *;
      pow10_eval;
      exists r; split; [exact Hr|]; split; [exact Er|]; split; lra
  end.

(** X19. The four temperature conversions, for a temperature of magnitude
    up to a million: each returns a value with three decimal places that
    differs from the exact conversion ((F + 459.67) 5/9, K 9/5 - 459.67,
    (F - 32) 5/9, C 9/5 + 32) by at most half a thousandth plus a rounding
    slack of 10^-18. *)
Theorem temperature_conversions_accurate (T : Decimal) :
  - (1000000) <= toQ T <= 1000000 ->
  (exists r, convert_fahrenheit_to_kelvin T = Ok r
             /\ Dec.dexp r = (-3)%Z
             /\ within ((1 # 2000) + context_slack)
                  ((toQ T + (45967 # 100)) * (5 # 9)) r)
  /\ (exists r, convert_kelvin_to_fahrenheit T = Ok r
                /\ Dec.dexp r = (-3)%Z
                /\ within ((1 # 2000) + context_slack)
                     (toQ T * (9 # 5) - (45967 # 100)) r)
  /\ (exists r, convert_fahrenheit_to_celsius T = Ok r
                /\ Dec.dexp r = (-3)%Z
                /\ within ((1 # 2000) + context_slack)
                     ((toQ T - 32) * (5 # 9)) r)
  /\ (exists r, convert_celsius_to_fahrenheit T = Ok r
                /\ Dec.dexp r = (-3)%Z
                /\ within ((1 # 2000) + context_slack)
                     (toQ T * (9 # 5) + 32) r).
Proof.
  intros B.
  pose proof five_ninths_value as E59. pose proof nine_fifths_value as E95.
  assert (EK : toQ KELVIN_CONSTANT == 45967 # 100) by reflexivity.
  assert (EC : toQ CELSIUS_CONSTANT == 32) by reflexivity.
  unfold within, context_slack,
    convert_fahrenheit_to_kelvin, convert_kelvin_to_fahrenheit,
    convert_fahrenheit_to_celsius, convert_celsius_to_fahrenheit.
  repeat apply conj.
  - pose proof (add_near T KELVIN_CONSTANT) as N1.
    set (x1 := Dec.add T KELVIN_CONSTANT) in *.
    pose proof (mul_near_const x1 _ _ E59) as N2.
    set (x2 := Dec.mul x1 FIVE_NINTHS) in *.
    pow10_eval.
    destruct N1 as [N1a N1b]; [split; lra|].
    destruct N2 as [N2a N2b]; [split; lra|].
    conversion_finish x2.
  - pose proof (mul_near_const T _ _ E95) as N1.
    set (x1 := Dec.mul T NINE_FIFTHS) in *.
    pose proof (sub_near x1 KELVIN_CONSTANT) as N2.
    set (x2 := Dec.sub x1 KELVIN_CONSTANT) in *.
    pow10_eval.
    destruct N1 as [N1a N1b]; [split; lra|].
    destruct N2 as [N2a N2b]; [split; lra|].
    conversion_finish x2.
  - pose proof (sub_near T CELSIUS_CONSTANT) as N1.
    set (x1 := Dec.sub T CELSIUS_CONSTANT) in *.
    pose proof (mul_near_const x1 _ _ E59) as N2.
    set (x2 := Dec.mul x1 FIVE_NINTHS) in *.
    pow10_eval.
    destruct N1 as [N1a N1b]; [split; lra|].
    destruct N2 as [N2a N2b]; [split; lra|].
    conversion_finish x2.
  - pose proof (mul_near_const T _ _ E95) as N1.
    set (x1 := Dec.mul T NINE_FIFTHS) in *.
    pose proof (add_near x1 CELSIUS_CONSTANT) as N2.
    set (x2 := Dec.add x1 CELSIUS_CONSTANT) in *.
    pow10_eval.
    destruct N1 as [N1a N1b]; [split; lra|].
    destruct N2 as [N2a N2b]; [split; lra|].
    conversion_finish x2.
Qed.

Lemma temperature_conversions_accurate_witness :
  exists r, convert_fahrenheit_to_celsius (D 2120 (-1)) = Ok r
            /\ Dec.dexp r = (-3)%Z
            /\ within ((1 # 2000) + context_slack)
                 ((toQ (D 2120 (-1)) - 32) * (5 # 9)) r.
Proof.
  destruct (temperature_conversions_accurate (D 2120 (-1)))
    as (_ & _ & C & _); [split; vm_compute; discriminate | exact C].
Defined.

Lemma conversion_quotient (P k : Decimal) (c : Q) :
  toQ k == c -> 1 # 100 <= c ->
  - (10000) <= toQ P <= 10000 ->
  exists q, Dec.div P k = Ok q
            /\ toQ P / c - 2 * 10 ^ (-20) < toQ q
               < toQ P / c + 2 * 10 ^ (-20)
            /\ - (1000000) <= toQ P / c <= 1000000.
Proof.
  intros E C B.
  assert (M : - (1000000) <= toQ P / c <= 1000000).
  { split.
    - apply Qle_shift_div_l; [lra|]. nra.
    - apply Qle_shift_div_r; [lra|]. nra. }
  destruct (div_total P k) as [q Hq]; [rewrite E; lra|].
  exists q. split; [exact Hq|]. split; [|exact M].
  rewrite <- E in M |- *. now apply div_near.
Qed.

(** X20. Pressure and speed conversions, for a value of magnitude up to
    10000: inches of mercury to kilopascals and to millibars divide by
    0.295299830714 and 0.0295299830714 and round to two places, miles per
    hour to metres per second multiplies by 0.44704 and rounds to five
    places; each returns a value that differs from the exact conversion by
    at most half a unit of its last place plus a rounding slack of
    10^-18. *)
Theorem pressure_and_speed_conversions_accurate (x : Decimal) :
  - (10000) <= toQ x <= 10000 ->
  (exists r, convert_inches_of_mercury_to_kilopascals x = Ok r
             /\ Dec.dexp r = (-2)%Z
             /\ within ((1 # 200) + context_slack)
                  (toQ x / (295299830714 # 1000000000000)) r)
  /\ (exists r, convert_inches_of_mercury_to_millibars x = Ok r
                /\ Dec.dexp r = (-2)%Z
                /\ within ((1 # 200) + context_slack)
                     (toQ x / (295299830714 # 10000000000000)) r)
  /\ (exists r, convert_miles_per_hour_to_meters_per_second x = Ok r
                /\ Dec.dexp r = (-5)%Z
                /\ within ((1 # 200000) + context_slack)
                     (toQ x * (44704 # 100000)) r).
Proof.
  intros B.
  assert (EK : toQ KILOPASCAL_MERCURY_CONSTANT
               == 295299830714 # 1000000000000) by reflexivity.
  assert (EM : toQ MILLIBAR_MERCURY_CONSTANT
               == 295299830714 # 10000000000000)
    by (vm_compute; reflexivity).
  assert (ES : toQ METERS_PER_SECOND_CONSTANT == 44704 # 100000)
    by reflexivity.
  unfold within, context_slack,
    convert_inches_of_mercury_to_kilopascals,
    convert_inches_of_mercury_to_millibars,
    convert_miles_per_hour_to_meters_per_second.
  repeat apply conj.
  - destruct (conversion_quotient x _ _ EK) as (q & -> & [N1 N2] & M);
      [lra|exact B|].
    rewrite bind_ret_Ok. pow10_eval.
    set (y := toQ x / _) in *. conversion_finish q.
  - destruct (conversion_quotient x _ _ EM) as (q & -> & [N1 N2] & M);
      [lra|exact B|].
    rewrite bind_ret_Ok. pow10_eval.
    set (y := toQ x / _) in *. conversion_finish q.
  - pose proof (mul_near_const x _ _ ES) as N1.
    set (x1 := Dec.mul x METERS_PER_SECOND_CONSTANT) in *.
    pow10_eval. destruct N1 as [N1a N1b]; [split; lra|].
    conversion_finish x1.
Qed.

Lemma pressure_and_speed_conversions_accurate_witness :
  exists r, convert_miles_per_hour_to_meters_per_second (D 125 (-1)) = Ok r
            /\ Dec.dexp r = (-5)%Z
            /\ within ((1 # 200000) + context_slack)
                 (toQ (D 125 (-1)) * (44704 # 100000)) r.
Proof.
  destruct (pressure_and_speed_conversions_accurate (D 125 (-1)))
    as (_ & _ & C); [split; vm_compute; discriminate | exact C].
Defined.

Lemma inch_clicks_to_centimeters (c : Z) (unit : Decimal) (u : Q) :
  (Z.abs c <= 10000)%Z ->
  toQ unit == u -> 0 <= u <= 1 ->
  exists r,
    (q ← Dec.div (Dec.of_int c) _INCHES_PER_CENTIMETER; Ok (Dec.mul q unit))
    = Ok r
    /\ within context_slack (inject_Z c / (393701 # 1000000) * u) r.
Proof.
  intros B E U.
  assert (EI : toQ _INCHES_PER_CENTIMETER == 393701 # 1000000)
    by reflexivity.
  assert (Bc : - (10000) <= toQ (Dec.of_int c) <= 10000).
  { unfold toQ, Dec.of_int. cbn [Dec.dcoef Dec.dexp].
    change (10 ^ 0) with 1. rewrite Qmult_1_r.
    change 10000 with (inject_Z 10000).
    rewrite <- inject_Z_opp, <- !Zle_Qle. lia. }
  assert (Ec : toQ (Dec.of_int c) == inject_Z c).
  { unfold toQ, Dec.of_int. cbn [Dec.dcoef Dec.dexp].
    change (10 ^ 0) with 1. ring. }
  destruct (conversion_quotient _ _ _ EI ltac:(lra) Bc)
    as (q & -> & [N1 N2] & M).
  rewrite bind_ret_Ok. eexists. split; [reflexivity|].
  pose proof (mul_near_const q unit u E) as N.
  rewrite Ec in N1, N2, M.
  set (y := inject_Z c / _) in *. set (m := Dec.mul q unit) in *.
  unfold within, context_slack. pow10_eval.
  destruct N as [Na Nb]; [split; nra|]. split; nra.
Qed.

(** X21. Rain clicks to centimetres, for click counts of magnitude up to
    10000: the metric collectors give exactly 0.02, 0.1 or 0.01 centimetres
    per click; the inch collectors divide by 0.393701 inches per
    centimetre, never raise, and give the quotient times 0.1 or 0.01 up to
    a rounding slack of 10^-18. *)
Theorem rain_clicks_to_centimeters_values (c : Z) :
  (Z.abs c <= 10000)%Z ->
  (exists r, serial_clicks_to_centimeters
               RainCollectorTypeSerial.millimeters_0_2 c = Ok r
             /\ toQ r == inject_Z c * (2 # 100))
  /\ (exists r, serial_clicks_to_centimeters
                  RainCollectorTypeSerial.millimeters_0_1 c = Ok r
                /\ toQ r == inject_Z c * (1 # 100))
  /\ (exists r, database_clicks_to_centimeters
                  RainCollectorTypeDatabase.millimeters_0_2 c = Ok r
                /\ toQ r == inject_Z c * (2 # 100))
  /\ (exists r, database_clicks_to_centimeters
                  RainCollectorTypeDatabase.millimeters_1_0 c = Ok r
                /\ toQ r == inject_Z c * (1 # 10))
  /\ (exists r, database_clicks_to_centimeters
                  RainCollectorTypeDatabase.millimeters_0_1 c = Ok r
                /\ toQ r == inject_Z c * (1 # 100))
  /\ (exists r, serial_clicks_to_centimeters
                  RainCollectorTypeSerial.inches_0_01 c = Ok r
                /\ within context_slack
                     (inject_Z c / (393701 # 1000000) * (1 # 100)) r)
  /\ (exists r, database_clicks_to_centimeters
                  RainCollectorTypeDatabase.inches_0_1 c = Ok r
                /\ within context_slack
                     (inject_Z c / (393701 # 1000000) * (1 # 10)) r)
  /\ (exists r, database_clicks_to_centimeters
                  RainCollectorTypeDatabase.inches_0_01 c = Ok r
                /\ within context_slack
                     (inject_Z c / (393701 # 1000000) * (1 # 100)) r).
Proof.
  intros B.
  repeat apply conj;
    try (apply inch_clicks_to_centimeters;
         [exact B | reflexivity | split; lra]);
    (eexists; split;
     [exact_products; reflexivity
     | rewrite ?toQ_mk, ?inject_Z_mult; pow10_eval; unfold Qeq; cbn; lia]).
Qed.

Lemma rain_clicks_to_centimeters_values_witness :
  exists r, database_clicks_to_centimeters
              RainCollectorTypeDatabase.inches_0_01 25 = Ok r
            /\ within context_slack
                 (25 / (393701 # 1000000) * (1 # 100)) r.
Proof.
  apply (rain_clicks_to_centimeters_values 25). vm_compute. discriminate.
Defined.

Local Close Scope Q_scope.
Local Open Scope Z_scope.
